(** * LibreNumbers: the LaTeX normaliser of [latex_to_docx_all_v2.py]

    A shallow embedding of the text-normalisation pipeline
    (definition stripper, invocation rewriter, environment balancer,
    list-item guarantor and brace auditor) together with the properties
    stated about it in the specification.

    Text is a [list ascii]: the characters with code points 0..255.  The
    classification of these code points ([str.isspace], [str.isalpha], the
    regular-expression classes [\s], [\w] and the line boundaries of
    [str.splitlines]) is tabulated as CPython does it. *)

From Stdlib Require Import List Ascii Bool Arith ZArith Lia.
From Stdlib Require String.
Import ListNotations String.StringSyntax.

Local Open Scope list_scope.

(** ** Characters and text *)

Abbreviation text := (list ascii) (only parsing).

Definition str (s : String.string) : text := String.list_ascii_of_string s.
Arguments str s%_string_scope.

Definition code (c : ascii) : nat := nat_of_ascii c.

Definition LF : ascii := ascii_of_nat 10.
Definition CR : ascii := ascii_of_nat 13.

Definition is_char (a c : ascii) : bool := Ascii.eqb a c.

Definition in_range (lo hi n : nat) : bool := (lo <=? n) && (n <=? hi).

(** [str.isspace] and the class [\s] of [re] on [str] patterns. *)
Definition isspace (c : ascii) : bool :=
  let n := code c in
  in_range 9 13 n || in_range 28 32 n || (n =? 133) || (n =? 160).

(** [str.isalpha]. *)
Definition isalpha (c : ascii) : bool :=
  let n := code c in
  in_range 65 90 n || in_range 97 122 n || (n =? 170) || (n =? 181)
  || (n =? 186) || in_range 192 214 n || in_range 216 246 n
  || in_range 248 255 n.

(** The class [\w] of [re]: alphanumeric characters and the underscore. *)
Definition isword (c : ascii) : bool :=
  let n := code c in
  isalpha c || in_range 48 57 n || (n =? 95) || (n =? 178) || (n =? 179)
  || (n =? 185) || in_range 188 190 n.

(** The class [[A-Za-z]]. *)
Definition is_ascii_letter (c : ascii) : bool :=
  let n := code c in in_range 65 90 n || in_range 97 122 n.

(** The class [[A-Za-z*]] of [RE_ENV_BEGIN] and [RE_ENV_END]. *)
Definition is_env_char (c : ascii) : bool :=
  is_ascii_letter c || (code c =? 42).

(** The line boundaries of [str.splitlines]. *)
Definition is_linebreak (c : ascii) : bool :=
  let n := code c in
  in_range 10 13 n || in_range 28 30 n || (n =? 133).

(** ** [str.splitlines] and ['\n'.join] *)

(** [splitlines_from after_cr s]: the lines of [s]; [after_cr] tells that the
    character before [s] was a carriage return, so that a line feed at the
    head of [s] belongs to the same boundary. *)
Fixpoint splitlines_from (after_cr : bool) (s : text) : list text :=
  match s with
  | [] => []
  | c :: s' =>
      if is_char LF c && after_cr then splitlines_from false s'
      else if is_linebreak c then [] :: splitlines_from (is_char CR c) s'
      else match splitlines_from false s' with
           | [] => [[c]]
           | l :: ls => (c :: l) :: ls
           end
  end.

Definition splitlines (s : text) : list text := splitlines_from false s.

Fixpoint join_nl (ls : list text) : text :=
  match ls with
  | [] => []
  | [l] => l
  | l :: ls' => l ++ LF :: join_nl ls'
  end.

(** The value of ['\n'.join(lines) + '\n']. *)
Definition join_lines (ls : list text) : text := join_nl ls ++ [LF].

(** ** A small regular-expression toolkit

    Each pattern of the program is written as a matcher: a function that,
    applied to the text at a position, returns the captured groups and the
    length of the match there.  Every pattern of the program consumes at
    least one character. *)

Fixpoint strip_prefix (lit s : text) : option text :=
  match lit with
  | [] => Some s
  | a :: lit' =>
      match s with
      | c :: s' => if is_char a c then strip_prefix lit' s' else None
      | [] => None
      end
  end.

(** Greedy repetition of a character class: the longest prefix in the class
    and what follows it. *)
Fixpoint span (p : ascii -> bool) (s : text) : text * text :=
  match s with
  | c :: s' => if p c then let (a, b) := span p s' in (c :: a, b) else ([], s)
  | [] => ([], [])
  end.

(** Lazy repetition [(.*?)] under [re.S], followed by the continuation [k]:
    the shortest prefix after which [k] succeeds. *)
Fixpoint lazy_until {R : Type} (k : text -> option R) (s : text)
  : option (text * R) :=
  match k s with
  | Some r => Some ([], r)
  | None =>
      match s with
      | [] => None
      | c :: s' =>
          match lazy_until k s' with
          | Some (a, r) => Some (c :: a, r)
          | None => None
          end
      end
  end.

Section Scan.
Context {G : Type} (m : text -> option (G * nat)).

(** [pattern.finditer]: the groups of the leftmost non-overlapping matches.
    [skip] counts the characters still covered by the previous match. *)
Fixpoint finditer_from (skip : nat) (s : text) : list G :=
  match s with
  | [] => []
  | _ :: s' =>
      match skip with
      | S k => finditer_from k s'
      | O =>
          match m s with
          | Some (g, n) => g :: finditer_from (pred n) s'
          | None => finditer_from 0 s'
          end
      end
  end.

Definition finditer (s : text) : list G := finditer_from 0 s.

(** [pattern.search]: offset and length of the leftmost match, with its
    groups. *)
Fixpoint search (s : text) : option (nat * nat * G) :=
  match s with
  | [] => None
  | _ :: s' =>
      match m s with
      | Some (g, n) => Some (0, n, g)
      | None =>
          match search s' with
          | Some (p, n, g) => Some (S p, n, g)
          | None => None
          end
      end
  end.

(** [re.sub] with a replacement function that reads and writes a state
    (the closure variables of the callback). *)
Context {St : Type} (repl : G -> St -> St * text).

Fixpoint sub_from (skip : nat) (st : St) (s : text) : St * text :=
  match s with
  | [] => (st, [])
  | c :: s' =>
      match skip with
      | S k => sub_from k st s'
      | O =>
          match m s with
          | Some (g, n) =>
              let (st1, r) := repl g st in
              let (st2, out) := sub_from (pred n) st1 s' in
              (st2, r ++ out)
          | None =>
              let (st1, out) := sub_from 0 st s' in (st1, c :: out)
          end
      end
  end.

Definition sub_st (st : St) (s : text) : St * text := sub_from 0 st s.
End Scan.

(** [re.sub] with a replacement that depends on the groups only. *)
Definition sub {G : Type} (m : text -> option (G * nat)) (repl : G -> text)
    (s : text) : text :=
  snd (sub_st m (fun g (_ : unit) => (tt, repl g)) tt s).

(** A literal as a pattern. *)
Definition m_lit (lit s : text) : option (unit * nat) :=
  match strip_prefix lit s with
  | Some _ => Some (tt, length lit)
  | None => None
  end.

(** [str.replace(old, new)] for a non-empty [old]. *)
Definition replace (old new s : text) : text := sub (m_lit old) (fun _ => new) s.

(** Removal of leading characters of a class ([str.lstrip], a leading [\s*]). *)
Fixpoint dropwhile (p : ascii -> bool) (s : text) : text :=
  match s with
  | c :: s' => if p c then dropwhile p s' else s
  | [] => []
  end.

Fixpoint text_eqb (a b : text) : bool :=
  match a, b with
  | [], [] => true
  | x :: a', y :: b' => is_char x y && text_eqb a' b'
  | _, _ => false
  end.

(** Index of the first element satisfying [p]. *)
Fixpoint find_first {A : Type} (p : A -> bool) (l : list A) : option nat :=
  match l with
  | [] => None
  | x :: l' =>
      if p x then Some 0
      else match find_first p l' with Some i => Some (S i) | None => None end
  end.

(** The slice assignment [lines[idx:idx] = ins]. *)
Definition insert_at {A : Type} (idx : nat) (ins l : list A) : list A :=
  firstn idx l ++ ins ++ skipn idx l.

Definition BACKSLASH : ascii := ascii_of_nat 92.
Definition LBRACE : ascii := ascii_of_nat 123.
Definition RBRACE : ascii := ascii_of_nat 125.
Definition LBRACK : ascii := ascii_of_nat 91.
Definition RBRACK : ascii := ascii_of_nat 93.
Definition PERCENT : ascii := ascii_of_nat 37.

(** ** Patterns shared by the stages *)

(** [\\begin\{([A-Za-z*]+)\}] and [\\end\{([A-Za-z*]+)\}]: the keyword with
    its brace, a non-empty greedy run of the class, a closing brace. *)
Definition m_env (kw : text) (s : text) : option (text * nat) :=
  match strip_prefix kw s with
  | Some r =>
      match span is_env_char r with
      | (c :: name, b :: _) =>
          if is_char RBRACE b
          then Some (c :: name, length kw + length (c :: name) + 1)
          else None
      | _ => None
      end
  | None => None
  end.

Definition RE_ENV_BEGIN : text -> option (text * nat) := m_env (str "\begin{").
Definition RE_ENV_END : text -> option (text * nat) := m_env (str "\end{").

Definition BALANCE_ENVS : list text :=
  [ str "itemize"; str "enumerate"; str "description"; str "tabular";
    str "tabular*"; str "center"; str "flushleft"; str "flushright";
    str "quote"; str "quotation"; str "list" ].

Definition in_balance_envs (env : text) : bool :=
  existsb (text_eqb env) BALANCE_ENVS.

(** [re.match(r'^\s*\\end\{document\}\s*$', ln)]. *)
Definition is_end_document (ln : text) : bool :=
  match strip_prefix (str "\end{document}") (dropwhile isspace ln) with
  | Some r => forallb isspace r
  | None => false
  end.

(** The index found by the loop over [enumerate(lines)], [len(lines)] when no
    line matches. *)
Definition end_doc_idx (lines : list text) : nat :=
  match find_first is_end_document lines with
  | Some idx => idx
  | None => length lines
  end.

(** ** Invocation rewriter *)

(** The closure variable [itemize_depth] of [replace_invocations].  The field
    [history] is a ghost log of every value assigned to the counter, newest
    first; the program does not read it. *)
Record depth_state : Type := mk_depth
  { itemize_depth : Z;
    history : list Z }.

Definition depth_init : depth_state := {| itemize_depth := 0; history := [] |}.

Definition set_depth (d : Z) (st : depth_state) : depth_state :=
  {| itemize_depth := d; history := d :: history st |}.

Definition ITEMIZE : text := str "itemize".

(** Body of the loop over [RE_ENV_BEGIN.finditer(ln)]. *)
Definition count_begin (st : depth_state) (env : text) : depth_state :=
  if text_eqb env ITEMIZE then set_depth (itemize_depth st + 1) st else st.

(** Body of the loop over [RE_ENV_END.finditer(ln)]. *)
Definition count_end (st : depth_state) (env : text) : depth_state :=
  if text_eqb env ITEMIZE && (0 <? itemize_depth st)%Z
  then set_depth (itemize_depth st - 1) st
  else st.

Definition BEGIN_ITEMIZE : text := str "\begin{itemize}".
Definition END_ITEMIZE : text := str "\end{itemize}".
Definition ITEM_SP : text := str "\item ".

Definition _repl_item (text_item : text) (st : depth_state)
  : depth_state * text :=
  if (itemize_depth st =? 0)%Z
  then (set_depth (itemize_depth st + 1) st,
        BEGIN_ITEMIZE ++ [LF] ++ ITEM_SP ++ text_item)
  else (st, ITEM_SP ++ text_item).

(** The patterns of [\resumeItem{X}] and [\resumeSubItem{X}]: the keyword with
    its brace, a greedy run of characters other than the closing brace (the
    group), a closing brace. *)
Definition m_item (kw : text) (s : text) : option (text * nat) :=
  match strip_prefix kw s with
  | Some r =>
      match span (fun c => negb (is_char RBRACE c)) r with
      | (x, _ :: _) => Some (x, length kw + length x + 1)
      | (_, []) => None
      end
  | None => None
  end.

Definition RE_RESUME_ITEM : text -> option (text * nat) :=
  m_item (str "\resumeItem{").
Definition RE_RESUME_SUBITEM : text -> option (text * nat) :=
  m_item (str "\resumeSubItem{").

(** The four literal replacements at the head of the loop body. *)
Definition replace_list_macros (raw : text) : text :=
  let ln := replace (str "\resumeSubHeadingListStart") BEGIN_ITEMIZE raw in
  let ln := replace (str "\resumeSubHeadingListEnd") END_ITEMIZE ln in
  let ln := replace (str "\resumeItemListStart") BEGIN_ITEMIZE ln in
  replace (str "\resumeItemListEnd") END_ITEMIZE ln.

(** One iteration of the loop over [text.splitlines()]. *)
Definition rewrite_line (st : depth_state) (raw : text) : depth_state * text :=
  let ln := replace_list_macros raw in
  let st := fold_left count_begin (finditer RE_ENV_BEGIN ln) st in
  let st := fold_left count_end (finditer RE_ENV_END ln) st in
  let (st, ln) := sub_st RE_RESUME_ITEM _repl_item st ln in
  sub_st RE_RESUME_SUBITEM _repl_item st ln.

Fixpoint rewrite_lines (st : depth_state) (lines : list text)
  : depth_state * list text :=
  match lines with
  | [] => (st, [])
  | raw :: rest =>
      let (st1, ln) := rewrite_line st raw in
      let (st2, out) := rewrite_lines st1 rest in
      (st2, ln :: out)
  end.

Definition SEP : text := str "}{".

(** [\\resumeSubheading\{(.*?)\}\{(.*?)\}\{(.*?)\}\{(.*?)\}] under [re.S]:
    four lazy groups, each followed by what remains of the pattern. *)
Definition m_subheading (s : text)
  : option ((text * text * text * text) * nat) :=
  match strip_prefix (str "\resumeSubheading{") s with
  | None => None
  | Some r =>
      let k4 := fun s4 => lazy_until (strip_prefix [RBRACE]) s4 in
      let k3 := fun s3 =>
        match lazy_until (fun s1 => match strip_prefix SEP s1 with
                                    | Some r1 => k4 r1
                                    | None => None
                                    end) s3 with
        | Some (c, (d, rest)) => Some (c, (d, rest))
        | None => None
        end in
      let k2 := fun s2 =>
        match lazy_until (fun s1 => match strip_prefix SEP s1 with
                                    | Some r1 => k3 r1
                                    | None => None
                                    end) s2 with
        | Some (b, (c, (d, rest))) => Some (b, (c, (d, rest)))
        | None => None
        end in
      match lazy_until (fun s1 => match strip_prefix SEP s1 with
                                  | Some r1 => k2 r1
                                  | None => None
                                  end) r with
      | Some (a, (b, (c, (d, rest)))) =>
          Some ((a, b, c, d), length s - length rest)
      | None => None
      end
  end.

Definition subheading_repl (g : text * text * text * text) : text :=
  let '(A, B, C, D) := g in
  str "\item \textbf{" ++ A ++ str "}\hfill\textit{" ++ B ++ str "}\\"
  ++ str "\textit{" ++ C ++ str "}\hfill\textit{" ++ D ++ str "}".

(** The counter state after the loop, and the lines it produced. *)
Definition rewrite_text (t : text) : depth_state * list text :=
  rewrite_lines depth_init (splitlines t).

Definition replace_invocations (t : text) : text :=
  sub m_subheading subheading_repl (join_lines (snd (rewrite_text t))).

(** ** Environment balancer *)

(** The lists [stack] and [unmatched_end] of [balance_envs]; both grow at the
    end, and [stack.pop()] removes the last entry. *)
Record scan_state : Type := mk_scan
  { stack : list (text * nat);
    unmatched_end : list (text * nat) }.

Definition scan_init : scan_state := {| stack := []; unmatched_end := [] |}.

Record stats : Type := mk_stats
  { inserted_missing_ends : nat;
    unmatched_end_count : nat }.

Definition is_commented (ln : text) : bool :=
  match dropwhile isspace ln with
  | c :: _ => is_char PERCENT c
  | [] => false
  end.

(** [stack and stack[-1][0] == env]. *)
Definition top_is (env : text) (stk : list (text * nat)) : bool :=
  match stk with
  | [] => false
  | _ :: _ => text_eqb (fst (last stk ([], 0))) env
  end.

Definition env_begin (i : nat) (st : scan_state) (env : text) : scan_state :=
  if in_balance_envs env
  then {| stack := stack st ++ [(env, i)]; unmatched_end := unmatched_end st |}
  else st.

Definition env_end (i : nat) (st : scan_state) (env : text) : scan_state :=
  if in_balance_envs env
  then if top_is env (stack st)
       then {| stack := removelast (stack st);
               unmatched_end := unmatched_end st |}
       else {| stack := stack st;
               unmatched_end := unmatched_end st ++ [(env, i)] |}
  else st.

(** One iteration of the loop over [enumerate(lines, 1)]. *)
Definition scan_line (i : nat) (st : scan_state) (ln : text) : scan_state :=
  if is_commented ln then st
  else
    let st := fold_left (env_begin i) (finditer RE_ENV_BEGIN ln) st in
    fold_left (env_end i) (finditer RE_ENV_END ln) st.

Fixpoint scan_lines (i : nat) (st : scan_state) (lines : list text)
  : scan_state :=
  match lines with
  | [] => st
  | ln :: rest => scan_lines (S i) (scan_line i st ln) rest
  end.

(** The f-string [\end{env}]. *)
Definition closer (e : text * nat) : text :=
  str "\end{" ++ fst e ++ [RBRACE].

Definition balance_envs (t : text) : text * stats :=
  let lines := splitlines t in
  let st := scan_lines 1 scan_init lines in
  let idx := end_doc_idx lines in
  let inserts := map closer (rev (stack st)) in
  let lines :=
    match inserts with
    | [] => lines
    | _ :: _ => insert_at idx inserts lines
    end in
  (join_lines lines,
   {| inserted_missing_ends := length inserts;
      unmatched_end_count := length (unmatched_end st) |}).

(** ** List-item guarantor *)

(** [\\begin\{(itemize|enumerate)\}] and [\\end\{(itemize|enumerate)\}]. *)
Definition m_list_env (kw : text) (s : text) : option (unit * nat) :=
  match strip_prefix kw s with
  | Some r =>
      match strip_prefix (str "itemize}") r with
      | Some _ => Some (tt, length kw + 8)
      | None =>
          match strip_prefix (str "enumerate}") r with
          | Some _ => Some (tt, length kw + 10)
          | None => None
          end
      end
  | None => None
  end.

Definition has_list_begin (ln : text) : bool :=
  match search (m_list_env (str "\begin{")) ln with
  | Some _ => true
  | None => false
  end.

Definition has_list_end (ln : text) : bool :=
  match search (m_list_env (str "\end{")) ln with
  | Some _ => true
  | None => false
  end.

(** [re.search(r'^\s*\\item\b', ln)]: without [re.M] the anchor holds at the
    start of the line only; the boundary after [\item] holds at the end of
    the line or before a character that is not a word character. *)
Definition is_item_line (ln : text) : bool :=
  match strip_prefix (str "\item") (dropwhile isspace ln) with
  | Some [] => true
  | Some (c :: _) => negb (isword c)
  | None => false
  end.

(** The inner loop, on the lines from index [j] on: [true] when it leaves with
    [found] set. *)
Fixpoint window_has_item (ls : list text) : bool :=
  match ls with
  | [] => false
  | l :: ls' =>
      if has_list_end l then false
      else if is_item_line l then true
      else window_has_item ls'
  end.

Definition ITEM : text := str "\item".

(** The outer loop, by the index [i] and the mutated list; each unit of fuel
    pays for one test of the loop condition. *)
Fixpoint ensure_loop (fuel : nat) (lines : list text) (i : nat)
  : option (list text) :=
  match fuel with
  | O => None
  | S fuel' =>
      match nth_error lines i with
      | None => Some lines
      | Some ln =>
          if has_list_begin ln then
            if window_has_item (skipn (i + 1) lines)
            then ensure_loop fuel' lines (i + 1)
            else ensure_loop fuel' (insert_at (i + 1) [ITEM] lines) (i + 1 + 1)
          else ensure_loop fuel' lines (i + 1)
      end
  end.

(** [None] stands for a loop that has not left after [fuel] iterations. *)
Definition ensure_list_items_fuel (fuel : nat) (t : text) : option text :=
  match ensure_loop fuel (splitlines t) 0 with
  | Some lines => Some (join_lines lines)
  | None => None
  end.

Definition ensure_list_items (t : text) : option text :=
  ensure_list_items_fuel (S (length (splitlines t))) t.

(** ** Brace auditor *)

(** [raw.split('%', 1)[0]]. *)
Definition strip_comment (raw : text) : text :=
  fst (span (fun c => negb (is_char PERCENT c)) raw).

(** A brace position record: line, column, source line. *)
Definition brace_record : Type := nat * nat * text.

(** The loop over the columns of one comment-stripped line; [col] is the
    zero-based index of the head of [line]. *)
Fixpoint scan_braces (line_no : nat) (raw : text) (col : nat) (line : text)
    (stk : list brace_record) : list brace_record :=
  match line with
  | [] => stk
  | ch :: rest =>
      let stk :=
        if is_char LBRACE ch then stk ++ [(line_no, col + 1, raw)]
        else if is_char RBRACE ch then removelast stk
        else stk in
      scan_braces line_no raw (col + 1) rest stk
  end.

Fixpoint scan_brace_lines (line_no : nat) (lines : list text)
    (stk : list brace_record) : list brace_record :=
  match lines with
  | [] => stk
  | raw :: rest =>
      scan_brace_lines (S line_no) rest
        (scan_braces line_no raw 0 (strip_comment raw) stk)
  end.

Definition find_unmatched_open_braces (t : text) : list brace_record :=
  scan_brace_lines 1 (splitlines t) [].

(** [s.count(ch)] for a single character. *)
Definition count (ch : ascii) (s : text) : nat :=
  length (filter (is_char ch) s).

Definition rough_brace_imbalance (t : text) : Z :=
  fold_left
    (fun total raw =>
       let s := strip_comment raw in
       (total + Z.of_nat (count LBRACE s) - Z.of_nat (count RBRACE s))%Z)
    (splitlines t) 0%Z.

Definition auto_fix_braces (t : text) (how_many : Z) : text :=
  if (how_many <=? 0)%Z then t
  else
    let lines := splitlines t in
    join_lines
      (insert_at (end_doc_idx lines) (repeat [RBRACE] (Z.to_nat how_many))
         lines).

(** ** Definition stripper *)

(** The slice [src[a:b]] for [a <= len(src)]. *)
Definition slice (a b : nat) (src : text) : text := firstn (b - a) (skipn a src).

(** One alternative of [RE_CMD_START]: the backslash, the keyword and the
    word boundary [\b], which after a letter holds at the end of the text or
    before a character that is not a word character. *)
Definition m_keyword (kw : text) (s : text) : option (unit * nat) :=
  match strip_prefix (BACKSLASH :: kw) s with
  | Some [] => Some (tt, S (length kw))
  | Some (c :: _) => if isword c then None else Some (tt, S (length kw))
  | None => None
  end.

Definition first_match {G : Type} (ms : list (text -> option (G * nat)))
    (s : text) : option (G * nat) :=
  fold_right (fun m r => match m s with Some x => Some x | None => r end)
    None ms.

(** [\\(newcommand|renewcommand|providecommand|def)\b]. *)
Definition RE_CMD_START : text -> option (unit * nat) :=
  first_match
    [ m_keyword (str "newcommand"); m_keyword (str "renewcommand");
      m_keyword (str "providecommand"); m_keyword (str "def") ].

(** [\\resume[A-Za-z]+]. *)
Definition m_resume_name (s : text) : option (unit * nat) :=
  match strip_prefix (str "\resume") s with
  | Some r =>
      match span is_ascii_letter r with
      | (_ :: _ as name, _) => Some (tt, 7 + length name)
      | ([], _) => None
      end
  | None => None
  end.

Definition found {G : Type} (m : text -> option (G * nat)) (s : text) : bool :=
  match search m s with Some _ => true | None => false end.

(** [any(re.search(p, header_text) for p in MACRO_NAME_PATTERNS)]; the last
    pattern, [\\labelitemi\+?], is found exactly where its literal part is. *)
Definition _should_strip_definition (header_text : text) : bool :=
  found m_resume_name header_text
  || found (m_lit BEGIN_ITEMIZE) header_text
  || found (m_lit END_ITEMIZE) header_text
  || found (m_lit (str "\labelitemi")) header_text.

(** The [while] loop of [_skip_balanced], on the text from index [j] on. *)
Fixpoint skip_balanced_from (open_ch close_ch : ascii) (depth : Z) (j : nat)
    (s : text) : nat :=
  match s with
  | [] => j
  | c :: s' =>
      if is_char open_ch c
      then skip_balanced_from open_ch close_ch (depth + 1) (j + 1) s'
      else if is_char close_ch c
      then if (depth - 1 =? 0)%Z then j + 1
           else skip_balanced_from open_ch close_ch (depth - 1) (j + 1) s'
      else skip_balanced_from open_ch close_ch depth (j + 1) s'
  end.

Definition _skip_balanced (src : text) (idx : nat) (open_ch close_ch : ascii)
  : nat :=
  match nth_error src idx with
  | Some c =>
      if is_char open_ch c
      then skip_balanced_from open_ch close_ch 0 idx (skipn idx src)
      else idx
  | None => idx
  end.

(** [while i < len(src) and p(src[i]): i += 1]. *)
Definition skip_while (p : ascii -> bool) (src : text) (i : nat) : nat :=
  i + length (fst (span p (skipn i src))).

(** [src.find(ch, i)], [None] for [-1]. *)
Definition find_char (ch : ascii) (src : text) (i : nat) : option nat :=
  match find_first (is_char ch) (skipn i src) with
  | Some k => Some (i + k)
  | None => None
  end.

Definition MARKER : text := str "% (stripped macro definition)" ++ [LF].

(** [src[:start_idx] + marker + src[end_idx:]]. *)
Definition strip_span (src : text) (start_idx end_idx : nat) : text :=
  firstn start_idx src ++ MARKER ++ skipn end_idx src.

Definition is_name_char (c : ascii) : bool := isalpha c || (code c =? 64).

(** [src[i] in ' #0123456789']. *)
Definition is_param_char (c : ascii) : bool :=
  let n := code c in (n =? 32) || (n =? 35) || in_range 48 57 n.

(** The header of a definition after its keyword: the optional braced name or
    the [\def\name#1#2] form, the optional bracketed argument count, and the
    white space up to the body.  Returns the index where the body is looked
    for. *)
Definition skip_header (src : text) (i : nat) : nat :=
  let i := skip_while isspace src i in
  let i :=
    match nth_error src i with
    | Some c =>
        if is_char LBRACE c then _skip_balanced src i LBRACE RBRACE
        else if is_char BACKSLASH c then
          let i := i + 1 in
          let i := skip_while is_name_char src i in
          skip_while is_param_char src i
        else i
    | None => i
    end in
  let i := skip_while isspace src i in
  let i :=
    match nth_error src i with
    | Some c => if is_char LBRACK c then _skip_balanced src i LBRACK RBRACK else i
    | None => i
    end in
  skip_while isspace src i.

(** The end of the line of index [i]: just after the next line feed, or the
    end of the text. *)
Definition line_end (src : text) (i : nat) : nat :=
  match find_char LF src i with
  | Some j => j + 1
  | None => length src
  end.

Definition _strip_one_definition (src : text) (start_idx : nat) : text * nat :=
  match RE_CMD_START (skipn start_idx src) with
  | None => (src, start_idx + 1)
  | Some (_, n) =>
      let i := start_idx + n in
      let header_window := slice start_idx (min (length src) (i + 400)) src in
      if negb (_should_strip_definition header_window) then (src, i)
      else
        let i := skip_header src i in
        match nth_error src i with
        | None => (strip_span src start_idx (line_end src start_idx), start_idx + 1)
        | Some c =>
            if negb (is_char LBRACE c) then
              match find_char LBRACE src i with
              | None => (strip_span src start_idx (line_end src i), start_idx + 1)
              | Some j =>
                  (strip_span src start_idx (_skip_balanced src j LBRACE RBRACE),
                   start_idx + 1)
              end
            else
              (strip_span src start_idx (_skip_balanced src i LBRACE RBRACE),
               start_idx + 1)
        end
  end.

(** The [while True] loop of [strip_macro_definitions]; each unit of fuel
    pays for one search. *)
Fixpoint strip_loop (fuel : nat) (src : text) (i : nat) : option text :=
  match fuel with
  | O => None
  | S fuel' =>
      match search RE_CMD_START (skipn i src) with
      | None => Some src
      | Some (p, n, _) =>
          let cmd_start := i + p in
          let header_window :=
            slice cmd_start (min (length src) (cmd_start + 500)) src in
          if _should_strip_definition header_window then
            let (src', i') := _strip_one_definition src cmd_start in
            strip_loop fuel' src' i'
          else strip_loop fuel' src (cmd_start + n)
      end
  end.

(** [None] stands for a loop that has not left after [fuel] searches. *)
Definition strip_macro_definitions_fuel (fuel : nat) (t : text) : option text :=
  strip_loop fuel t 0.

Definition strip_macro_definitions (t : text) : option text :=
  strip_macro_definitions_fuel (S (length t)) t.

(** ** Guard rewriter *)

(** Index of the last line feed of [s]. *)
Fixpoint last_lf (s : text) : option nat :=
  match s with
  | [] => None
  | c :: s' =>
      match last_lf s' with
      | Some k => Some (S k)
      | None => if is_char LF c then Some 0 else None
      end
  end.

(** [^\s*\\input\{glyphtounicode(\.tex)?\}\s*$] under [re.M], tried at a
    position where [^] holds; returns the length of the match.  The trailing
    [\s*] is greedy: when the white space does not reach the end of the text,
    it is given back down to its last line feed, before which [$] holds. *)
Definition m_guard (s : text) : option nat :=
  match strip_prefix (str "\input{glyphtounicode") (dropwhile isspace s) with
  | None => None
  | Some r =>
      let r := match strip_prefix (str ".tex") r with
               | Some r' => r'
               | None => r
               end in
      match strip_prefix [RBRACE] r with
      | None => None
      | Some r2 =>
          match span isspace r2 with
          | (_, []) => Some (length s)
          | (ws, _ :: _) =>
              match last_lf ws with
              | Some k => Some (length s - length r2 + k)
              | None => None
              end
          end
      end
  end.

Definition GUARDED : text :=
  str "\InputIfFileExists{glyphtounicode.tex}{}{} % guarded for Pandoc".

(** [re.sub] for the guard pattern; [bol] tells that the head of [s] is at
    the start of the text or just after a line feed. *)
Fixpoint guard_from (skip : nat) (bol : bool) (s : text) : text :=
  match s with
  | [] => []
  | c :: s' =>
      match skip with
      | S k => guard_from k (is_char LF c) s'
      | O =>
          match (if bol then m_guard s else None) with
          | Some n => GUARDED ++ guard_from (pred n) (is_char LF c) s'
          | None => c :: guard_from 0 (is_char LF c) s'
          end
      end
  end.

Definition guard_glyphtounicode (t : text) : text := guard_from 0 true t.

(** ** Notions used by the specification *)

Definition ends_with_newline (s : text) : Prop := exists p, s = p ++ [LF].

Definition no_break (l : text) : bool :=
  forallb (fun c => negb (is_linebreak c)) l.

(** A text in which no macro can start and no brace group can end. *)
Definition plain (x : text) : bool :=
  forallb (fun c => negb (is_char BACKSLASH c) && negb (is_char RBRACE c)
                    && negb (is_linebreak c)) x.

(** *** List-item guarantor

    The guarantor in the words of the specification: every line is kept, and
    a list-begin line whose window holds no item line is followed by one
    empty item line. *)
Fixpoint guarantee (lines : list text) : list text :=
  match lines with
  | [] => []
  | ln :: rest =>
      if has_list_begin ln && negb (window_has_item rest)
      then ln :: ITEM :: guarantee rest
      else ln :: guarantee rest
  end.

(** *** Environment balancer

    A line that the scan of [balance_envs] passes over: a comment line, or a
    line without begin or end marker of a tracked name. *)
Definition inert (ln : text) : bool :=
  is_commented ln
  || (forallb (fun env => negb (in_balance_envs env)) (finditer RE_ENV_BEGIN ln)
      && forallb (fun env => negb (in_balance_envs env))
           (finditer RE_ENV_END ln)).

(** The stack left by the scan of [balance_envs] on a text. *)
Definition open_env_stack (t : text) : list (text * nat) :=
  stack (scan_lines 1 scan_init (splitlines t)).

(** *** Brace auditor

    The characters the auditor looks at: every line without its comment. *)
Definition visible (t : text) : text :=
  concat (map strip_comment (splitlines t)).

(** How many more opening than closing braces the visible text has. *)
Definition brace_excess (t : text) : Z :=
  (Z.of_nat (count LBRACE (visible t)) - Z.of_nat (count RBRACE (visible t)))%Z.

(** The part of a line before its first unescaped percent sign, a backslash
    escaping the character that follows it. *)
Fixpoint before_unescaped_percent (escaped : bool) (s : text) : text :=
  match s with
  | [] => []
  | c :: s' =>
      if escaped then c :: before_unescaped_percent false s'
      else if is_char PERCENT c then []
      else c :: before_unescaped_percent (is_char BACKSLASH c) s'
  end.

Definition visible_unescaped (t : text) : text :=
  concat (map (before_unescaped_percent false) (splitlines t)).

Definition brace_excess_unescaped (t : text) : Z :=
  (Z.of_nat (count LBRACE (visible_unescaped t))
   - Z.of_nat (count RBRACE (visible_unescaped t)))%Z.

(** The characters of the visible text in scan order, each with the record
    the auditor would push for it. *)
Fixpoint line_events (line_no : nat) (raw : text) (col : nat) (line : text)
  : list (brace_record * ascii) :=
  match line with
  | [] => []
  | ch :: rest =>
      ((line_no, col + 1, raw), ch) :: line_events line_no raw (col + 1) rest
  end.

Fixpoint text_events (line_no : nat) (lines : list text)
  : list (brace_record * ascii) :=
  match lines with
  | [] => []
  | raw :: rest =>
      line_events line_no raw 0 (strip_comment raw)
      ++ text_events (S line_no) rest
  end.

(** [stays_open depth evs]: with [depth] braces opened since, no closing
    brace of [evs] reaches back to the brace under consideration. *)
Fixpoint stays_open (depth : nat) (evs : list (brace_record * ascii)) : bool :=
  match evs with
  | [] => true
  | (_, ch) :: rest =>
      if is_char LBRACE ch then stays_open (S depth) rest
      else if is_char RBRACE ch then
        match depth with
        | O => false
        | S d => stays_open d rest
        end
      else stays_open depth rest
  end.

(** The opening braces never matched by a later closing brace, in text
    order. *)
Fixpoint unmatched_opens (evs : list (brace_record * ascii))
  : list brace_record :=
  match evs with
  | [] => []
  | (p, ch) :: rest =>
      if is_char LBRACE ch && stays_open 0 rest
      then p :: unmatched_opens rest
      else unmatched_opens rest
  end.

(** The auditor's stack discipline on a list of events. *)
Fixpoint scan_events (stk : list brace_record)
    (evs : list (brace_record * ascii)) : list brace_record :=
  match evs with
  | [] => stk
  | (p, ch) :: rest =>
      scan_events
        (if is_char LBRACE ch then stk ++ [p]
         else if is_char RBRACE ch then removelast stk
         else stk) rest
  end.

(** The largest number of closing braces by which a prefix of [evs] exceeds
    its opening braces. *)
Fixpoint deficit (evs : list (brace_record * ascii)) : nat :=
  match evs with
  | [] => 0
  | (_, ch) :: rest =>
      if is_char LBRACE ch then pred (deficit rest)
      else if is_char RBRACE ch then S (deficit rest)
      else deficit rest
  end.

(** Every pattern of the program starts with a backslash. *)
Definition starts_with_backslash {G : Type} (m : text -> option (G * nat))
  : Prop :=
  forall c s, c <> BACKSLASH -> m (c :: s) = None.

Definition no_backslash (s : text) : bool :=
  forallb (fun c => negb (is_char BACKSLASH c)) s.

(** The place where closers and braces are inserted: before the first line
    that is the end of the document, or after the last line. *)
Definition insertion_point (lines before after : list text) : Prop :=
  lines = before ++ after
  /\ Forall (fun l => is_end_document l = false) before
  /\ (after = [] \/ exists l r, after = l :: r /\ is_end_document l = true).

(** Number of events of [evs] whose character is [ch]. *)
Definition ev_count (ch : ascii) (evs : list (brace_record * ascii)) : nat :=
  length (filter (fun e => is_char ch (snd e)) evs).

(** The excess of opening over closing braces in the visible part of a list
    of lines. *)
Definition excess_of_lines (lines : list text) : Z :=
  (Z.of_nat (count LBRACE (concat (map strip_comment lines)))
   - Z.of_nat (count RBRACE (concat (map strip_comment lines))))%Z.

(** *** Invocation rewriter

    The counter is not negative, no value ever assigned to it was, and the
    log is complete: the counter holds the last value logged. *)
Definition depth_ok (st : depth_state) : Prop :=
  (0 <= itemize_depth st)%Z
  /\ Forall (fun d => (0 <= d)%Z) (history st)
  /\ itemize_depth st = hd 0%Z (history st).

Definition no_rbrace (x : text) : bool :=
  forallb (fun c => negb (is_char RBRACE c)) x.

(** The non-empty suffixes of a text. *)
Fixpoint nonempty_tails (a : text) : list text :=
  match a with
  | [] => []
  | _ :: a' => a :: nonempty_tails a'
  end.

(** No match of [m] starts inside the prefix [a] of [a ++ b]. *)
Definition no_match_prefix {G : Type} (m : text -> option (G * nat))
    (a b : text) : Prop :=
  forall a1 a2, a = a1 ++ a2 -> a2 <> [] -> m (a2 ++ b) = None.

(** The invocation [\resumeItem{x}] and [\resumeSubItem{x}]. *)
Definition resume_item (x : text) : text := str "\resumeItem{" ++ x ++ [RBRACE].
Definition resume_subitem (x : text) : text :=
  str "\resumeSubItem{" ++ x ++ [RBRACE].

Definition no_lf (s : text) : bool :=
  forallb (fun c => negb (is_char LF c)) s.

(** *** Definition stripper

    The number of positions of a text at which a defining keyword matches:
    the measure that decreases along the loop of [strip_macro_definitions]. *)
Fixpoint cmd_starts (s : text) : nat :=
  match s with
  | [] => 0
  | _ :: s' =>
      (match RE_CMD_START s with Some _ => 1 | None => 0 end) + cmd_starts s'
  end.

(** Every entry of the stack names a tracked environment. *)
Definition tracked (stk : list (text * nat)) : Prop :=
  Forall (fun e => in_balance_envs (fst e) = true) stk.

(** The stack when the scan reaches the first end-of-document line. *)
Definition stack_at_end_document (t : text) : list (text * nat) :=
  stack (scan_lines 1 scan_init
           (firstn (end_doc_idx (splitlines t)) (splitlines t))).

(** [framed base i0 k stk stk']: the stack [stk] of a scan that started on
    [base] at line [i0] still holds the first [k] entries of [base], below
    entries pushed since; as long as all of [base] is there, the stack [stk']
    of the same scan started on the empty stack holds the same names as the
    entries pushed since. *)
Definition framed (base : list (text * nat)) (i0 k : nat)
    (stk stk' : list (text * nat)) : Prop :=
  k <= length base
  /\ exists new,
       stk = firstn k base ++ new
       /\ Forall (fun e => i0 <= snd e) new
       /\ (k = length base -> map fst stk' = map fst new).

(** ** The normalisation run of [main]

    The part of [main] between reading the input and writing the normalised
    text: the five stages, the brace audit, and the optional auto-fix.
    [auto_fix_flag] is the command-line flag [--auto-fix-braces]. *)
Record report : Type := mk_report
  { norm_text : text;
    norm_stats : stats;
    brace_delta : Z;
    hotspots : list brace_record }.

Definition normalize (auto_fix_flag : bool) (raw : text) : option report :=
  let s := guard_glyphtounicode raw in
  match strip_macro_definitions s with
  | None => None
  | Some s =>
      let s := replace_invocations s in
      let (s, st) := balance_envs s in
      match ensure_list_items s with
      | None => None
      | Some s =>
          let delta := rough_brace_imbalance s in
          let hs := if (0 <? delta)%Z then find_unmatched_open_braces s
                    else [] in
          if auto_fix_flag && (0 <? delta)%Z then
            let s := auto_fix_braces s delta in
            Some {| norm_text := s; norm_stats := st;
                    brace_delta := rough_brace_imbalance s; hotspots := hs |}
          else
            Some {| norm_text := s; norm_stats := st;
                    brace_delta := delta; hotspots := hs |}
      end
  end.

(** ** Further notions

    Every list-begin line of a list of lines has an item line in its
    window. *)
Fixpoint lists_ok (lines : list text) : bool :=
  match lines with
  | [] => true
  | ln :: rest =>
      (negb (has_list_begin ln) || window_has_item rest) && lists_ok rest
  end.

(** [balanced o c d s]: read after [d] unclosed opening characters, [s]
    closes each of them and each one it opens itself, and never closes more
    than are open. *)
Fixpoint balanced (o c : ascii) (d : nat) (s : text) : bool :=
  match s with
  | [] => d =? 0
  | x :: s' =>
      if is_char o x then balanced o c (S d) s'
      else if is_char c x then
        match d with
        | O => false
        | S d' => balanced o c d' s'
        end
      else balanced o c d s'
  end.

(** [unclosed o c d s]: read after [d] opening characters that follow the
    one under consideration, no closing character of [s] reaches back to
    it. *)
Fixpoint unclosed (o c : ascii) (d : nat) (s : text) : bool :=
  match s with
  | [] => true
  | x :: s' =>
      if is_char o x then unclosed o c (S d) s'
      else if is_char c x then
        match d with
        | O => false
        | S d' => unclosed o c d' s'
        end
      else unclosed o c d s'
  end.

(** A pattern whose match on a truncated text is a match on the text. *)
Definition prefix_stable {G : Type} (m : text -> option (G * nat)) : Prop :=
  forall n s, m (firstn n s) <> None -> m s <> None.

(** The definition [\newcommand{\resume<name>}<opt>{<body>}], where [opt] is
    empty or a bracketed argument count. *)
Definition resume_definition (name opt body : text) : text :=
  str "\newcommand" ++ LBRACE :: (str "\resume" ++ name) ++ RBRACE :: opt
  ++ LBRACE :: body ++ [RBRACE].

Definition arg_count_group (opt : text) : Prop :=
  opt = []
  \/ exists args,
       opt = LBRACK :: args ++ [RBRACK]
       /\ balanced LBRACK RBRACK 0 args = true.

(** The directive the guard rewriter looks for, with or without the file
    extension. *)
Definition INPUT_GLYPH : text := str "\input{glyphtounicode".

Definition glyph_directive (tex : bool) : text :=
  INPUT_GLYPH ++ (if tex then str ".tex" else []) ++ [RBRACE].

(** The invocation [\resumeSubheading{a}{b}{c}{d}]. *)
Definition resume_subheading (a b c d : text) : text :=
  str "\resumeSubheading{" ++ a ++ SEP ++ b ++ SEP ++ c ++ SEP ++ d
  ++ [RBRACE].

(** A continuation of a pattern that can only succeed on a closing brace. *)
Definition needs_rbrace {R : Type} (k : text -> option R) : Prop :=
  forall c s, is_char RBRACE c = false -> k (c :: s) = None.

(** A macro argument that may span several lines: no backslash, no closing
    brace, and the line feed as its only line boundary. *)
Definition multiline_arg (x : text) : bool :=
  forallb (fun c => negb (is_char BACKSLASH c) && negb (is_char RBRACE c)
                    && (negb (is_linebreak c) || is_char LF c)) x.

(** A text whose only line boundary is the line feed. *)
Definition only_lf (x : text) : bool :=
  forallb (fun c => negb (is_linebreak c) || is_char LF c) x.

(** *** Hotspot scan, in the words of the specification

    The part of a line before its first percent sign, whether or not a
    backslash stands before that sign. *)
Fixpoint before_percent (s : text) : text :=
  match s with
  | [] => []
  | c :: s' => if is_char PERCENT c then [] else c :: before_percent s'
  end.

(** The characters left when every line is cut by [cut], in text order, each
    with its line number, its column and its line. *)
Fixpoint visible_events (cut : text -> text) (line_no : nat)
    (lines : list text) : list (brace_record * ascii) :=
  match lines with
  | [] => []
  | raw :: rest =>
      line_events line_no raw 0 (cut raw)
      ++ visible_events cut (S line_no) rest
  end.

(** A record, one line further down. *)
Definition next_line (r : brace_record) : brace_record :=
  let '(line, col, raw) := r in (S line, col, raw).

(** *** Environment balancer: unmatched ends

    A scan state with further unmatched ends recorded before its own. *)
Definition with_earlier_ends (um : list (text * nat)) (st : scan_state)
  : scan_state :=
  {| stack := stack st; unmatched_end := um ++ unmatched_end st |}.

(** *** List-depth counter, line by line

    How many of the environment names are [itemize]. *)
Definition count_itemize (envs : list text) : Z :=
  Z.of_nat (length (filter (fun env => text_eqb env ITEMIZE) envs)).

(** The counter after a line, from the counter [d] before it.  On the line
    with its list macros replaced: one up for every begin of itemize; then
    one down for every end of itemize, but not below zero; then one, if that
    is zero and the line holds an item invocation, for the begin that is
    synthesized. *)
Definition depth_after_line (d : Z) (raw : text) : Z :=
  let ln := replace_list_macros raw in
  let up := (d + count_itemize (finditer RE_ENV_BEGIN ln))%Z in
  let down :=
    (up - Z.min (count_itemize (finditer RE_ENV_END ln)) (Z.max 0 up))%Z in
  if (down =? 0)%Z
     && (found RE_RESUME_ITEM ln || found RE_RESUME_SUBITEM ln)
  then 1%Z
  else down.

(** The stack when the scan reaches an end on the line [l] that comes after
    the lines [pre]: the begins of the line and the ends [es1] that stand
    before this end on the line have been dealt with. *)
Definition stack_before_end (pre : list text) (l : text) (es1 : list text)
  : list (text * nat) :=
  let i := S (length pre) in
  stack (fold_left (env_end i) es1
           (fold_left (env_begin i) (finditer RE_ENV_BEGIN l)
              (scan_lines 1 scan_init pre))).

(** * Properties *)

(** ** The stages on sample texts *)

Example splitlines_sample :
  splitlines (str "a" ++ [LF] ++ str "b" ++ [CR; LF] ++ [LF] ++ str "c" ++ [CR])
  = [str "a"; str "b"; []; str "c"].
Proof. reflexivity. Qed.

Example guard_sample :
  guard_glyphtounicode
    (str "a" ++ [LF] ++ str "  \input{glyphtounicode.tex} " ++ [LF]
     ++ str "b \input{glyphtounicode}" ++ [LF])
  = str "a" ++ [LF] ++ GUARDED ++ [LF] ++ str "b \input{glyphtounicode}"
    ++ [LF].
Proof. reflexivity. Qed.

Example strip_nested_body_sample :
  strip_macro_definitions
    (str "a\newcommand{\resumeItem}[1]{ \item{#1 {x}} }b")
  = Some (str "a% (stripped macro definition)" ++ [LF] ++ str "b").
Proof. reflexivity. Qed.

Example strip_keeps_ordinary_sample :
  strip_macro_definitions (str "\newcommand{\foo}[1]{#1} \definitely")
  = Some (str "\newcommand{\foo}[1]{#1} \definitely").
Proof. reflexivity. Qed.

(** A list opened by a macro on one line keeps later items from opening
    another one; once it is closed, the next item opens a new list. *)
Example depth_tracking_sample :
  replace_invocations
    (str "\resumeItemListStart" ++ [LF] ++ str "\resumeItem{a}" ++ [LF]
     ++ str "\resumeItemListEnd" ++ [LF] ++ str "\resumeSubItem{b}")
  = str "\begin{itemize}" ++ [LF] ++ str "\item a" ++ [LF]
    ++ str "\end{itemize}" ++ [LF] ++ str "\begin{itemize}" ++ [LF]
    ++ str "\item b" ++ [LF].
Proof. reflexivity. Qed.

Example subheading_sample :
  replace_invocations
    (str "\resumeSubheading{Org}{2020" ++ [LF] ++ str "-- 2021}{Role}{City}")
  = str "\item \textbf{Org}\hfill\textit{2020" ++ [LF]
    ++ str "-- 2021}\\\textit{Role}\hfill\textit{City}" ++ [LF].
Proof. reflexivity. Qed.

Example balance_envs_sample :
  balance_envs
    (str "\begin{itemize}" ++ [LF] ++ str "\begin{center}\end{itemize}"
     ++ [LF] ++ str " \end{document} " ++ [LF] ++ str "x")
  = (str "\begin{itemize}" ++ [LF] ++ str "\begin{center}\end{itemize}"
     ++ [LF] ++ str "\end{center}" ++ [LF] ++ str "\end{itemize}" ++ [LF]
     ++ str " \end{document} " ++ [LF] ++ str "x" ++ [LF],
     {| inserted_missing_ends := 2; unmatched_end_count := 1 |}).
Proof. reflexivity. Qed.

(** ** Characters, lines and joins *)

Arguments is_char : simpl never.
Arguments is_linebreak : simpl never.
Arguments isspace : simpl never.
Arguments isword : simpl never.
Arguments isalpha : simpl never.
Arguments is_env_char : simpl never.
Arguments is_ascii_letter : simpl never.

Lemma is_char_eq (a c : ascii) : is_char a c = true <-> a = c.
Proof. unfold is_char. apply Ascii.eqb_eq. Qed.

Lemma is_char_refl (a : ascii) : is_char a a = true.
Proof. apply is_char_eq. reflexivity. Qed.

Lemma is_char_neq (a c : ascii) : is_char a c = false <-> a <> c.
Proof. unfold is_char. apply Ascii.eqb_neq. Qed.

Lemma text_eqb_eq (a b : text) : text_eqb a b = true <-> a = b.
Proof.
  revert b. induction a as [|x a IH]; intros [|y b]; simpl; split;
    try congruence; try reflexivity.
  - intros H. apply andb_true_iff in H. destruct H as [H1 H2].
    apply is_char_eq in H1. apply IH in H2. congruence.
  - intros H. injection H as -> ->. rewrite is_char_refl. simpl.
    apply IH. reflexivity.
Qed.

Lemma text_eqb_refl (a : text) : text_eqb a a = true.
Proof. apply text_eqb_eq. reflexivity. Qed.

Lemma join_lines_cons (l : text) (ls : list text) :
  ls <> [] -> join_lines (l :: ls) = l ++ LF :: join_lines ls.
Proof.
  intros H. unfold join_lines. destruct ls as [|l2 ls]; [congruence|].
  change (join_nl (l :: l2 :: ls)) with (l ++ LF :: join_nl (l2 :: ls)).
  rewrite <- app_assoc. reflexivity.
Qed.

Lemma join_lines_single (l : text) : join_lines [l] = l ++ [LF].
Proof. reflexivity. Qed.

Lemma join_lines_ends (ls : list text) : ends_with_newline (join_lines ls).
Proof. exists (join_nl ls). reflexivity. Qed.

Lemma splitlines_line (l rest : text) :
  no_break l = true ->
  splitlines (l ++ LF :: rest) = l :: splitlines rest.
Proof.
  unfold splitlines. induction l as [|c l IH]; intros H.
  - reflexivity.
  - simpl in H. apply andb_true_iff in H. destruct H as [Hc Hl].
    apply negb_true_iff in Hc.
    simpl. rewrite andb_false_r, Hc, (IH Hl). reflexivity.
Qed.

Lemma splitlines_join (ls : list text) :
  ls <> [] -> Forall (fun l => no_break l = true) ls ->
  splitlines (join_lines ls) = ls.
Proof.
  induction ls as [|l ls IH]; intros Hne Hall; [congruence|].
  inversion Hall as [|? ? Hl Hls]; subst.
  destruct ls as [|l2 ls].
  - rewrite join_lines_single, splitlines_line by assumption. reflexivity.
  - rewrite join_lines_cons by discriminate.
    rewrite splitlines_line by assumption.
    rewrite IH; [reflexivity | discriminate | assumption].
Qed.

Lemma splitlines_from_no_break (b : bool) (s : text) :
  Forall (fun l => no_break l = true) (splitlines_from b s).
Proof.
  revert b. induction s as [|c s IH]; intros b; simpl; [constructor|].
  destruct (is_char LF c && b); [apply IH|].
  destruct (is_linebreak c) eqn:Hc.
  - constructor; [reflexivity | apply IH].
  - specialize (IH false). destruct (splitlines_from false s) as [|l ls].
    + constructor; [|constructor]. simpl. rewrite Hc. reflexivity.
    + inversion IH; subst. constructor; [|assumption].
      simpl. rewrite Hc. simpl. assumption.
Qed.

Lemma splitlines_no_break (s : text) :
  Forall (fun l => no_break l = true) (splitlines s).
Proof. apply splitlines_from_no_break. Qed.

(** ** The scanning functions *)

Lemma strip_prefix_spec (lit s r : text) :
  strip_prefix lit s = Some r <-> s = lit ++ r.
Proof.
  revert s. induction lit as [|a lit IH]; intros s; simpl.
  - split; congruence.
  - destruct s as [|c s]; [split; discriminate|].
    destruct (is_char a c) eqn:E.
    + apply is_char_eq in E. subst c. rewrite IH. split; congruence.
    + apply is_char_neq in E. split; [discriminate | congruence].
Qed.

Lemma strip_prefix_app (lit r : text) : strip_prefix lit (lit ++ r) = Some r.
Proof. apply strip_prefix_spec. reflexivity. Qed.

Lemma lazy_until_spec {R : Type} (k : text -> option R) (s a : text) (r : R) :
  lazy_until k s = Some (a, r) -> exists s1, s = a ++ s1 /\ k s1 = Some r.
Proof.
  revert a. induction s as [|c s IH]; intros a; simpl.
  - destruct (k []) eqn:E; [|discriminate].
    intros H. injection H as <- <-. exists []. auto.
  - destruct (k (c :: s)) eqn:E.
    + intros H. injection H as <- <-. exists (c :: s). auto.
    + destruct (lazy_until k s) as [[a' r']|] eqn:E'; [|discriminate].
      intros H. injection H as <- <-.
      destruct (IH _ eq_refl) as [s1 [-> Hk]]. exists s1. auto.
Qed.

Lemma span_spec (p : ascii -> bool) (s a b : text) :
  span p s = (a, b) ->
  s = a ++ b /\ forallb p a = true
  /\ match b with [] => True | c :: _ => p c = false end.
Proof.
  revert a b. induction s as [|c s IH]; intros a b; simpl.
  - intros H. injection H as <- <-. auto.
  - destruct (p c) eqn:E.
    + destruct (span p s) as [a' b'] eqn:E'. intros H. injection H as <- <-.
      destruct (IH _ _ eq_refl) as [-> [Ha Hb]]. simpl. rewrite E. auto.
    + intros H. injection H as <- <-. simpl. auto.
Qed.

Lemma span_all (p : ascii -> bool) (a b : text) :
  forallb p a = true ->
  match b with [] => True | c :: _ => p c = false end ->
  span p (a ++ b) = (a, b).
Proof.
  intros Ha Hb. induction a as [|c a IH]; simpl.
  - destruct b as [|c b]; [reflexivity|]. simpl. rewrite Hb. reflexivity.
  - simpl in Ha. apply andb_true_iff in Ha. destruct Ha as [Hc Ha].
    rewrite Hc, (IH Ha). reflexivity.
Qed.

Section ScanFacts.
Context {G St : Type} (m : text -> option (G * nat)).
Context (repl : G -> St -> St * text).

(** A state property kept by the replacement function is kept by the whole
    substitution. *)
Lemma sub_from_invariant (P : St -> Prop) :
  (forall g st, P st -> P (fst (repl g st))) ->
  forall s k st, P st -> P (fst (sub_from m repl k st s)).
Proof.
  intros Hrepl. induction s as [|c s IH]; intros k st Hst; simpl; [assumption|].
  destruct k as [|k]; [|apply IH; assumption].
  destruct (m (c :: s)) as [[g n]|].
  - specialize (Hrepl g st Hst). destruct (repl g st) as [st1 r].
    specialize (IH (pred n) st1 Hrepl).
    destruct (sub_from m repl (pred n) st1 s). assumption.
  - specialize (IH 0 st Hst). destruct (sub_from m repl 0 st s). assumption.
Qed.

Lemma finditer_no_match (s : text) :
  (forall pre suf, s = pre ++ suf -> suf <> [] -> m suf = None) ->
  finditer m s = [].
Proof.
  unfold finditer. induction s as [|c s IH]; intros H; simpl; [reflexivity|].
  rewrite (H [] (c :: s) eq_refl) by discriminate.
  apply IH. intros pre suf -> Hne.
  apply (H (c :: pre) suf); [reflexivity | assumption].
Qed.

(** Skipping the characters of a match. *)
Lemma sub_from_skip (a s : text) (st : St) :
  sub_from m repl (length a) st (a ++ s) = sub_from m repl 0 st s.
Proof.
  induction a as [|c a IH]; simpl; [|exact IH].
  destruct s; reflexivity.
Qed.

(** A substitution whose matches never reach the last character keeps a
    final line feed. *)
Lemma sub_from_keeps_newline :
  (forall s g n, m (s ++ [LF]) = Some (g, n) -> 1 <= n <= length s) ->
  forall s k st, k <= length s ->
  ends_with_newline (snd (sub_from m repl k st (s ++ [LF]))).
Proof.
  intros Hm. induction s as [|c s IH]; intros k st Hk; simpl in *.
  - assert (k = 0) by lia. subst k.
    destruct (m [LF]) as [[g n]|] eqn:E.
    + apply (Hm []) in E. simpl in E. lia.
    + exists []. reflexivity.
  - destruct k as [|k]; [|apply IH; lia].
    destruct (m (c :: s ++ [LF])) as [[g n]|] eqn:E.
    + apply (Hm (c :: s)) in E. simpl in E.
      destruct (repl g st) as [st1 r].
      specialize (IH (pred n) st1 ltac:(lia)).
      destruct (sub_from m repl (pred n) st1 (s ++ [LF])) as [st2 out].
      destruct IH as [p Hp]. simpl in *. subst out.
      exists (r ++ p). rewrite app_assoc. reflexivity.
    + specialize (IH 0 st ltac:(lia)).
      destruct (sub_from m repl 0 st (s ++ [LF])) as [st1 out].
      destruct IH as [p Hp]. simpl in *. subst out.
      exists (c :: p). reflexivity.
Qed.
End ScanFacts.

Lemma strip_prefix_backslash (lit : text) (c : ascii) (s : text) :
  c <> BACKSLASH -> strip_prefix (BACKSLASH :: lit) (c :: s) = None.
Proof.
  intros H. simpl. apply not_eq_sym in H. apply is_char_neq in H.
  rewrite H. reflexivity.
Qed.

Lemma m_lit_backslash (lit : text) : starts_with_backslash (m_lit (BACKSLASH :: lit)).
Proof.
  intros c s H. unfold m_lit. rewrite strip_prefix_backslash by assumption.
  reflexivity.
Qed.

Lemma m_env_backslash (kw : text) : starts_with_backslash (m_env (BACKSLASH :: kw)).
Proof.
  intros c s H. unfold m_env. rewrite strip_prefix_backslash by assumption.
  reflexivity.
Qed.

Lemma m_item_backslash (kw : text) : starts_with_backslash (m_item (BACKSLASH :: kw)).
Proof.
  intros c s H. unfold m_item. rewrite strip_prefix_backslash by assumption.
  reflexivity.
Qed.

Lemma m_subheading_backslash : starts_with_backslash m_subheading.
Proof.
  intros c s H. unfold m_subheading.
  change (str "\resumeSubheading{") with (BACKSLASH :: str "resumeSubheading{").
  rewrite strip_prefix_backslash by assumption. reflexivity.
Qed.

(** ** Lists of lines *)

Lemma find_first_some {A : Type} (p : A -> bool) (l : list A) (i : nat) :
  find_first p l = Some i ->
  Forall (fun x => p x = false) (firstn i l)
  /\ exists x r, skipn i l = x :: r /\ p x = true.
Proof.
  revert i. induction l as [|x l IH]; intros i; simpl; [discriminate|].
  destruct (p x) eqn:E.
  - intros H. injection H as <-. simpl. split; [constructor|]. eauto.
  - destruct (find_first p l) as [j|]; [|discriminate].
    intros H. injection H as <-. destruct (IH j eq_refl) as [H1 H2].
    simpl. split; [constructor; assumption | assumption].
Qed.

Lemma find_first_none {A : Type} (p : A -> bool) (l : list A) :
  find_first p l = None -> Forall (fun x => p x = false) l.
Proof.
  induction l as [|x l IH]; simpl; [constructor|].
  destruct (p x) eqn:E; [discriminate|].
  destruct (find_first p l); [discriminate|].
  intros _. constructor; auto.
Qed.

Lemma end_doc_idx_split (lines : list text) :
  insertion_point lines (firstn (end_doc_idx lines) lines)
    (skipn (end_doc_idx lines) lines).
Proof.
  unfold insertion_point, end_doc_idx.
  split; [symmetry; apply firstn_skipn|].
  destruct (find_first is_end_document lines) as [i|] eqn:E.
  - destruct (find_first_some _ _ _ E) as [H1 H2]. split; [assumption|].
    right. assumption.
  - rewrite firstn_all, skipn_all. split; [|left; reflexivity].
    apply find_first_none. assumption.
Qed.

(** ** List-item guarantor *)

Lemma ensure_loop_spec (rest done : list text) (fuel : nat) :
  length rest < fuel ->
  ensure_loop fuel (done ++ rest) (length done) = Some (done ++ guarantee rest).
Proof.
  revert done fuel. induction rest as [|ln rest IH]; intros done fuel Hf.
  - destruct fuel as [|fuel]; [lia|]. simpl.
    rewrite app_nil_r.
    replace (nth_error done (length done)) with (@None text)
      by (symmetry; apply nth_error_None; lia).
    reflexivity.
  - destruct fuel as [|fuel]; [simpl in Hf; lia|]. simpl in Hf.
    cbn [ensure_loop].
    rewrite nth_error_app2, Nat.sub_diag by lia. cbn [nth_error].
    assert (Hskip : skipn (length done + 1) (done ++ ln :: rest) = rest).
    { rewrite skipn_app, skipn_all2 by lia.
      replace (length done + 1 - length done) with 1 by lia. reflexivity. }
    assert (Hnext : done ++ ln :: rest = (done ++ [ln]) ++ rest)
      by (rewrite <- app_assoc; reflexivity).
    assert (Hlen : length done + 1 = length (done ++ [ln]))
      by (rewrite length_app; reflexivity).
    cbn [guarantee].
    destruct (has_list_begin ln); cbn [andb].
    + rewrite Hskip. destruct (window_has_item rest); cbn [negb].
      * rewrite Hnext, Hlen, IH by lia. rewrite <- app_assoc. reflexivity.
      * unfold insert_at. rewrite Hskip.
        rewrite firstn_app, firstn_all2 by lia.
        replace (length done + 1 - length done) with 1 by lia.
        cbn [firstn].
        replace ((done ++ [ln]) ++ [ITEM] ++ rest)
          with ((done ++ [ln; ITEM]) ++ rest)
          by (rewrite <- !app_assoc; reflexivity).
        replace (length done + 1 + 1) with (length (done ++ [ln; ITEM]))
          by (rewrite length_app; simpl; lia).
        rewrite IH by lia. rewrite <- app_assoc. reflexivity.
    + rewrite Hnext, Hlen, IH by lia. rewrite <- app_assoc. reflexivity.
Qed.

Lemma ensure_list_items_total (t : text) :
  ensure_list_items t = Some (join_lines (guarantee (splitlines t))).
Proof.
  unfold ensure_list_items, ensure_list_items_fuel.
  pose proof (ensure_loop_spec (splitlines t) [] _ (Nat.lt_succ_diag_r _)) as H.
  cbn [app length] in H. rewrite H. reflexivity.
Qed.


(** ** Final newline *)

Lemma m_subheading_shape (s : text) (g : text * text * text * text) (n : nat) :
  m_subheading s = Some (g, n) ->
  exists mid rest, s = mid ++ RBRACE :: rest /\ n = length mid + 1.
Proof.
  unfold m_subheading. cbv zeta.
  destruct (strip_prefix (str "\resumeSubheading{") s) as [r|] eqn:E0;
    [|discriminate].
  apply strip_prefix_spec in E0.
  match goal with
  | |- context [lazy_until ?k r] =>
      destruct (lazy_until k r) as [[a [b [c [d rest]]]]|] eqn:E1;
      [|discriminate]
  end.
  intros H. injection H as <- <-.
  apply lazy_until_spec in E1. destruct E1 as [s1 [-> E1]].
  destruct (strip_prefix SEP s1) as [r1|] eqn:F1; [|discriminate].
  apply strip_prefix_spec in F1. subst s1.
  match type of E1 with
  | context [lazy_until ?k r1] =>
      destruct (lazy_until k r1) as [[b' [c' [d' rest']]]|] eqn:E2;
      [|discriminate]
  end.
  injection E1 as -> -> -> ->.
  apply lazy_until_spec in E2. destruct E2 as [s2 [-> E2]].
  destruct (strip_prefix SEP s2) as [r2|] eqn:F2; [|discriminate].
  apply strip_prefix_spec in F2. subst s2.
  match type of E2 with
  | context [lazy_until ?k r2] =>
      destruct (lazy_until k r2) as [[c' [d' rest']]|] eqn:E3;
      [|discriminate]
  end.
  injection E2 as -> -> ->.
  apply lazy_until_spec in E3. destruct E3 as [s3 [-> E3]].
  destruct (strip_prefix SEP s3) as [r3|] eqn:F3; [|discriminate].
  apply strip_prefix_spec in F3. subst s3.
  apply lazy_until_spec in E3. destruct E3 as [s4 [-> E3]].
  apply strip_prefix_spec in E3. subst s4. subst s.
  exists (str "\resumeSubheading{" ++ a ++ SEP ++ b ++ SEP ++ c ++ SEP ++ d),
    rest.
  split.
  - rewrite <- !app_assoc. reflexivity.
  - rewrite !length_app. cbn [length app]. lia.
Qed.

Lemma m_subheading_before_newline (s : text) (g : text * text * text * text)
    (n : nat) :
  m_subheading (s ++ [LF]) = Some (g, n) -> 1 <= n <= length s.
Proof.
  intros H. apply m_subheading_shape in H.
  destruct H as [mid [rest [Hs ->]]].
  destruct rest as [|c rest _] using rev_ind.
  - apply app_inj_tail in Hs. destruct Hs as [_ Hs]. discriminate.
  - change (mid ++ RBRACE :: rest ++ [c])
      with (mid ++ (RBRACE :: rest) ++ [c]) in Hs.
    rewrite app_assoc in Hs.
    apply app_inj_tail in Hs. destruct Hs as [-> _].
    rewrite length_app. simpl. lia.
Qed.

Lemma replace_invocations_ends (t : text) :
  ends_with_newline (replace_invocations t).
Proof.
  unfold replace_invocations, sub, sub_st, join_lines.
  apply sub_from_keeps_newline; [|lia].
  intros s g n. apply m_subheading_before_newline.
Qed.

(** C10. For every text, the outputs of the invocation rewriter, the
    environment balancer, the list-item guarantor and the brace auto-fix with
    a positive count end with a line feed; on the text [a], which no rule
    rewrites and which has no final line feed, each of them returns the text
    with a line feed appended. *)
Theorem C10_final_newline (t : text) (how_many : Z) :
  (0 < how_many)%Z ->
  ends_with_newline (replace_invocations t)
  /\ ends_with_newline (fst (balance_envs t))
  /\ (exists out, ensure_list_items t = Some out /\ ends_with_newline out)
  /\ ends_with_newline (auto_fix_braces t how_many)
  /\ replace_invocations (str "a") = str "a" ++ [LF]
  /\ fst (balance_envs (str "a")) = str "a" ++ [LF]
  /\ ensure_list_items (str "a") = Some (str "a" ++ [LF])
  /\ auto_fix_braces (str "a") 1 = str "a" ++ [LF] ++ [RBRACE] ++ [LF].
Proof.
  intros Hk. split; [apply replace_invocations_ends|].
  split; [apply join_lines_ends|].
  split.
  { exists (join_lines (guarantee (splitlines t))).
    split; [apply ensure_list_items_total | apply join_lines_ends]. }
  split.
  { unfold auto_fix_braces.
    destruct (how_many <=? 0)%Z eqn:E; [apply Z.leb_le in E; lia|].
    apply join_lines_ends. }
  repeat split; vm_compute; reflexivity.
Qed.

Lemma C10_final_newline_witness :
  (0 < 1)%Z
  /\ ends_with_newline (replace_invocations (str "\resumeItem{X}"))
  /\ ends_with_newline (auto_fix_braces (str "{") 1).
Proof.
  split; [reflexivity|].
  pose proof (C10_final_newline (str "\resumeItem{X}") 1 eq_refl) as H1.
  pose proof (C10_final_newline (str "{") 1 eq_refl) as H2.
  split; [apply H1 | apply H2].
Defined.

(** ** Environment balancer *)

Lemma balance_envs_text (t : text) :
  fst (balance_envs t)
  = join_lines
      (insert_at (end_doc_idx (splitlines t))
         (map closer (rev (open_env_stack t))) (splitlines t)).
Proof.
  unfold balance_envs, open_env_stack. cbn [fst].
  destruct (map closer (rev (stack (scan_lines 1 scan_init (splitlines t)))))
    as [|c cs]; [|reflexivity].
  unfold insert_at. cbn [app]. rewrite firstn_skipn. reflexivity.
Qed.


(** ** Brace auditor: unmatched opening braces *)

Lemma scan_braces_events (line_no : nat) (raw line : text) (col : nat)
    (stk : list brace_record) :
  scan_braces line_no raw col line stk
  = scan_events stk (line_events line_no raw col line).
Proof.
  revert col stk. induction line as [|ch line IH]; intros col stk; simpl.
  - reflexivity.
  - apply IH.
Qed.

Lemma scan_events_app (a b : list (brace_record * ascii))
    (stk : list brace_record) :
  scan_events stk (a ++ b) = scan_events (scan_events stk a) b.
Proof.
  revert stk. induction a as [|[p ch] a IH]; intros stk; simpl.
  - reflexivity.
  - apply IH.
Qed.

Lemma scan_brace_lines_events (lines : list text) (line_no : nat)
    (stk : list brace_record) :
  scan_brace_lines line_no lines stk
  = scan_events stk (text_events line_no lines).
Proof.
  revert line_no stk. induction lines as [|raw lines IH]; intros n stk; simpl.
  - reflexivity.
  - rewrite IH, scan_braces_events, scan_events_app. reflexivity.
Qed.

Lemma stays_open_deficit (evs : list (brace_record * ascii)) (d : nat) :
  stays_open d evs = (deficit evs <=? d).
Proof.
  revert d. induction evs as [|[p ch] evs IH]; intros d; simpl.
  - reflexivity.
  - destruct (is_char LBRACE ch).
    + rewrite IH. destruct (deficit evs) as [|k]; simpl; [reflexivity|].
      reflexivity.
    + destruct (is_char RBRACE ch).
      * destruct d as [|d]; [reflexivity|]. rewrite IH. reflexivity.
      * apply IH.
Qed.

Lemma firstn_removelast {A : Type} (l : list A) (k : nat) :
  k < length l -> firstn k (removelast l) = firstn k l.
Proof.
  revert k. induction l as [|x l IH]; intros k Hk; [simpl in Hk; lia|].
  destruct l as [|y l].
  - simpl in Hk. assert (k = 0) by lia. subst. reflexivity.
  - destruct k as [|k]; [reflexivity|].
    change (removelast (x :: y :: l)) with (x :: removelast (y :: l)).
    cbn [firstn]. f_equal. apply IH. simpl in *. lia.
Qed.

Lemma length_removelast {A : Type} (l : list A) :
  length (removelast l) = pred (length l).
Proof.
  induction l as [|x l IH]; [reflexivity|].
  destruct l as [|y l]; [reflexivity|].
  change (removelast (x :: y :: l)) with (x :: removelast (y :: l)).
  cbn [length] in *. rewrite IH. reflexivity.
Qed.

(** What the stack discipline leaves: the entries that the closing braces of
    [evs] do not reach, then the unmatched opening braces of [evs]. *)
Lemma scan_events_spec (evs : list (brace_record * ascii))
    (stk : list brace_record) :
  scan_events stk evs
  = firstn (length stk - deficit evs) stk ++ unmatched_opens evs.
Proof.
  revert stk. induction evs as [|[p ch] evs IH]; intros stk; simpl.
  - rewrite Nat.sub_0_r, firstn_all, app_nil_r. reflexivity.
  - destruct (is_char LBRACE ch) eqn:EL; cbn [andb].
    + rewrite IH, stays_open_deficit, length_app. cbn [length].
      destruct (deficit evs) as [|k]; cbn [Nat.leb pred].
      * rewrite !Nat.sub_0_r, !firstn_all2 by (rewrite ?length_app; simpl; lia).
        rewrite <- app_assoc. reflexivity.
      * replace (length stk + 1 - S k) with (length stk - k) by lia.
        rewrite firstn_app.
        replace (length stk - k - length stk) with 0 by lia.
        cbn [firstn]. rewrite app_nil_r. reflexivity.
    + destruct (is_char RBRACE ch) eqn:ER.
      * rewrite IH, length_removelast.
        destruct stk as [|x stk]; [reflexivity|].
        destruct (Nat.le_gt_cases (length (x :: stk)) (S (deficit evs)))
          as [Hle|Hgt].
        -- cbn [length pred] in *.
           replace (length stk - deficit evs) with 0 by lia.
           replace (S (length stk) - S (deficit evs)) with 0 by lia.
           reflexivity.
        -- rewrite firstn_removelast by (cbn [length pred] in *; lia).
           cbn [length pred]. reflexivity.
      * apply IH.
Qed.

(** The reading of [stays_open]: every prefix of what follows has at most
    [depth] more closing than opening braces. *)
Lemma stays_open_prefixes (evs : list (brace_record * ascii)) (d : nat) :
  stays_open d evs = true
  <-> forall n, ev_count RBRACE (firstn n evs)
                <= d + ev_count LBRACE (firstn n evs).
Proof.
  unfold ev_count. revert d.
  induction evs as [|[p ch] evs IH]; intros d; simpl.
  - split; [|reflexivity]. intros _ n. rewrite firstn_nil. simpl. lia.
  - destruct (is_char LBRACE ch) eqn:EL.
    + assert (ER : is_char RBRACE ch = false).
      { apply is_char_eq in EL. subst ch. reflexivity. }
      rewrite IH. split; intros H n.
      * destruct n as [|n]; simpl; [lia|]. rewrite EL, ER. simpl.
        specialize (H n). lia.
      * specialize (H (S n)). simpl in H. rewrite EL, ER in H. simpl in H. lia.
    + destruct (is_char RBRACE ch) eqn:ER.
      * destruct d as [|d].
        -- split; [discriminate|]. intros H. specialize (H 1).
           simpl in H. rewrite EL, ER in H. simpl in H. lia.
        -- rewrite IH. split; intros H n.
           ++ destruct n as [|n]; simpl; [lia|]. rewrite EL, ER. simpl.
              specialize (H n). lia.
           ++ specialize (H (S n)). simpl in H. rewrite EL, ER in H.
              simpl in H. lia.
      * rewrite IH. split; intros H n.
        -- destruct n as [|n]; simpl; [lia|]. rewrite EL, ER. apply H.
        -- specialize (H (S n)). simpl in H. rewrite EL, ER in H. apply H.
Qed.

Lemma before_percent_strip_comment (raw : text) :
  before_percent raw = strip_comment raw.
Proof.
  unfold strip_comment. induction raw as [|c raw IH]; [reflexivity|].
  cbn [before_percent span]. destruct (is_char PERCENT c); [reflexivity|].
  cbn [negb]. rewrite IH.
  destruct (span (fun c0 => negb (is_char PERCENT c0)) raw). reflexivity.
Qed.

Lemma visible_events_text_events (lines : list text) (line_no : nat) :
  visible_events before_percent line_no lines = text_events line_no lines.
Proof.
  revert line_no. induction lines as [|raw lines IH]; intros line_no;
    [reflexivity|].
  cbn [visible_events text_events].
  rewrite before_percent_strip_comment, IH. reflexivity.
Qed.

Lemma removelast_map {A B : Type} (f : A -> B) (l : list A) :
  removelast (map f l) = map f (removelast l).
Proof.
  induction l as [|x l IH]; [reflexivity|].
  destruct l as [|y l]; [reflexivity|].
  change (removelast (map f (x :: y :: l)))
    with (f x :: removelast (map f (y :: l))).
  rewrite IH. reflexivity.
Qed.

Lemma scan_braces_next_line (line_no : nat) (raw line : text) (col : nat)
    (stk : list brace_record) :
  scan_braces (S line_no) raw col line (map next_line stk)
  = map next_line (scan_braces line_no raw col line stk).
Proof.
  revert col stk. induction line as [|ch line IH]; intros col stk;
    [reflexivity|].
  cbn [scan_braces]. rewrite <- IH. f_equal.
  destruct (is_char LBRACE ch).
  - rewrite map_app. reflexivity.
  - destruct (is_char RBRACE ch); [apply removelast_map | reflexivity].
Qed.

Lemma scan_brace_lines_next_line (lines : list text) (line_no : nat)
    (stk : list brace_record) :
  scan_brace_lines (S line_no) lines (map next_line stk)
  = map next_line (scan_brace_lines line_no lines stk).
Proof.
  revert line_no stk. induction lines as [|raw lines IH]; intros line_no stk;
    [reflexivity|].
  cbn [scan_brace_lines]. rewrite scan_braces_next_line. apply IH.
Qed.

Lemma closing_braces_line (n : nat) :
  no_break (repeat RBRACE n) = true
  /\ strip_comment (repeat RBRACE n) = repeat RBRACE n.
Proof.
  unfold strip_comment. induction n as [|n [IH1 IH2]]; [split; reflexivity|].
  split.
  - cbn [repeat]. unfold no_break in *. cbn [forallb]. rewrite IH1.
    reflexivity.
  - cbn [repeat span]. change (negb (is_char PERCENT RBRACE)) with true.
    cbv beta iota.
    destruct (span (fun c => negb (is_char PERCENT c)) (repeat RBRACE n))
      as [a b].
    cbn [fst] in *. rewrite IH2. reflexivity.
Qed.

Lemma scan_braces_stray (line_no : nat) (raw : text) (n col : nat) :
  scan_braces line_no raw col (repeat RBRACE n) [] = [].
Proof.
  revert col. induction n as [|n IH]; intros col; [reflexivity|].
  cbn [repeat scan_braces].
  change (is_char LBRACE RBRACE) with false.
  change (is_char RBRACE RBRACE) with true.
  cbv beta iota. cbn [removelast]. apply IH.
Qed.

(** C6, as amended. For every text, the hotspot scan returns, oldest first,
    the records of exactly the opening braces that no later closing brace
    matches, where of each line only the part before its first percent sign
    is read, escaped or not.  Closing braces met with an empty stack produce
    no record and no failure: a first line made of any number of them is
    passed over, the result being that of the rest of the text, one line
    further down.  For the one-line text [a{b{c}] the result is the single
    record of line 1, column 2. *)
Theorem C6_find_unmatched_open_braces (t : text) (n : nat) :
  find_unmatched_open_braces t
  = unmatched_opens (visible_events before_percent 1 (splitlines t))
  /\ find_unmatched_open_braces (repeat RBRACE n ++ LF :: t)
     = map next_line (find_unmatched_open_braces t)
  /\ find_unmatched_open_braces (str "a{b{c}") = [(1, 2, str "a{b{c}")].
Proof.
  split; [|split; [|reflexivity]].
  - unfold find_unmatched_open_braces.
    rewrite scan_brace_lines_events, scan_events_spec.
    rewrite visible_events_text_events. reflexivity.
  - destruct (closing_braces_line n) as [Hb Hs].
    unfold find_unmatched_open_braces.
    rewrite splitlines_line by assumption.
    cbn [scan_brace_lines]. rewrite Hs, scan_braces_stray.
    apply (scan_brace_lines_next_line (splitlines t) 1 []).
Qed.

(** The claim as stated fails where a percent sign is escaped: in
    [40\% of {x] the opening brace at column 9 stands before any unescaped
    percent sign and is never closed, so it is an unmatched opening brace
    outside comment text; the program cuts the line at the escaped percent
    sign and returns no record. *)
Lemma C6_counterexample :
  unmatched_opens
    (visible_events (before_unescaped_percent false) 1
       (splitlines (str "40\% of {x")))
  = [(1, 9, str "40\% of {x")]
  /\ find_unmatched_open_braces (str "40\% of {x") = [].
Proof. split; reflexivity. Qed.

(** ** Brace auditor: imbalance and auto-fix *)

Lemma count_app (ch : ascii) (a b : text) :
  count ch (a ++ b) = count ch a + count ch b.
Proof. unfold count. rewrite filter_app, length_app. reflexivity. Qed.

Lemma excess_of_lines_cons (raw : text) (lines : list text) :
  excess_of_lines (raw :: lines)
  = (Z.of_nat (count LBRACE (strip_comment raw))
     - Z.of_nat (count RBRACE (strip_comment raw))
     + excess_of_lines lines)%Z.
Proof. unfold excess_of_lines. simpl. rewrite !count_app. lia. Qed.

Lemma excess_of_lines_app (a b : list text) :
  excess_of_lines (a ++ b) = (excess_of_lines a + excess_of_lines b)%Z.
Proof.
  induction a as [|raw a IH]; [unfold excess_of_lines; simpl; lia|].
  cbn [app]. rewrite !excess_of_lines_cons, IH. lia.
Qed.

Lemma excess_of_closers (n : nat) :
  excess_of_lines (repeat [RBRACE] n) = (- Z.of_nat n)%Z.
Proof.
  induction n as [|n IH]; [reflexivity|].
  cbn [repeat]. rewrite excess_of_lines_cons, IH.
  change (strip_comment [RBRACE]) with [RBRACE].
  change (count LBRACE [RBRACE]) with 0. change (count RBRACE [RBRACE]) with 1.
  lia.
Qed.

Lemma rough_fold (lines : list text) (a : Z) :
  fold_left
    (fun total raw =>
       let s := strip_comment raw in
       (total + Z.of_nat (count LBRACE s) - Z.of_nat (count RBRACE s))%Z)
    lines a
  = (a + excess_of_lines lines)%Z.
Proof.
  revert a. induction lines as [|raw lines IH]; intros a.
  - unfold excess_of_lines. simpl. lia.
  - cbn [fold_left]. rewrite IH, excess_of_lines_cons. cbv zeta. lia.
Qed.

Lemma rough_brace_imbalance_excess (t : text) :
  rough_brace_imbalance t = brace_excess t.
Proof. unfold rough_brace_imbalance. rewrite rough_fold. reflexivity. Qed.

Lemma Forall_firstn {A : Type} (P : A -> Prop) (n : nat) (l : list A) :
  Forall P l -> Forall P (firstn n l).
Proof.
  intros H. rewrite <- (firstn_skipn n l) in H.
  apply Forall_app in H. apply H.
Qed.

Lemma Forall_skipn {A : Type} (P : A -> Prop) (n : nat) (l : list A) :
  Forall P l -> Forall P (skipn n l).
Proof.
  intros H. rewrite <- (firstn_skipn n l) in H.
  apply Forall_app in H. apply H.
Qed.

Lemma insert_at_no_break (idx : nat) (ins lines : list text) :
  Forall (fun l => no_break l = true) ins ->
  Forall (fun l => no_break l = true) lines ->
  Forall (fun l => no_break l = true) (insert_at idx ins lines).
Proof.
  intros Hi Hl. unfold insert_at. apply Forall_app. split.
  - apply Forall_firstn. assumption.
  - apply Forall_app. split; [assumption | apply Forall_skipn; assumption].
Qed.

Lemma auto_fix_braces_imbalance (t : text) (k : Z) :
  (0 < k)%Z ->
  rough_brace_imbalance (auto_fix_braces t k)
  = (rough_brace_imbalance t - k)%Z.
Proof.
  intros Hk. unfold auto_fix_braces.
  destruct (k <=? 0)%Z eqn:E; [apply Z.leb_le in E; lia|].
  unfold rough_brace_imbalance at 1.
  rewrite splitlines_join.
  - rewrite rough_fold. unfold insert_at.
    rewrite !excess_of_lines_app, excess_of_closers, Z2Nat.id by lia.
    rewrite rough_brace_imbalance_excess.
    change (brace_excess t) with (excess_of_lines (splitlines t)).
    pose proof (excess_of_lines_app
                  (firstn (end_doc_idx (splitlines t)) (splitlines t))
                  (skipn (end_doc_idx (splitlines t)) (splitlines t))) as H.
    rewrite firstn_skipn in H. lia.
  - unfold insert_at. destruct (Z.to_nat k) as [|n] eqn:En; [lia|].
    cbn [repeat]. intros H. apply app_eq_nil in H. destruct H as [_ H].
    discriminate.
  - apply insert_at_no_break; [|apply splitlines_no_break].
    apply Forall_forall. intros l Hl. apply repeat_spec in Hl. subst l.
    reflexivity.
Qed.

(** C4, as amended. For every text whose visible part (the characters before
    the first percent sign of each line, escaped or not) has exactly k more
    opening than closing braces, with k not negative: the rough imbalance is
    k; the auto-fix with k leaves a balanced text unchanged and otherwise
    inserts exactly k lines made of a closing brace just before the first
    end-of-document line, or after the last line when there is none; and the
    rough imbalance of its result is 0. *)
Theorem C4_brace_auditor (t : text) (k : Z) :
  brace_excess t = k ->
  (0 <= k)%Z ->
  rough_brace_imbalance t = k
  /\ (exists before after,
        insertion_point (splitlines t) before after
        /\ auto_fix_braces t k
           = if (k =? 0)%Z then t
             else join_lines (before ++ repeat [RBRACE] (Z.to_nat k) ++ after))
  /\ rough_brace_imbalance (auto_fix_braces t k) = 0%Z.
Proof.
  intros Hex Hk.
  assert (Hr : rough_brace_imbalance t = k)
    by (rewrite rough_brace_imbalance_excess; assumption).
  split; [assumption|]. split.
  - exists (firstn (end_doc_idx (splitlines t)) (splitlines t)),
      (skipn (end_doc_idx (splitlines t)) (splitlines t)).
    split; [apply end_doc_idx_split|].
    unfold auto_fix_braces. destruct (k =? 0)%Z eqn:E0.
    + apply Z.eqb_eq in E0. rewrite E0. reflexivity.
    + apply Z.eqb_neq in E0.
      destruct (k <=? 0)%Z eqn:E; [apply Z.leb_le in E; lia|]. reflexivity.
  - destruct (Z.eq_dec k 0) as [E0|Hne].
    + rewrite E0 in *. unfold auto_fix_braces. simpl. assumption.
    + rewrite auto_fix_braces_imbalance by lia. lia.
Qed.

Lemma C4_brace_auditor_witness :
  brace_excess (str "a{b" ++ [LF] ++ str "\end{document}") = 1%Z
  /\ (0 <= 1)%Z
  /\ rough_brace_imbalance (str "a{b" ++ [LF] ++ str "\end{document}") = 1%Z
  /\ rough_brace_imbalance
       (auto_fix_braces (str "a{b" ++ [LF] ++ str "\end{document}") 1) = 0%Z.
Proof.
  split; [reflexivity|]. split; [discriminate|].
  pose proof
    (C4_brace_auditor (str "a{b" ++ [LF] ++ str "\end{document}") 1 eq_refl
       ltac:(discriminate)) as [H1 [_ H2]].
  split; assumption.
Defined.

(** The claim as stated fails: in [\%{] the percent sign is escaped, so that
    the text has one more opening than closing brace before its first
    unescaped percent sign; the program cuts the line at the escaped percent
    sign, finds no imbalance, and after an auto-fix with 1 finds -1. *)
Lemma C4_counterexample :
  brace_excess_unescaped (str "\%{") = 1%Z
  /\ rough_brace_imbalance (str "\%{") <> 1%Z
  /\ rough_brace_imbalance (auto_fix_braces (str "\%{") 1) <> 0%Z.
Proof. repeat split; vm_compute; discriminate. Qed.

(** ** Invocation rewriter: the list-depth counter *)

Lemma depth_init_ok : depth_ok depth_init.
Proof. repeat split; simpl; [lia | constructor]. Qed.

Lemma set_depth_ok (d : Z) (st : depth_state) :
  (0 <= d)%Z -> depth_ok st -> depth_ok (set_depth d st).
Proof.
  intros Hd [_ [Hh _]]. repeat split; simpl; [assumption|].
  constructor; assumption.
Qed.

Lemma count_begin_ok (st : depth_state) (env : text) :
  depth_ok st -> depth_ok (count_begin st env).
Proof.
  intros H. unfold count_begin. destruct (text_eqb env ITEMIZE); [|assumption].
  apply set_depth_ok; [|assumption]. destruct H as [H _]. lia.
Qed.

Lemma count_end_ok (st : depth_state) (env : text) :
  depth_ok st -> depth_ok (count_end st env).
Proof.
  intros H. unfold count_end.
  destruct (text_eqb env ITEMIZE && (0 <? itemize_depth st)%Z) eqn:E;
    [|assumption].
  apply andb_true_iff in E. destruct E as [_ E]. apply Z.ltb_lt in E.
  apply set_depth_ok; [lia | assumption].
Qed.

Lemma _repl_item_ok (x : text) (st : depth_state) :
  depth_ok st -> depth_ok (fst (_repl_item x st)).
Proof.
  intros H. unfold _repl_item. destruct (itemize_depth st =? 0)%Z eqn:E;
    [|assumption].
  apply set_depth_ok; [|assumption]. destruct H as [H _]. simpl. lia.
Qed.

Lemma fold_left_ok {A : Type} (f : depth_state -> A -> depth_state)
    (l : list A) (st : depth_state) :
  (forall st x, depth_ok st -> depth_ok (f st x)) ->
  depth_ok st -> depth_ok (fold_left f l st).
Proof.
  intros Hf. revert st. induction l as [|x l IH]; intros st H; simpl; auto.
Qed.

Lemma rewrite_line_ok (st : depth_state) (raw : text) :
  depth_ok st -> depth_ok (fst (rewrite_line st raw)).
Proof.
  intros H. unfold rewrite_line, sub_st.
  match goal with
  | |- context [sub_from RE_RESUME_ITEM _repl_item 0 ?s ?l] =>
      assert (H1 : depth_ok (fst (sub_from RE_RESUME_ITEM _repl_item 0 s l)));
      [|destruct (sub_from RE_RESUME_ITEM _repl_item 0 s l) as [st1 ln1]]
  end.
  - apply sub_from_invariant; [intros; apply _repl_item_ok; assumption|].
    apply fold_left_ok; [apply count_end_ok|].
    apply fold_left_ok; [apply count_begin_ok | assumption].
  - apply sub_from_invariant; [intros; apply _repl_item_ok|]; assumption.
Qed.

Lemma rewrite_lines_ok (lines : list text) (st : depth_state) :
  depth_ok st -> depth_ok (fst (rewrite_lines st lines)).
Proof.
  revert st. induction lines as [|raw lines IH]; intros st H; simpl.
  - assumption.
  - pose proof (rewrite_line_ok st raw H) as H1.
    destruct (rewrite_line st raw) as [st1 ln].
    specialize (IH st1 H1). destruct (rewrite_lines st1 lines). assumption.
Qed.

(** The substitution calls its replacement function on the matches that
    [finditer] lists, in their order. *)
Lemma sub_from_calls {G St : Type} (m : text -> option (G * nat))
    (repl : G -> St -> St * text) (s : text) (k : nat) (st : St) :
  fst (sub_from m repl k st s)
  = fold_left (fun st0 g => fst (repl g st0)) (finditer_from m k s) st.
Proof.
  revert k st. induction s as [|c s IH]; intros k st; [reflexivity|].
  cbn [sub_from finditer_from]. destruct k as [|k]; [|apply IH].
  destruct (m (c :: s)) as [[g n]|].
  - cbn [fold_left]. destruct (repl g st) as [st1 r]. cbn [fst].
    specialize (IH (pred n) st1).
    destruct (sub_from m repl (pred n) st1 s). exact IH.
  - specialize (IH 0 st). destruct (sub_from m repl 0 st s). exact IH.
Qed.

Lemma sub_from_none {G St : Type} (m : text -> option (G * nat))
    (repl : G -> St -> St * text) (s : text) (k : nat) (st : St) :
  finditer_from m k s = [] -> snd (sub_from m repl k st s) = skipn k s.
Proof.
  revert k st. induction s as [|c s IH]; intros k st H;
    [destruct k; reflexivity|].
  cbn [sub_from finditer_from skipn] in *.
  destruct k as [|k]; [|apply IH; assumption].
  destruct (m (c :: s)) as [[g n]|]; [discriminate|].
  specialize (IH 0 st H). destruct (sub_from m repl 0 st s).
  cbn [snd skipn] in *. rewrite IH. reflexivity.
Qed.

Lemma finditer_nil_found {G : Type} (m : text -> option (G * nat)) (s : text) :
  found m s = match finditer m s with [] => false | _ :: _ => true end.
Proof.
  unfold found, finditer. induction s as [|c s IH]; [reflexivity|].
  cbn [search finditer_from]. destruct (m (c :: s)) as [[g n]|];
    [reflexivity|].
  rewrite <- IH. destruct (search m s) as [[[p n] g]|]; reflexivity.
Qed.

Lemma fold_count_begin (envs : list text) (st : depth_state) :
  itemize_depth (fold_left count_begin envs st)
  = (itemize_depth st + count_itemize envs)%Z.
Proof.
  unfold count_itemize. revert st.
  induction envs as [|env envs IH]; intros st; cbn [fold_left filter].
  - cbn [length]. lia.
  - rewrite IH. unfold count_begin.
    destruct (text_eqb env ITEMIZE); cbn [itemize_depth set_depth length];
      lia.
Qed.

Lemma fold_count_end (envs : list text) (st : depth_state) :
  itemize_depth (fold_left count_end envs st)
  = (itemize_depth st
     - Z.min (count_itemize envs) (Z.max 0 (itemize_depth st)))%Z.
Proof.
  unfold count_itemize. revert st.
  induction envs as [|env envs IH]; intros st; cbn [fold_left filter].
  - cbn [length]. lia.
  - rewrite IH. unfold count_end.
    destruct (text_eqb env ITEMIZE); cbn [andb].
    + destruct (0 <? itemize_depth st)%Z eqn:E;
        cbn [itemize_depth set_depth length];
        [apply Z.ltb_lt in E | apply Z.ltb_ge in E]; lia.
    + lia.
Qed.

Lemma fold_repl_item (gs : list text) (st : depth_state) :
  itemize_depth (fold_left (fun st0 g => fst (_repl_item g st0)) gs st)
  = match gs with
    | [] => itemize_depth st
    | _ :: _ => if (itemize_depth st =? 0)%Z then 1%Z else itemize_depth st
    end.
Proof.
  revert st. induction gs as [|g gs IH]; intros st; [reflexivity|].
  cbn [fold_left]. rewrite IH. unfold _repl_item.
  destruct (itemize_depth st =? 0)%Z eqn:E; cbn [fst itemize_depth set_depth].
  - apply Z.eqb_eq in E. rewrite E. destruct gs; reflexivity.
  - rewrite E. destruct gs; reflexivity.
Qed.

(** The counter after a line is the one the line-by-line account gives. *)
Lemma rewrite_line_depth (st : depth_state) (raw : text) :
  itemize_depth (fst (rewrite_line st raw))
  = depth_after_line (itemize_depth st) raw.
Proof.
  unfold rewrite_line, depth_after_line, sub_st.
  set (ln := replace_list_macros raw).
  set (st2 := fold_left count_end (finditer RE_ENV_END ln)
                (fold_left count_begin (finditer RE_ENV_BEGIN ln) st)).
  assert (H2 : itemize_depth st2
               = (itemize_depth st + count_itemize (finditer RE_ENV_BEGIN ln)
                  - Z.min (count_itemize (finditer RE_ENV_END ln))
                      (Z.max 0
                         (itemize_depth st
                          + count_itemize (finditer RE_ENV_BEGIN ln))))%Z).
  { unfold st2. rewrite fold_count_end, fold_count_begin. reflexivity. }
  cbv zeta. rewrite <- H2. clear H2.
  pose proof (sub_from_calls RE_RESUME_ITEM _repl_item ln 0 st2) as H3.
  pose proof (sub_from_none RE_RESUME_ITEM _repl_item ln 0 st2) as Hn.
  destruct (sub_from RE_RESUME_ITEM _repl_item 0 st2 ln) as [st3 ln1].
  cbn [fst snd skipn] in H3, Hn.
  rewrite sub_from_calls, fold_repl_item.
  rewrite H3, fold_repl_item.
  rewrite !finditer_nil_found. unfold finditer in *.
  destruct (finditer_from RE_RESUME_ITEM 0 ln) as [|g gs].
  - rewrite (Hn eq_refl). cbn [orb].
    destruct (finditer_from RE_RESUME_SUBITEM 0 ln);
      [rewrite andb_false_r; reflexivity|].
    rewrite andb_true_r. reflexivity.
  - cbn [orb]. rewrite andb_true_r.
    destruct (itemize_depth st2 =? 0)%Z eqn:E.
    + destruct (finditer_from RE_RESUME_SUBITEM 0 ln1); reflexivity.
    + rewrite E. destruct (finditer_from RE_RESUME_SUBITEM 0 ln1); reflexivity.
Qed.

Lemma rewrite_lines_depth (lines : list text) (st : depth_state) :
  itemize_depth (fst (rewrite_lines st lines))
  = fold_left depth_after_line lines (itemize_depth st).
Proof.
  revert st. induction lines as [|raw lines IH]; intros st; [reflexivity|].
  cbn [rewrite_lines fold_left]. rewrite <- rewrite_line_depth.
  destruct (rewrite_line st raw) as [st1 ln]. cbn [fst].
  rewrite <- IH. destruct (rewrite_lines st1 lines). reflexivity.
Qed.

(** C7, as amended. On every text the list-depth counter starts at zero and
    is never negative: neither its final value nor any value assigned to it
    during the run (the log holds them all, the counter being the last one
    logged).  Over the whole run it follows the line-by-line account: on
    each line, its list macros replaced, the counter goes one up for every
    begin of itemize, then one down for every end of itemize but not below
    zero, and then to one if it is zero and the line holds an item
    invocation, whose replacement synthesizes a begin.  Itemize is the only
    list kind counted. *)
Theorem C7_itemize_depth_never_negative (t : text) :
  itemize_depth depth_init = 0%Z
  /\ (0 <= itemize_depth (fst (rewrite_text t)))%Z
  /\ Forall (fun d => (0 <= d)%Z) (history (fst (rewrite_text t)))
  /\ itemize_depth (fst (rewrite_text t))
     = hd 0%Z (history (fst (rewrite_text t)))
  /\ itemize_depth (fst (rewrite_text t))
     = fold_left depth_after_line (splitlines t) 0%Z
  /\ (forall st raw,
        itemize_depth (fst (rewrite_line st raw))
        = depth_after_line (itemize_depth st) raw).
Proof.
  split; [reflexivity|].
  pose proof (rewrite_lines_ok (splitlines t) depth_init depth_init_ok)
    as [H1 [H2 H3]].
  repeat split; try assumption.
  - apply (rewrite_lines_depth (splitlines t) depth_init).
  - intros st raw. apply rewrite_line_depth.
Qed.

(** The claim as stated fails for the other tracked list kind: a begin of
    enumerate leaves the counter at zero, so that an item invocation inside
    an enumerate list gets a synthesized begin of itemize. *)
Lemma C7_counterexample :
  itemize_depth (fst (rewrite_text (str "\begin{enumerate}"))) = 0%Z
  /\ itemize_depth (fst (rewrite_text (str "\begin{itemize}"))) = 1%Z
  /\ replace_invocations
       (str "\begin{enumerate}" ++ [LF] ++ str "\resumeItem{x}" ++ [LF]
        ++ str "\end{enumerate}")
     = str "\begin{enumerate}" ++ [LF] ++ str "\begin{itemize}" ++ [LF]
       ++ str "\item x" ++ [LF] ++ str "\end{enumerate}" ++ [LF].
Proof. repeat split; vm_compute; reflexivity. Qed.

(** ** Invocation rewriter: texts without matches *)

Lemma no_match_prefix_tails {G : Type} (m : text -> option (G * nat))
    (a b : text) :
  Forall (fun a2 => m (a2 ++ b) = None) (nonempty_tails a) ->
  no_match_prefix m a b.
Proof.
  intros H a1 a2 -> Hne. induction a1 as [|c a1 IH].
  - destruct a2 as [|c a2]; [congruence|]. simpl in H.
    inversion H; assumption.
  - apply IH. simpl in H. inversion H; assumption.
Qed.

Lemma no_match_prefix_plain {G : Type} (m : text -> option (G * nat))
    (a b : text) :
  starts_with_backslash m -> no_backslash a = true -> no_match_prefix m a b.
Proof.
  intros Hm Ha a1 a2 -> Hne. destruct a2 as [|c a2]; [congruence|].
  unfold no_backslash in Ha. rewrite forallb_app in Ha.
  apply andb_true_iff in Ha. destruct Ha as [_ Ha]. simpl in Ha.
  apply andb_true_iff in Ha. destruct Ha as [Hc _].
  apply negb_true_iff, is_char_neq in Hc. apply Hm. congruence.
Qed.

Lemma no_match_prefix_tail {G : Type} (m : text -> option (G * nat))
    (c : ascii) (a b : text) :
  no_match_prefix m (c :: a) b -> no_match_prefix m a b.
Proof.
  intros H a1 a2 -> Hne. apply (H (c :: a1) a2); [reflexivity | assumption].
Qed.

Lemma sub_from_prefix {G St : Type} (m : text -> option (G * nat))
    (repl : G -> St -> St * text) (a b : text) (st : St) :
  no_match_prefix m a b ->
  sub_from m repl 0 st (a ++ b)
  = (fst (sub_from m repl 0 st b), a ++ snd (sub_from m repl 0 st b)).
Proof.
  induction a as [|c a IH]; intros H.
  - simpl. destruct (sub_from m repl 0 st b); reflexivity.
  - pose proof (H [] (c :: a) eq_refl ltac:(discriminate)) as H0.
    cbn [app] in *. cbn [sub_from]. rewrite H0.
    rewrite IH by (eapply no_match_prefix_tail; eassumption). reflexivity.
Qed.

Lemma sub_prefix {G : Type} (m : text -> option (G * nat)) (repl : G -> text)
    (a b : text) :
  no_match_prefix m a b -> sub m repl (a ++ b) = a ++ sub m repl b.
Proof.
  intros H. unfold sub, sub_st. rewrite sub_from_prefix by assumption.
  reflexivity.
Qed.

Lemma sub_all {G : Type} (m : text -> option (G * nat)) (repl : G -> text)
    (a : text) :
  no_match_prefix m a [] -> sub m repl a = a.
Proof.
  intros H. rewrite <- (app_nil_r a) at 1. rewrite sub_prefix by assumption.
  apply app_nil_r.
Qed.

Lemma sub_st_all {G St : Type} (m : text -> option (G * nat))
    (repl : G -> St -> St * text) (a : text) (st : St) :
  no_match_prefix m a [] -> sub_st m repl st a = (st, a).
Proof.
  intros H. unfold sub_st. rewrite <- (app_nil_r a) at 1.
  rewrite sub_from_prefix by assumption. cbn [sub_from fst snd].
  rewrite app_nil_r. reflexivity.
Qed.

Lemma finditer_all {G : Type} (m : text -> option (G * nat)) (a : text) :
  no_match_prefix m a [] -> finditer m a = [].
Proof.
  intros H. apply finditer_no_match. intros pre suf -> Hne.
  rewrite <- (app_nil_r suf). apply (H pre suf); [reflexivity | assumption].
Qed.

Lemma no_match_prefix_app {G : Type} (m : text -> option (G * nat))
    (a b c : text) :
  no_match_prefix m a (b ++ c) -> no_match_prefix m b c ->
  no_match_prefix m (a ++ b) c.
Proof.
  intros Ha Hb a1 a2 E Hne.
  revert a1 E. induction a as [|x a IH]; intros a1 E.
  - apply (Hb a1 a2); assumption.
  - destruct a1 as [|y a1].
    + change ([] ++ a2) with a2 in E. subst a2. rewrite <- app_assoc.
      apply (Ha [] ((x :: a))); [reflexivity | discriminate].
    + cbn [app] in E. injection E as <- E.
      apply (IH (no_match_prefix_tail _ _ _ _ Ha) a1 E).
Qed.

(** A match of an item macro at the head of the text: the group is replaced
    by the callback and the scan goes on after the closing brace. *)
Lemma sub_item_step (c : ascii) (kw x post : text) (st : depth_state) :
  no_rbrace x = true ->
  sub_st (m_item (c :: kw)) _repl_item st ((c :: kw) ++ x ++ RBRACE :: post)
  = (fst (sub_st (m_item (c :: kw)) _repl_item (fst (_repl_item x st)) post),
     snd (_repl_item x st)
     ++ snd (sub_st (m_item (c :: kw)) _repl_item (fst (_repl_item x st)) post)).
Proof.
  intros Hx. unfold sub_st.
  assert (Hm : m_item (c :: kw) ((c :: kw) ++ x ++ RBRACE :: post)
               = Some (x, length (c :: kw) + length x + 1)).
  { unfold m_item. rewrite strip_prefix_app.
    rewrite (span_all _ x (RBRACE :: post)); [reflexivity | assumption |].
    rewrite is_char_refl. reflexivity. }
  cbn [app] in *. cbn [sub_from]. rewrite Hm.
  destruct (_repl_item x st) as [st1 r]. cbn [fst snd].
  replace (pred (length (c :: kw) + length x + 1))
    with (length (kw ++ x ++ [RBRACE]))
    by (rewrite !length_app; simpl; lia).
  replace (kw ++ x ++ RBRACE :: post) with ((kw ++ x ++ [RBRACE]) ++ post)
    by (rewrite <- !app_assoc; reflexivity).
  rewrite sub_from_skip.
  destruct (sub_from (m_item (c :: kw)) _repl_item 0 st1 post). reflexivity.
Qed.

Lemma forallb_weaken {A : Type} (p q : A -> bool) (l : list A) :
  (forall x, p x = true -> q x = true) ->
  forallb p l = true -> forallb q l = true.
Proof.
  intros Hpq. induction l as [|x l IH]; simpl; [reflexivity|].
  intros H. apply andb_true_iff in H. destruct H as [Hx Hl].
  rewrite (Hpq x Hx), (IH Hl). reflexivity.
Qed.

Lemma plain_no_backslash (x : text) : plain x = true -> no_backslash x = true.
Proof.
  apply forallb_weaken. intros c H.
  apply andb_true_iff in H. destruct H as [H _].
  apply andb_true_iff in H. apply H.
Qed.

Lemma plain_no_rbrace (x : text) : plain x = true -> no_rbrace x = true.
Proof.
  apply forallb_weaken. intros c H.
  apply andb_true_iff in H. destruct H as [H _].
  apply andb_true_iff in H. apply H.
Qed.

Lemma plain_no_break (x : text) : plain x = true -> no_break x = true.
Proof.
  apply forallb_weaken. intros c H.
  apply andb_true_iff in H. apply H.
Qed.

Lemma splitlines_single (l : text) :
  no_break l = true -> l <> [] -> splitlines l = [l].
Proof.
  unfold splitlines. induction l as [|c l IH]; intros H Hne; [congruence|].
  simpl in H. apply andb_true_iff in H. destruct H as [Hc Hl].
  apply negb_true_iff in Hc. simpl. rewrite andb_false_r, Hc.
  destruct l as [|c' l]; [reflexivity|].
  rewrite IH; [reflexivity | assumption | discriminate].
Qed.

Lemma join_lines_two (a b : text) : join_lines [a; b] = a ++ [LF] ++ b ++ [LF].
Proof.
  unfold join_lines. cbn [join_nl]. rewrite <- app_assoc. reflexivity.
Qed.

(** Discharges [no_match_prefix] on a text built from literals of the
    program and from texts known to hold no backslash. *)
Ltac no_match :=
  lazymatch goal with
  | |- no_match_prefix _ (_ ++ _) _ =>
      apply no_match_prefix_app; [no_match | no_match]
  | |- no_match_prefix _ _ _ =>
      first
        [ apply no_match_prefix_plain;
          [ first [ apply m_lit_backslash | apply m_env_backslash
                  | apply m_item_backslash | apply m_subheading_backslash ]
          | assumption ]
        | apply no_match_prefix_tails; repeat constructor ]
  end.

Lemma replace_list_macros_item (kw x : text) :
  no_backslash x = true ->
  Forall (fun old =>
            Forall (fun a2 => m_lit old (a2 ++ x ++ [RBRACE]) = None)
              (nonempty_tails kw))
    [ str "\resumeSubHeadingListStart"; str "\resumeSubHeadingListEnd";
      str "\resumeItemListStart"; str "\resumeItemListEnd" ] ->
  replace_list_macros (kw ++ x ++ [RBRACE]) = kw ++ x ++ [RBRACE].
Proof.
  intros Hx Hkw.
  inversion Hkw as [|? ? H1 Hkw1]; subst.
  inversion Hkw1 as [|? ? H2 Hkw2]; subst.
  inversion Hkw2 as [|? ? H3 Hkw3]; subst.
  inversion Hkw3 as [|? ? H4 _]; subst.
  assert (Hlit : forall old, 
            starts_with_backslash (m_lit old) ->
            Forall (fun a2 => m_lit old (a2 ++ x ++ [RBRACE]) = None)
              (nonempty_tails kw) ->
            no_match_prefix (m_lit old) (kw ++ x ++ [RBRACE]) []).
  { intros old Hb Ht. apply no_match_prefix_app.
    - apply no_match_prefix_tails. rewrite app_nil_r. assumption.
    - apply no_match_prefix_app.
      + apply no_match_prefix_plain; assumption.
      + apply no_match_prefix_tails. repeat constructor.
        cbn [app]. apply Hb. discriminate. }
  unfold replace_list_macros, replace.
  rewrite (sub_all (m_lit (str "\resumeSubHeadingListStart")))
    by (apply Hlit; [apply m_lit_backslash | assumption]).
  rewrite (sub_all (m_lit (str "\resumeSubHeadingListEnd")))
    by (apply Hlit; [apply m_lit_backslash | assumption]).
  rewrite (sub_all (m_lit (str "\resumeItemListStart")))
    by (apply Hlit; [apply m_lit_backslash | assumption]).
  rewrite (sub_all (m_lit (str "\resumeItemListEnd")))
    by (apply Hlit; [apply m_lit_backslash | assumption]).
  reflexivity.
Qed.

Lemma rewrite_line_resume_item (x : text) (st : depth_state) :
  plain x = true -> rewrite_line st (resume_item x) = _repl_item x st.
Proof.
  intros Hp.
  pose proof (plain_no_backslash x Hp) as Hb.
  pose proof (plain_no_rbrace x Hp) as Hr.
  unfold resume_item, rewrite_line.
  rewrite replace_list_macros_item by first [assumption | repeat constructor].
  rewrite (finditer_all RE_ENV_BEGIN) by no_match.
  rewrite (finditer_all RE_ENV_END) by no_match.
  cbn [fold_left].
  change (sub_st RE_RESUME_ITEM _repl_item st
            (str "\resumeItem{" ++ x ++ [RBRACE]))
    with (sub_st (m_item (BACKSLASH :: str "resumeItem{")) _repl_item st
            ((BACKSLASH :: str "resumeItem{") ++ x ++ [RBRACE])).
  rewrite sub_item_step by assumption.
  cbn [sub_st sub_from fst snd]. rewrite app_nil_r.
  unfold _repl_item. destruct (itemize_depth st =? 0)%Z; cbn [fst snd];
    rewrite sub_st_all by no_match; reflexivity.
Qed.

Lemma rewrite_line_resume_subitem (x : text) (st : depth_state) :
  plain x = true -> rewrite_line st (resume_subitem x) = _repl_item x st.
Proof.
  intros Hp.
  pose proof (plain_no_backslash x Hp) as Hb.
  pose proof (plain_no_rbrace x Hp) as Hr.
  unfold resume_subitem, rewrite_line.
  rewrite replace_list_macros_item by first [assumption | repeat constructor].
  rewrite (finditer_all RE_ENV_BEGIN) by no_match.
  rewrite (finditer_all RE_ENV_END) by no_match.
  cbn [fold_left].
  rewrite (sub_st_all RE_RESUME_ITEM) by no_match.
  change (sub_st RE_RESUME_SUBITEM _repl_item st
            (str "\resumeSubItem{" ++ x ++ [RBRACE]))
    with (sub_st (m_item (BACKSLASH :: str "resumeSubItem{")) _repl_item st
            ((BACKSLASH :: str "resumeSubItem{") ++ x ++ [RBRACE])).
  rewrite sub_item_step by assumption.
  cbn [sub_st sub_from fst snd]. rewrite app_nil_r.
  destruct (_repl_item x st); reflexivity.
Qed.

Lemma resume_item_no_break (x : text) :
  plain x = true -> no_break (resume_item x) = true.
Proof.
  intros Hp. unfold resume_item, no_break. rewrite !forallb_app.
  fold (no_break x). rewrite (plain_no_break x Hp). reflexivity.
Qed.

Lemma resume_item_lines (x : text) :
  plain x = true -> splitlines (resume_item x) = [resume_item x].
Proof.
  intros Hp. apply splitlines_single; [apply resume_item_no_break; assumption|].
  discriminate.
Qed.

Lemma replace_invocations_one_item (a : text) :
  plain a = true ->
  replace_invocations (resume_item a)
  = BEGIN_ITEMIZE ++ [LF] ++ ITEM_SP ++ a ++ [LF].
Proof.
  intros Hp. pose proof (plain_no_backslash a Hp) as Hb.
  unfold replace_invocations, rewrite_text.
  rewrite resume_item_lines by assumption.
  cbn [rewrite_lines]. rewrite rewrite_line_resume_item by assumption.
  unfold _repl_item. cbn [itemize_depth depth_init Z.eqb snd].
  rewrite join_lines_single, <- !app_assoc.
  apply sub_all. no_match.
Qed.

Lemma replace_invocations_two_items (a b : text) :
  plain a = true -> plain b = true ->
  replace_invocations (resume_item a ++ [LF] ++ resume_item b)
  = BEGIN_ITEMIZE ++ [LF] ++ ITEM_SP ++ a ++ [LF] ++ ITEM_SP ++ b ++ [LF].
Proof.
  intros Hpa Hpb.
  pose proof (plain_no_backslash a Hpa) as Ha.
  pose proof (plain_no_backslash b Hpb) as Hb.
  unfold replace_invocations, rewrite_text.
  change (resume_item a ++ [LF] ++ resume_item b)
    with (resume_item a ++ LF :: resume_item b).
  rewrite splitlines_line by (apply resume_item_no_break; assumption).
  rewrite resume_item_lines by assumption.
  cbn [rewrite_lines]. rewrite rewrite_line_resume_item by assumption.
  unfold _repl_item at 1. cbn [itemize_depth depth_init Z.eqb].
  rewrite rewrite_line_resume_item by assumption.
  unfold _repl_item. cbn [itemize_depth set_depth Z.add Z.eqb Pos.eqb snd].
  rewrite join_lines_two, <- !app_assoc.
  apply sub_all. no_match.
Qed.

(** Every match of an item pattern is an invocation with a brace-free
    argument. *)
Lemma m_item_shape (kw s x : text) (n : nat) :
  m_item kw s = Some (x, n) ->
  exists post,
    s = (kw ++ x ++ [RBRACE]) ++ post
    /\ no_rbrace x = true /\ n = length kw + length x + 1.
Proof.
  unfold m_item. destruct (strip_prefix kw s) as [r|] eqn:E; [|discriminate].
  apply strip_prefix_spec in E. subst s.
  destruct (span (fun c => negb (is_char RBRACE c)) r) as [x' b] eqn:Es.
  apply span_spec in Es. destruct Es as [-> [Hx Hb]].
  destruct b as [|c post]; [discriminate|].
  intros H. injection H as <- <-.
  apply negb_false_iff, is_char_eq in Hb. subst c.
  exists post. rewrite <- !app_assoc. auto.
Qed.




(** ** Definition stripper: indices *)

Lemma skip_while_ge (p : ascii -> bool) (src : text) (i : nat) :
  i <= skip_while p src i.
Proof. unfold skip_while. lia. Qed.

Lemma skip_balanced_from_ge (o c : ascii) (s : text) (depth : Z) (j : nat) :
  j <= skip_balanced_from o c depth j s.
Proof.
  revert depth j. induction s as [|x s IH]; intros depth j; simpl; [lia|].
  destruct (is_char o x).
  - specialize (IH (depth + 1)%Z (j + 1)). lia.
  - destruct (is_char c x).
    + destruct (depth - 1 =? 0)%Z; [lia|].
      specialize (IH (depth - 1)%Z (j + 1)). lia.
    + specialize (IH depth (j + 1)). lia.
Qed.

Lemma _skip_balanced_ge (src : text) (idx : nat) (o c : ascii) :
  idx <= _skip_balanced src idx o c.
Proof.
  unfold _skip_balanced. destruct (nth_error src idx); [|lia].
  destruct (is_char o a); [apply skip_balanced_from_ge | lia].
Qed.

Lemma skip_header_ge (src : text) (i : nat) : i <= skip_header src i.
Proof.
  unfold skip_header.
  set (i1 := skip_while isspace src i).
  assert (H1 : i <= i1) by apply skip_while_ge.
  match goal with
  | |- _ <= skip_while isspace src
            (match nth_error src (skip_while isspace src ?i2) with _ => _ end) =>
      assert (H2 : i1 <= i2)
  end.
  { destruct (nth_error src i1) as [c|]; [|lia].
    destruct (is_char LBRACE c); [apply _skip_balanced_ge|].
    destruct (is_char BACKSLASH c); [|lia].
    pose proof (skip_while_ge is_name_char src (i1 + 1)).
    pose proof (skip_while_ge is_param_char src
                  (skip_while is_name_char src (i1 + 1))).
    lia. }
  match goal with
  | |- _ <= skip_while isspace src ?i4 =>
      pose proof (skip_while_ge isspace src i4) as H4;
      assert (H3 : i1 <= i4); [|lia]
  end.
  match goal with
  | |- _ <= match nth_error src ?i3 with _ => _ end =>
      pose proof (skip_while_ge isspace src
                    (match nth_error src i1 with
                     | Some c =>
                         if is_char LBRACE c
                         then _skip_balanced src i1 LBRACE RBRACE
                         else if is_char BACKSLASH c
                              then skip_while is_param_char src
                                     (skip_while is_name_char src (i1 + 1))
                              else i1
                     | None => i1
                     end)) as H5;
      destruct (nth_error src i3) as [c|]; [|lia];
      destruct (is_char LBRACK c); [|lia];
      pose proof (_skip_balanced_ge src i3 LBRACK RBRACK); lia
  end.
Qed.

Lemma nth_error_skipn_cons {A : Type} (l : list A) (i : nat) (x : A) :
  nth_error l i = Some x -> exists r, skipn i l = x :: r.
Proof.
  revert i. induction l as [|y l IH]; intros [|i]; simpl; try discriminate.
  - intros H. injection H as ->. eauto.
  - apply IH.
Qed.

Lemma find_first_skip {A : Type} (p : A -> bool) (k : nat) (l : list A) :
  forallb (fun x => negb (p x)) (firstn k l) = true ->
  find_first p l
  = match find_first p (skipn k l) with
    | Some j => Some (k + j)
    | None => None
    end.
Proof.
  revert l. induction k as [|k IH]; intros l H.
  - simpl. destruct (find_first p l); reflexivity.
  - destruct l as [|x l]; [reflexivity|].
    simpl in H. apply andb_true_iff in H. destruct H as [Hx Hl].
    apply negb_true_iff in Hx. simpl. rewrite Hx, (IH l Hl).
    destruct (find_first p (skipn k l)); reflexivity.
Qed.

Lemma line_end_same_line (src : text) (start i : nat) :
  start <= i -> no_lf (slice start i src) = true ->
  line_end src i = line_end src start.
Proof.
  intros Hle H. unfold line_end, find_char.
  rewrite (find_first_skip (is_char LF) (i - start) (skipn start src))
    by exact H.
  rewrite skipn_skipn. replace (i - start + start) with i by lia.
  destruct (find_first (is_char LF) (skipn i src)) as [j|]; [|reflexivity].
  f_equal. lia.
Qed.

(** C5, as amended. For every matched structural macro definition for which
    no opening brace occurs between the end of its header and the end of the
    text, and whose header runs to the end of the text or holds no line feed,
    the stripped span runs from the defining keyword through the end of the
    starting line, and the marker line takes its place. *)
Theorem C5_strip_without_body (src : text) (start_idx n : nat) :
  RE_CMD_START (skipn start_idx src) = Some (tt, n) ->
  _should_strip_definition
    (slice start_idx (min (length src) (start_idx + n + 400)) src) = true ->
  find_char LBRACE src (skip_header src (start_idx + n)) = None ->
  length src <= skip_header src (start_idx + n)
  \/ no_lf (slice start_idx (skip_header src (start_idx + n)) src) = true ->
  _strip_one_definition src start_idx
  = (firstn start_idx src ++ MARKER ++ skipn (line_end src start_idx) src,
     start_idx + 1)
  /\ MARKER = str "% (stripped macro definition)" ++ [LF].
Proof.
  intros Hm Hs Hb Hl. split; [|reflexivity].
  unfold _strip_one_definition. rewrite Hm. cbv zeta. rewrite Hs. cbn [negb].
  destruct (nth_error src (skip_header src (start_idx + n))) as [c|] eqn:E;
    [|reflexivity].
  destruct (nth_error_skipn_cons _ _ _ E) as [r Hr].
  assert (Hc : is_char LBRACE c = false).
  { unfold find_char in Hb. rewrite Hr in Hb. simpl in Hb.
    destruct (is_char LBRACE c); [discriminate | reflexivity]. }
  rewrite Hc. cbn [negb]. rewrite Hb.
  destruct Hl as [Hl|Hl].
  - assert (nth_error src (skip_header src (start_idx + n)) = None)
      by (apply nth_error_None; assumption).
    congruence.
  - rewrite (line_end_same_line src start_idx) by
      (try assumption; pose proof (skip_header_ge src (start_idx + n)); lia).
    reflexivity.
Qed.

Lemma C5_strip_without_body_witness :
  RE_CMD_START (skipn 1 (str "a\def\resumeX#1 % none" ++ [LF] ++ str "b"))
  = Some (tt, 4)
  /\ _strip_one_definition (str "a\def\resumeX#1 % none" ++ [LF] ++ str "b") 1
     = (str "a% (stripped macro definition)" ++ [LF] ++ str "b", 2).
Proof.
  split; [reflexivity|].
  pose proof
    (C5_strip_without_body (str "a\def\resumeX#1 % none" ++ [LF] ++ str "b")
       1 4 eq_refl eq_refl eq_refl (or_intror eq_refl)) as [H _].
  exact H.
Defined.

(** The claim as stated fails: the definition below has no opening brace on
    its starting line, yet the body on the next line is found and stripped
    with it, so that the span does not stop at the end of the starting
    line. *)
Lemma C5_counterexample :
  let src := str "\def\resumeX" ++ [LF] ++ str "{a}" ++ [LF] ++ str "b" in
  RE_CMD_START src = Some (tt, 4)
  /\ _should_strip_definition src = true
  /\ count LBRACE (slice 0 (line_end src 0) src) = 0
  /\ _strip_one_definition src 0
     = (str "% (stripped macro definition)" ++ [LF] ++ [LF] ++ str "b", 1)
  /\ _strip_one_definition src 0
     <> (firstn 0 src ++ MARKER ++ skipn (line_end src 0) src, 1).
Proof. repeat split; vm_compute; discriminate. Qed.

(** ** Definition stripper: termination *)

Lemma search_spec {G : Type} (m : text -> option (G * nat)) (s : text)
    (p n : nat) (g : G) :
  search m s = Some (p, n, g) -> m (skipn p s) = Some (g, n) /\ p < length s.
Proof.
  revert p. induction s as [|c s IH]; intros p; simpl; [discriminate|].
  destruct (m (c :: s)) as [[g' n']|] eqn:E.
  - intros H. injection H as <- <- <-. simpl. split; [assumption | lia].
  - destruct (search m s) as [[[p' n'] g']|]; [|discriminate].
    intros H. injection H as <- <- <-.
    destruct (IH p' eq_refl) as [H1 H2]. simpl. split; [assumption | lia].
Qed.

Lemma m_keyword_backslash (kw : text) : starts_with_backslash (m_keyword kw).
Proof.
  intros c s H. unfold m_keyword.
  rewrite strip_prefix_backslash by assumption. reflexivity.
Qed.

Lemma RE_CMD_START_backslash : starts_with_backslash RE_CMD_START.
Proof.
  intros c s H. unfold RE_CMD_START, first_match. cbn [fold_right].
  rewrite !m_keyword_backslash by assumption. reflexivity.
Qed.

Lemma m_keyword_length (kw s : text) (n : nat) :
  m_keyword kw s = Some (tt, n) -> 1 <= n.
Proof.
  unfold m_keyword. destruct (strip_prefix (BACKSLASH :: kw) s) as [[|c r]|];
    [| |discriminate].
  - intros H. injection H as <-. lia.
  - destruct (isword c); [discriminate|]. intros H. injection H as <-. lia.
Qed.

Lemma RE_CMD_START_length (s : text) (n : nat) :
  RE_CMD_START s = Some (tt, n) -> 1 <= n.
Proof.
  unfold RE_CMD_START, first_match. cbn [fold_right].
  destruct (m_keyword (str "newcommand") s) as [[[] k]|] eqn:E1.
  { intros H. injection H as <-. eapply m_keyword_length; eassumption. }
  destruct (m_keyword (str "renewcommand") s) as [[[] k]|] eqn:E2.
  { intros H. injection H as <-. eapply m_keyword_length; eassumption. }
  destruct (m_keyword (str "providecommand") s) as [[[] k]|] eqn:E3.
  { intros H. injection H as <-. eapply m_keyword_length; eassumption. }
  destruct (m_keyword (str "def") s) as [[[] k]|] eqn:E4; [|discriminate].
  intros H. injection H as <-. eapply m_keyword_length; eassumption.
Qed.

Lemma cmd_starts_tail (c : ascii) (s : text) : cmd_starts s <= cmd_starts (c :: s).
Proof. cbn [cmd_starts]. lia. Qed.

Lemma cmd_starts_skipn (k : nat) (s : text) :
  cmd_starts (skipn k s) <= cmd_starts s.
Proof.
  revert s. induction k as [|k IH]; intros s; [simpl; lia|].
  destruct s as [|c s]; [simpl; lia|].
  cbn [skipn]. pose proof (IH s). pose proof (cmd_starts_tail c s). lia.
Qed.

Lemma cmd_starts_skipn_le (j k : nat) (s : text) :
  j <= k -> cmd_starts (skipn k s) <= cmd_starts (skipn j s).
Proof.
  intros H. replace k with ((k - j) + j) by lia. rewrite <- skipn_skipn.
  apply cmd_starts_skipn.
Qed.

Lemma cmd_starts_at_match (p : nat) (s : text) (x : unit * nat) :
  RE_CMD_START (skipn p s) = Some x ->
  S (cmd_starts (skipn (S p) s)) = cmd_starts (skipn p s) /\ p < length s.
Proof.
  intros H. destruct (skipn p s) as [|c r] eqn:E; [discriminate|].
  assert (Hp : p < length s).
  { destruct (Nat.lt_ge_cases p (length s)) as [Hlt|Hge]; [assumption|].
    rewrite skipn_all2 in E by assumption. discriminate. }
  split; [|assumption].
  replace (S p) with (1 + p) by lia. rewrite <- skipn_skipn, E.
  cbn [skipn cmd_starts]. rewrite H. reflexivity.
Qed.

Lemma cmd_starts_plain (a r : text) :
  no_backslash a = true -> cmd_starts (a ++ r) = cmd_starts r.
Proof.
  induction a as [|c a IH]; intros H; [reflexivity|].
  simpl in H. apply andb_true_iff in H. destruct H as [Hc Ha].
  apply negb_true_iff, is_char_neq in Hc.
  cbn [app cmd_starts]. rewrite RE_CMD_START_backslash by congruence.
  rewrite IH by assumption. reflexivity.
Qed.

Lemma cmd_starts_le_length (s : text) : cmd_starts s <= length s.
Proof.
  induction s as [|c s IH]; [simpl; lia|].
  cbn [cmd_starts length]. destruct (RE_CMD_START (c :: s)); lia.
Qed.

(** After a strip, the keyword positions from the new scan index on are
    those of the old text behind the stripped span. *)
Lemma cmd_starts_strip_span (src : text) (start e : nat) :
  start < length src ->
  cmd_starts (skipn (start + 1) (strip_span src start e))
  = cmd_starts (skipn e src).
Proof.
  intros H. unfold strip_span.
  rewrite skipn_app, length_firstn, Nat.min_l by lia.
  rewrite skipn_all2 by (rewrite length_firstn; lia).
  replace (start + 1 - start) with 1 by lia.
  cbn [app]. change (skipn 1 (MARKER ++ skipn e src))
    with (str " (stripped macro definition)" ++ [LF] ++ skipn e src).
  rewrite cmd_starts_plain by reflexivity.
  rewrite cmd_starts_plain by reflexivity. reflexivity.
Qed.

Lemma line_end_gt (src : text) (start k : nat) :
  start < length src -> start <= k -> start + 1 <= line_end src k.
Proof.
  intros H Hk. unfold line_end, find_char.
  destruct (find_first (is_char LF) (skipn k src)); lia.
Qed.

(** One strip makes the measure decrease. *)
Lemma _strip_one_definition_decreases (src : text) (start : nat)
    (x : unit * nat) :
  RE_CMD_START (skipn start src) = Some x ->
  cmd_starts
    (skipn (snd (_strip_one_definition src start))
       (fst (_strip_one_definition src start)))
  < cmd_starts (skipn start src).
Proof.
  intros Hm. destruct (cmd_starts_at_match _ _ _ Hm) as [Hdec Hlt].
  destruct x as [[] n]. pose proof (RE_CMD_START_length _ _ Hm) as Hn.
  assert (Hspan : forall e, start + 1 <= e ->
            cmd_starts (skipn (start + 1) (strip_span src start e))
            < cmd_starts (skipn start src)).
  { intros e He. rewrite cmd_starts_strip_span by assumption.
    pose proof (cmd_starts_skipn_le (S start) e src ltac:(lia)). lia. }
  pose proof (skip_header_ge src (start + n)) as Hh.
  unfold _strip_one_definition. rewrite Hm. cbv zeta.
  destruct (negb _).
  { cbn [fst snd].
    pose proof (cmd_starts_skipn_le (S start) (start + n) src ltac:(lia)). lia. }
  destruct (nth_error src (skip_header src (start + n))) as [c|].
  - destruct (negb (is_char LBRACE c)).
    + destruct (find_char LBRACE src (skip_header src (start + n)))
        as [j|] eqn:Ej; cbn [fst snd]; apply Hspan.
      * unfold find_char in Ej.
        destruct (find_first (is_char LBRACE)
                    (skipn (skip_header src (start + n)) src)) as [k|];
          [|discriminate].
        injection Ej as <-.
        pose proof (_skip_balanced_ge src (skip_header src (start + n) + k)
                      LBRACE RBRACE). lia.
      * apply line_end_gt; lia.
    + cbn [fst snd]. apply Hspan.
      pose proof (_skip_balanced_ge src (skip_header src (start + n))
                    LBRACE RBRACE). lia.
  - cbn [fst snd]. apply Hspan. apply line_end_gt; lia.
Qed.

Lemma strip_loop_terminates (fuel : nat) (src : text) (i : nat) :
  cmd_starts (skipn i src) < fuel -> exists out, strip_loop fuel src i = Some out.
Proof.
  revert src i. induction fuel as [|fuel IH]; intros src i Hf; [lia|].
  cbn [strip_loop].
  destruct (search RE_CMD_START (skipn i src)) as [[[p n] []]|] eqn:E;
    [|eauto].
  apply search_spec in E. destruct E as [Hm _].
  rewrite skipn_skipn in Hm. replace (p + i) with (i + p) in Hm by lia.
  pose proof (cmd_starts_skipn_le i (i + p) src ltac:(lia)) as Hle.
  destruct (_should_strip_definition _).
  - pose proof (_strip_one_definition_decreases src (i + p) _ Hm) as Hd.
    destruct (_strip_one_definition src (i + p)) as [src' i'].
    cbn [fst snd] in Hd. apply IH. lia.
  - apply IH. destruct (cmd_starts_at_match _ _ _ Hm) as [Hdec _].
    pose proof (RE_CMD_START_length _ _ Hm) as Hn.
    pose proof (cmd_starts_skipn_le (S (i + p)) (i + p + n) src ltac:(lia)).
    lia.
Qed.

Lemma strip_loop_more_fuel (fuel fuel' : nat) (src : text) (i : nat)
    (out : text) :
  fuel <= fuel' -> strip_loop fuel src i = Some out ->
  strip_loop fuel' src i = Some out.
Proof.
  revert fuel' src i. induction fuel as [|fuel IH]; intros fuel' src i Hle;
    [discriminate|].
  destruct fuel' as [|fuel']; [lia|]. cbn [strip_loop].
  destruct (search RE_CMD_START (skipn i src)) as [[[p n] g]|]; [|auto].
  destruct (_should_strip_definition _).
  - destruct (_strip_one_definition src (i + p)) as [src' i'].
    apply IH. lia.
  - apply IH. lia.
Qed.

Lemma strip_macro_definitions_total (t : text) :
  exists out, strip_macro_definitions t = Some out.
Proof.
  apply strip_loop_terminates. simpl. pose proof (cmd_starts_le_length t). lia.
Qed.

(** C9. Every stage returns on every text.  The loop of
    [strip_macro_definitions] leaves after at most one search per character
    of the text plus one, each strip or skip removing a keyword position from
    what remains to be scanned; the index loop of [ensure_list_items] leaves
    after one test per line plus one; more fuel changes neither result.  The
    guard rewriter, the invocation rewriter, the balancer and the brace
    auditor are loops over the characters or lines of their input, which the
    model runs to their end. *)
Theorem C9_stages_total (t : text) (how_many : Z) (extra : nat) :
  (exists out, strip_macro_definitions t = Some out)
  /\ strip_macro_definitions_fuel (S (length t) + extra) t
     = strip_macro_definitions t
  /\ (exists out, ensure_list_items t = Some out)
  /\ ensure_list_items_fuel (S (length (splitlines t)) + extra) t
     = ensure_list_items t
  /\ (exists out, guard_glyphtounicode t = out)
  /\ (exists out, replace_invocations t = out)
  /\ (exists out st, balance_envs t = (out, st))
  /\ (exists k, rough_brace_imbalance t = k)
  /\ (exists hs, find_unmatched_open_braces t = hs)
  /\ (exists out, auto_fix_braces t how_many = out).
Proof.
  split; [apply strip_macro_definitions_total|].
  split.
  { destruct (strip_macro_definitions_total t) as [out H]. rewrite H.
    apply (strip_loop_more_fuel (S (length t))); [lia | exact H]. }
  split; [rewrite ensure_list_items_total; eauto|].
  split.
  { rewrite ensure_list_items_total. unfold ensure_list_items_fuel.
    pose proof (ensure_loop_spec (splitlines t) []
                  (S (length (splitlines t)) + extra) ltac:(lia)) as H.
    cbn [app length] in H. rewrite H. reflexivity. }
  repeat split; eauto.
  destruct (balance_envs t) as [out st]. eauto.
Qed.

(** ** Environment balancer: rescanning the output *)

Lemma scan_lines_app (a b : list text) (i : nat) (st : scan_state) :
  scan_lines i st (a ++ b) = scan_lines (i + length a) (scan_lines i st a) b.
Proof.
  revert i st. induction a as [|ln a IH]; intros i st; simpl.
  - rewrite Nat.add_0_r. reflexivity.
  - rewrite IH. f_equal. lia.
Qed.

Lemma fold_env_untracked (f : scan_state -> text -> scan_state)
    (envs : list text) (st : scan_state) :
  (forall st env, in_balance_envs env = false -> f st env = st) ->
  forallb (fun env => negb (in_balance_envs env)) envs = true ->
  fold_left f envs st = st.
Proof.
  intros Hf. induction envs as [|env envs IH]; intros H; simpl; [reflexivity|].
  simpl in H. apply andb_true_iff in H. destruct H as [He Hr].
  apply negb_true_iff in He. rewrite Hf by assumption. apply IH. assumption.
Qed.

Lemma scan_line_inert (i : nat) (st : scan_state) (ln : text) :
  inert ln = true -> scan_line i st ln = st.
Proof.
  unfold inert, scan_line. intros H.
  destruct (is_commented ln); [reflexivity|].
  cbn [orb] in H. apply andb_true_iff in H. destruct H as [Hb He].
  rewrite (fold_env_untracked (env_begin i)); [| |assumption].
  - apply fold_env_untracked; [|assumption].
    intros st' env Henv. unfold env_end. rewrite Henv. reflexivity.
  - intros st' env Henv. unfold env_begin. rewrite Henv. reflexivity.
Qed.

Lemma scan_lines_inert (lines : list text) (i : nat) (st : scan_state) :
  forallb inert lines = true -> scan_lines i st lines = st.
Proof.
  revert i st. induction lines as [|ln lines IH]; intros i st H; simpl;
    [reflexivity|].
  simpl in H. apply andb_true_iff in H. destruct H as [Hl Hr].
  rewrite scan_line_inert by assumption. apply IH. assumption.
Qed.

Lemma Forall_removelast {A : Type} (P : A -> Prop) (l : list A) :
  Forall P l -> Forall P (removelast l).
Proof.
  induction l as [|x l IH]; intros H; [constructor|].
  destruct l as [|y l]; [constructor|].
  inversion H; subst.
  change (removelast (x :: y :: l)) with (x :: removelast (y :: l)).
  constructor; auto.
Qed.

Lemma env_begin_tracked (i : nat) (st : scan_state) (env : text) :
  tracked (stack st) -> tracked (stack (env_begin i st env)).
Proof.
  intros H. unfold env_begin. destruct (in_balance_envs env) eqn:E;
    [|assumption].
  cbn [stack]. apply Forall_app. split; [assumption|].
  constructor; [assumption | constructor].
Qed.

Lemma env_end_tracked (i : nat) (st : scan_state) (env : text) :
  tracked (stack st) -> tracked (stack (env_end i st env)).
Proof.
  intros H. unfold env_end. destruct (in_balance_envs env); [|assumption].
  destruct (top_is env (stack st)); cbn [stack]; [|assumption].
  apply Forall_removelast. assumption.
Qed.

Lemma fold_tracked (f : scan_state -> text -> scan_state) (envs : list text)
    (st : scan_state) :
  (forall st env, tracked (stack st) -> tracked (stack (f st env))) ->
  tracked (stack st) -> tracked (stack (fold_left f envs st)).
Proof.
  intros Hf. revert st. induction envs as [|env envs IH]; intros st H; simpl;
    auto.
Qed.

Lemma scan_lines_tracked (lines : list text) (i : nat) (st : scan_state) :
  tracked (stack st) -> tracked (stack (scan_lines i st lines)).
Proof.
  revert i st. induction lines as [|ln lines IH]; intros i st H; simpl;
    [assumption|].
  apply IH. unfold scan_line. destruct (is_commented ln); [assumption|].
  apply fold_tracked; [apply env_end_tracked|].
  apply fold_tracked; [apply env_begin_tracked | assumption].
Qed.

(** What the scan sees in an inserted closer: no begin, the one end. *)
Lemma closer_scan (e : text * nat) :
  in_balance_envs (fst e) = true ->
  is_commented (closer e) = false
  /\ finditer RE_ENV_BEGIN (closer e) = []
  /\ finditer RE_ENV_END (closer e) = [fst e]
  /\ no_break (closer e) = true.
Proof.
  destruct e as [env k]. cbn [fst]. unfold in_balance_envs. intros H.
  apply existsb_exists in H. destruct H as [x [Hin Hx]].
  apply text_eqb_eq in Hx. subst x. unfold closer. cbn [fst].
  unfold BALANCE_ENVS in Hin. cbn [In] in Hin.
  repeat (destruct Hin as [<-|Hin]; [repeat split; reflexivity|]).
  contradiction.
Qed.

Lemma top_is_last (e : text * nat) (stk : list (text * nat)) :
  top_is (fst e) (stk ++ [e]) = true.
Proof.
  unfold top_is. destruct (stk ++ [e]) as [|x r] eqn:E.
  - apply app_eq_nil in E. destruct E. discriminate.
  - rewrite <- E, last_last. apply text_eqb_refl.
Qed.

Lemma scan_line_closer (i : nat) (e : text * nat) (stk um : list (text * nat)) :
  in_balance_envs (fst e) = true ->
  scan_line i {| stack := stk ++ [e]; unmatched_end := um |} (closer e)
  = {| stack := stk; unmatched_end := um |}.
Proof.
  intros H. destruct (closer_scan e H) as [H1 [H2 [H3 _]]].
  unfold scan_line. rewrite H1, H2, H3. cbn [fold_left].
  unfold env_end. rewrite H. cbn [stack unmatched_end].
  rewrite top_is_last, removelast_last. reflexivity.
Qed.

(** The inserted closers pop the whole stack. *)
Lemma scan_lines_closers (stk um : list (text * nat)) (i : nat) :
  tracked stk ->
  scan_lines i {| stack := stk; unmatched_end := um |} (map closer (rev stk))
  = {| stack := []; unmatched_end := um |}.
Proof.
  revert i. induction stk as [|e stk IH] using rev_ind; intros i H;
    [reflexivity|].
  apply Forall_app in H. destruct H as [Hs He]. inversion He; subst.
  rewrite rev_app_distr. cbn [rev app map scan_lines].
  rewrite scan_line_closer by assumption. apply IH. assumption.
Qed.

Lemma closers_no_break (stk : list (text * nat)) :
  tracked stk -> Forall (fun l => no_break l = true) (map closer (rev stk)).
Proof.
  intros H. apply Forall_forall. intros l Hl.
  apply in_map_iff in Hl. destruct Hl as [e [<- He]].
  apply in_rev in He. unfold tracked in H. rewrite Forall_forall in H.
  apply closer_scan. apply H. assumption.
Qed.

(** A text whose scan leaves an empty stack is only split and joined. *)
Lemma balance_envs_balanced (t : text) :
  open_env_stack t = [] ->
  fst (balance_envs t) = join_lines (splitlines t)
  /\ inserted_missing_ends (snd (balance_envs t)) = 0.
Proof.
  unfold open_env_stack, balance_envs. intros H. rewrite H. split; reflexivity.
Qed.

(** *** A scan started on a stack and the same scan started on none *)

Lemma top_is_snoc (env : text) (stk : list (text * nat)) (e : text * nat) :
  top_is env (stk ++ [e]) = text_eqb (fst e) env.
Proof.
  unfold top_is. destruct (stk ++ [e]) as [|x r] eqn:E.
  - apply app_eq_nil in E. destruct E. discriminate.
  - rewrite <- E, last_last. reflexivity.
Qed.

Lemma map_fst_snoc (stk' : list (text * nat)) (names : list text) (x : text) :
  map fst stk' = names ++ [x] ->
  exists stk0 e, stk' = stk0 ++ [e] /\ map fst stk0 = names /\ fst e = x.
Proof.
  intros H. destruct stk' as [|e stk0 _] using rev_ind.
  - destruct names; discriminate.
  - rewrite map_app in H. cbn [map] in H. apply app_inj_tail in H.
    destruct H as [H1 H2]. eauto.
Qed.

Lemma env_begin_framed (base : list (text * nat)) (i0 k i j : nat)
    (st st' : scan_state) (env : text) :
  i0 <= i ->
  framed base i0 k (stack st) (stack st') ->
  framed base i0 k (stack (env_begin i st env)) (stack (env_begin j st' env)).
Proof.
  intros Hi H. unfold env_begin. destruct (in_balance_envs env); [|assumption].
  destruct H as [Hk [new [Hs [Hn Hm]]]]. cbn [stack].
  split; [assumption|]. exists (new ++ [(env, i)]).
  split; [rewrite Hs, app_assoc; reflexivity|].
  split.
  - apply Forall_app. split; [assumption|]. constructor; [exact Hi | constructor].
  - intros E. rewrite !map_app, (Hm E). reflexivity.
Qed.

Lemma env_end_framed (base : list (text * nat)) (i0 k i j : nat)
    (st st' : scan_state) (env : text) :
  framed base i0 k (stack st) (stack st') ->
  exists k2, k2 <= k
    /\ framed base i0 k2 (stack (env_end i st env)) (stack (env_end j st' env)).
Proof.
  intros H. unfold env_end.
  destruct (in_balance_envs env); [|exists k; split; [lia | assumption]].
  destruct H as [Hk [new [Hs [Hn Hm]]]].
  destruct new as [|e new _] using rev_ind.
  - (* nothing pushed since: the top is an entry of the base *)
    rewrite app_nil_r in Hs.
    destruct (top_is env (stack st)) eqn:Et; cbn [stack].
    + destruct k as [|k].
      { rewrite Hs in Et. discriminate. }
      exists k. split; [lia|]. split; [lia|]. exists [].
      split; [rewrite Hs, app_nil_r; apply removelast_firstn; lia|].
      split; [constructor | lia].
    + exists k. split; [lia|]. split; [assumption|]. exists [].
      split; [rewrite app_nil_r; assumption|].
      split; [constructor|].
      intros E. specialize (Hm E). cbn [map] in Hm.
      apply map_eq_nil in Hm. rewrite Hm. reflexivity.
  - (* the top was pushed since: both scans look at the same name *)
    apply Forall_app in Hn. destruct Hn as [Hn He].
    assert (Et : top_is env (stack st) = text_eqb (fst e) env)
      by (rewrite Hs, app_assoc; apply top_is_snoc).
    rewrite Et. exists k. split; [lia|]. split; [assumption|].
    destruct (text_eqb (fst e) env) eqn:En; cbn [stack].
    + exists new. split; [rewrite Hs, app_assoc; apply removelast_last|].
      split; [assumption|].
      intros E. specialize (Hm E). rewrite map_app in Hm. cbn [map] in Hm.
      apply map_fst_snoc in Hm. destruct Hm as [stk0 [e' [Hs' [Hn' He']]]].
      rewrite Hs', top_is_snoc, He', En. cbn [stack].
      rewrite removelast_last. assumption.
    + exists (new ++ [e]). split; [assumption|].
      split; [apply Forall_app; split; assumption|].
      intros E. specialize (Hm E). pose proof Hm as Hm2.
      rewrite map_app in Hm2. cbn [map] in Hm2.
      apply map_fst_snoc in Hm2. destruct Hm2 as [stk0 [e' [Hs' [_ He']]]].
      rewrite Hs', top_is_snoc, He', En. cbn [stack].
      rewrite <- Hs'. assumption.
Qed.

Lemma fold_begin_framed (base : list (text * nat)) (i0 k i j : nat)
    (envs : list text) (st st' : scan_state) :
  i0 <= i ->
  framed base i0 k (stack st) (stack st') ->
  framed base i0 k (stack (fold_left (env_begin i) envs st))
    (stack (fold_left (env_begin j) envs st')).
Proof.
  intros Hi. revert st st'. induction envs as [|env envs IH]; intros st st' H;
    simpl; [assumption|].
  apply IH. apply env_begin_framed; assumption.
Qed.

Lemma fold_end_framed (base : list (text * nat)) (i0 k i j : nat)
    (envs : list text) (st st' : scan_state) :
  framed base i0 k (stack st) (stack st') ->
  exists k2, k2 <= k
    /\ framed base i0 k2 (stack (fold_left (env_end i) envs st))
         (stack (fold_left (env_end j) envs st')).
Proof.
  revert k st st'. induction envs as [|env envs IH]; intros k st st' H; simpl.
  - exists k. split; [lia | assumption].
  - destruct (env_end_framed base i0 k i j st st' env H) as [k1 [Hk1 H1]].
    destruct (IH k1 _ _ H1) as [k2 [Hk2 H2]].
    exists k2. split; [lia | assumption].
Qed.

Lemma scan_lines_framed (base : list (text * nat)) (i0 : nat)
    (lines : list text) (k i j : nat) (st st' : scan_state) :
  i0 <= i ->
  framed base i0 k (stack st) (stack st') ->
  exists k2, k2 <= k
    /\ framed base i0 k2 (stack (scan_lines i st lines))
         (stack (scan_lines j st' lines)).
Proof.
  revert k i j st st'.
  induction lines as [|ln lines IH]; intros k i j st st' Hi H; simpl.
  - exists k. split; [lia | assumption].
  - assert (H1 : exists k1, k1 <= k
              /\ framed base i0 k1 (stack (scan_line i st ln))
                   (stack (scan_line j st' ln))).
    { unfold scan_line. destruct (is_commented ln).
      - exists k. split; [lia | assumption].
      - apply fold_end_framed. apply fold_begin_framed; assumption. }
    destruct H1 as [k1 [Hk1 H1]].
    destruct (IH k1 (S i) (S j) _ _ ltac:(lia) H1) as [k2 [Hk2 H2]].
    exists k2. split; [lia | assumption].
Qed.

(** A scan that ends on the stack it started on has popped none of its
    entries and left none of its own: started on the empty stack, it ends
    on the empty stack. *)
Lemma framed_final (base : list (text * nat)) (i0 k : nat)
    (stk' : list (text * nat)) :
  Forall (fun e => snd e < i0) base ->
  framed base i0 k base stk' -> stk' = [].
Proof.
  intros Hb [Hk [new [Hs [Hn Hm]]]].
  assert (Hnew : new = skipn k base).
  { rewrite <- (firstn_skipn k base) in Hs at 1.
    apply app_inv_head in Hs. congruence. }
  assert (Hnil : new = []).
  { destruct new as [|e new]; [reflexivity|]. exfalso.
    assert (He : i0 <= snd e) by (inversion Hn; assumption).
    assert (Hin : In e base).
    { rewrite <- (firstn_skipn k base), <- Hnew. apply in_or_app. right.
      left. reflexivity. }
    rewrite Forall_forall in Hb. specialize (Hb e Hin). lia. }
  assert (Hlen : k = length base).
  { rewrite Hnil in Hnew. apply (f_equal (@length _)) in Hnew.
    rewrite length_skipn in Hnew. simpl in Hnew. lia. }
  specialize (Hm Hlen). rewrite Hnil in Hm. apply map_eq_nil in Hm.
  assumption.
Qed.

Lemma env_begin_bound (i : nat) (st : scan_state) (env : text) :
  Forall (fun e => snd e < S i) (stack st) ->
  Forall (fun e => snd e < S i) (stack (env_begin i st env)).
Proof.
  intros H. unfold env_begin. destruct (in_balance_envs env); [|assumption].
  cbn [stack]. apply Forall_app. split; [assumption|].
  constructor; [simpl; lia | constructor].
Qed.

Lemma env_end_bound (n i : nat) (st : scan_state) (env : text) :
  Forall (fun e => snd e < n) (stack st) ->
  Forall (fun e => snd e < n) (stack (env_end i st env)).
Proof.
  intros H. unfold env_end. destruct (in_balance_envs env); [|assumption].
  destruct (top_is env (stack st)); cbn [stack]; [|assumption].
  apply Forall_removelast. assumption.
Qed.

Lemma fold_bound (n : nat) (f : scan_state -> text -> scan_state)
    (envs : list text) (st : scan_state) :
  (forall st env, Forall (fun e => snd e < n) (stack st) ->
                  Forall (fun e => snd e < n) (stack (f st env))) ->
  Forall (fun e => snd e < n) (stack st) ->
  Forall (fun e => snd e < n) (stack (fold_left f envs st)).
Proof.
  intros Hf. revert st. induction envs as [|env envs IH]; intros st H; simpl;
    auto.
Qed.

(** The entries pushed by the scan of lines [i], [i+1], ... carry the numbers
    of these lines. *)
Lemma scan_lines_bound (lines : list text) (i : nat) (st : scan_state) :
  Forall (fun e => snd e < i) (stack st) ->
  Forall (fun e => snd e < i + length lines) (stack (scan_lines i st lines)).
Proof.
  revert i st. induction lines as [|ln lines IH]; intros i st H; simpl.
  - rewrite Nat.add_0_r. assumption.
  - replace (i + S (length lines)) with (S i + length lines) by lia.
    apply IH. unfold scan_line.
    assert (H' : Forall (fun e => snd e < S i) (stack st)).
    { eapply Forall_impl; [|exact H]. simpl. intros e He. lia. }
    destruct (is_commented ln); [assumption|].
    apply fold_bound; [intros; apply env_end_bound; assumption|].
    apply fold_bound; [intros; apply env_begin_bound; assumption|].
    assumption.
Qed.

(** When only inert lines follow the end-of-document line, the stack at the
    end of the scan is the stack at that line. *)
Lemma inert_tail_same_stack (t : text) :
  forallb inert (skipn (end_doc_idx (splitlines t)) (splitlines t)) = true ->
  open_env_stack t = stack_at_end_document t.
Proof.
  intros H. unfold open_env_stack, stack_at_end_document.
  rewrite <- (firstn_skipn (end_doc_idx (splitlines t)) (splitlines t)) at 1.
  rewrite scan_lines_app, scan_lines_inert by assumption. reflexivity.
Qed.

(** Once the rescan of the output is known to leave an empty stack, a second
    run changes nothing. *)
Lemma rescan_empty_idempotent (t : text) (lines : list text) :
  fst (balance_envs t) = join_lines lines ->
  Forall (fun l => no_break l = true) lines ->
  stack (scan_lines 1 scan_init lines) = [] ->
  open_env_stack (fst (balance_envs t)) = []
  /\ fst (balance_envs (fst (balance_envs t))) = fst (balance_envs t)
  /\ inserted_missing_ends (snd (balance_envs (fst (balance_envs t)))) = 0.
Proof.
  intros Hout Hnb Hscan.
  assert (Hempty : open_env_stack (fst (balance_envs t)) = []
                   /\ join_lines (splitlines (fst (balance_envs t)))
                      = fst (balance_envs t)).
  { rewrite Hout. destruct lines as [|l ls].
    - split; reflexivity.
    - unfold open_env_stack.
      rewrite splitlines_join by (assumption || discriminate).
      split; [assumption | reflexivity]. }
  destruct Hempty as [He Hj]. split; [assumption|].
  destruct (balance_envs_balanced _ He) as [H1 H2].
  rewrite H1, Hj. split; [reflexivity | assumption].
Qed.


(** ** Environment balancer: an end that matches nothing *)

Lemma env_begin_earlier (um : list (text * nat)) (i : nat) (st : scan_state)
    (env : text) :
  env_begin i (with_earlier_ends um st) env
  = with_earlier_ends um (env_begin i st env).
Proof. unfold env_begin. destruct (in_balance_envs env); reflexivity. Qed.

Lemma env_end_earlier (um : list (text * nat)) (i : nat) (st : scan_state)
    (env : text) :
  env_end i (with_earlier_ends um st) env
  = with_earlier_ends um (env_end i st env).
Proof.
  unfold env_end. destruct (in_balance_envs env); [|reflexivity].
  cbn [with_earlier_ends stack].
  destruct (top_is env (stack st)); [reflexivity|].
  unfold with_earlier_ends. cbn [stack unmatched_end].
  rewrite app_assoc. reflexivity.
Qed.

Lemma fold_earlier (f : scan_state -> text -> scan_state)
    (um : list (text * nat)) (envs : list text) (st : scan_state) :
  (forall st env,
      f (with_earlier_ends um st) env = with_earlier_ends um (f st env)) ->
  fold_left f envs (with_earlier_ends um st)
  = with_earlier_ends um (fold_left f envs st).
Proof.
  intros Hf. revert st. induction envs as [|env envs IH]; intros st;
    [reflexivity|].
  cbn [fold_left]. rewrite Hf. apply IH.
Qed.

Lemma scan_line_earlier (um : list (text * nat)) (i : nat) (st : scan_state)
    (ln : text) :
  scan_line i (with_earlier_ends um st) ln
  = with_earlier_ends um (scan_line i st ln).
Proof.
  unfold scan_line. destruct (is_commented ln); [reflexivity|].
  rewrite (fold_earlier (env_begin i))
    by (intros; apply env_begin_earlier).
  apply fold_earlier. intros. apply env_end_earlier.
Qed.

(** The unmatched ends recorded so far have no influence on the scan. *)
Lemma scan_lines_earlier (um : list (text * nat)) (lines : list text)
    (i : nat) (st : scan_state) :
  scan_lines i (with_earlier_ends um st) lines
  = with_earlier_ends um (scan_lines i st lines).
Proof.
  revert i st. induction lines as [|ln lines IH]; intros i st; [reflexivity|].
  cbn [scan_lines]. rewrite scan_line_earlier. apply IH.
Qed.

(** The scan of a text with an end that does not match the top of the stack,
    and the scan of a text that differs by having this end not. *)
Lemma scan_lines_stray_end (pre post : list text) (l l0 : text)
    (es1 es2 : list text) (env : text) :
  is_commented l = false ->
  is_commented l0 = false ->
  finditer RE_ENV_BEGIN l0 = finditer RE_ENV_BEGIN l ->
  finditer RE_ENV_END l = es1 ++ env :: es2 ->
  finditer RE_ENV_END l0 = es1 ++ es2 ->
  in_balance_envs env = true ->
  top_is env (stack_before_end pre l es1) = false ->
  exists stk um new,
    scan_lines 1 scan_init (pre ++ l :: post)
    = {| stack := stk;
         unmatched_end := um ++ (env, S (length pre)) :: new |}
    /\ scan_lines 1 scan_init (pre ++ l0 :: post)
       = {| stack := stk; unmatched_end := um ++ new |}.
Proof.
  intros Hc Hc0 Hb He He0 Henv Htop.
  rewrite !scan_lines_app. cbn [scan_lines].
  unfold scan_line. rewrite Hc, Hc0, Hb, He, He0, !fold_left_app.
  cbn [fold_left]. unfold stack_before_end in Htop.
  change (1 + length pre) with (S (length pre)).
  destruct (fold_left (env_end (S (length pre))) es1
              (fold_left (env_begin (S (length pre)))
                 (finditer RE_ENV_BEGIN l) (scan_lines 1 scan_init pre)))
    as [stk0 um0].
  cbn [stack] in Htop.
  assert (Hl : env_end (S (length pre))
                 {| stack := stk0; unmatched_end := um0 |} env
               = with_earlier_ends (um0 ++ [(env, S (length pre))])
                   {| stack := stk0; unmatched_end := [] |}).
  { unfold env_end. rewrite Henv. cbn [stack unmatched_end]. rewrite Htop.
    unfold with_earlier_ends. cbn [stack unmatched_end].
    rewrite app_nil_r. reflexivity. }
  assert (Hn : {| stack := stk0; unmatched_end := um0 |}
               = with_earlier_ends um0
                   {| stack := stk0; unmatched_end := [] |}).
  { unfold with_earlier_ends. cbn [stack unmatched_end].
    rewrite app_nil_r. reflexivity. }
  rewrite Hl, Hn.
  rewrite !(fold_earlier (env_end (S (length pre))))
    by (intros; apply env_end_earlier).
  rewrite !scan_lines_earlier.
  destruct (scan_lines (S (S (length pre)))
              (fold_left (env_end (S (length pre))) es2
                 {| stack := stk0; unmatched_end := [] |}) post)
    as [stk new].
  exists stk, um0, new. unfold with_earlier_ends.
  cbn [stack unmatched_end]. rewrite <- app_assoc. split; reflexivity.
Qed.



(** C3, as amended. For every text on which the scan ends with the stack it
    had when it reached the first end-of-document line (so whenever there is
    no such line, or it is the last line, or only inert lines follow it), or
    ends with an empty stack, the output of the balancer leaves an empty
    stack when rescanned, and the balancer applied to its own output returns
    that output unchanged and inserts no closer. *)
Theorem C3_balance_envs_idempotent (t : text) :
  open_env_stack t = [] \/ open_env_stack t = stack_at_end_document t ->
  open_env_stack (fst (balance_envs t)) = []
  /\ fst (balance_envs (fst (balance_envs t))) = fst (balance_envs t)
  /\ inserted_missing_ends (snd (balance_envs (fst (balance_envs t)))) = 0.
Proof.
  intros [Hnil|Hsame].
  - apply (rescan_empty_idempotent t (splitlines t)).
    + apply balance_envs_balanced. assumption.
    + apply splitlines_no_break.
    + exact Hnil.
  - unfold stack_at_end_document in Hsame.
    set (lines := splitlines t) in *.
    set (idx := end_doc_idx lines) in *.
    set (s1 := scan_lines 1 scan_init (firstn idx lines)) in *.
    assert (Htr : tracked (stack s1))
      by (apply scan_lines_tracked; constructor).
    assert (Hb : Forall (fun e => snd e < 1 + length (firstn idx lines))
                   (stack s1))
      by (apply scan_lines_bound; constructor).
    assert (Hend : stack (scan_lines (1 + length (firstn idx lines)) s1
                            (skipn idx lines)) = stack s1).
    { rewrite <- Hsame. unfold open_env_stack. fold lines.
      rewrite <- (firstn_skipn idx lines) at 3.
      rewrite scan_lines_app. reflexivity. }
    apply (rescan_empty_idempotent t
             (insert_at idx (map closer (rev (stack s1))) lines)).
    + rewrite balance_envs_text. fold lines idx. rewrite Hsame. reflexivity.
    + apply insert_at_no_break;
        [apply closers_no_break; assumption | apply splitlines_no_break].
    + unfold insert_at. rewrite !scan_lines_app. fold s1.
      destruct s1 as [stk um] eqn:Es1. cbn [stack] in *.
      rewrite scan_lines_closers by assumption.
      destruct (scan_lines_framed stk (1 + length (firstn idx lines))
                  (skipn idx lines) (length stk)
                  (1 + length (firstn idx lines))
                  (1 + length (firstn idx lines)
                   + length (map closer (rev stk)))
                  {| stack := stk; unmatched_end := um |}
                  {| stack := []; unmatched_end := um |})
        as [k2 [_ Hf]]; [lia | |].
      * split; [cbn [stack]; lia|]. exists []. cbn [stack].
        rewrite firstn_all, app_nil_r. repeat split; constructor.
      * rewrite Hend in Hf. eapply framed_final; eassumption.
Qed.

Lemma C3_balance_envs_idempotent_witness :
  let t := str "\begin{itemize}" ++ [LF] ++ str "\begin{center}" ++ [LF]
           ++ str "\item a" ++ [LF] ++ str "\end{document}" ++ [LF]
           ++ str "\end{quote}" in
  (open_env_stack t = [] \/ open_env_stack t = stack_at_end_document t)
  /\ fst (balance_envs t)
     = str "\begin{itemize}" ++ [LF] ++ str "\begin{center}" ++ [LF]
       ++ str "\item a" ++ [LF] ++ str "\end{center}" ++ [LF]
       ++ str "\end{itemize}" ++ [LF] ++ str "\end{document}" ++ [LF]
       ++ str "\end{quote}" ++ [LF]
  /\ open_env_stack (fst (balance_envs t)) = []
  /\ fst (balance_envs (fst (balance_envs t))) = fst (balance_envs t).
Proof.
  intros t. split; [right; reflexivity|]. split; [reflexivity|].
  pose proof (C3_balance_envs_idempotent t (or_intror eq_refl)) as [H1 [H2 _]].
  split; [exact H1 | exact H2].
Defined.

(** The claim as stated fails: a list opened after the end-of-document line
    is closed before that line, hence before its own begin; the rescan of the
    output finds the begin still open, and a second run inserts a second
    closer. *)
Lemma C3_counterexample :
  let t := str "\end{document}" ++ [LF] ++ str "\begin{itemize}" in
  fst (balance_envs t)
  = str "\end{itemize}" ++ [LF] ++ str "\end{document}" ++ [LF]
    ++ str "\begin{itemize}" ++ [LF]
  /\ open_env_stack (fst (balance_envs t)) = [(str "itemize", 3)]
  /\ fst (balance_envs (fst (balance_envs t))) <> fst (balance_envs t)
  /\ inserted_missing_ends (snd (balance_envs (fst (balance_envs t)))) = 1.
Proof. repeat split; vm_compute; discriminate. Qed.

(** * Further properties of the code *)

(** ** Brace auditor: the hotspots and the imbalance *)

Lemma ev_count_line_events (ch : ascii) (line_no : nat) (raw line : text)
    (col : nat) :
  ev_count ch (line_events line_no raw col line) = count ch line.
Proof.
  unfold ev_count, count. revert col.
  induction line as [|x line IH]; intros col; simpl; [reflexivity|].
  destruct (is_char ch x); simpl; rewrite IH; reflexivity.
Qed.

Lemma ev_count_app (ch : ascii) (a b : list (brace_record * ascii)) :
  ev_count ch (a ++ b) = ev_count ch a + ev_count ch b.
Proof. unfold ev_count. rewrite filter_app, length_app. reflexivity. Qed.

Lemma ev_count_text_events (ch : ascii) (lines : list text) (line_no : nat) :
  ev_count ch (text_events line_no lines)
  = count ch (concat (map strip_comment lines)).
Proof.
  revert line_no. induction lines as [|raw lines IH]; intros n; simpl;
    [reflexivity|].
  rewrite ev_count_app, count_app, ev_count_line_events, IH. reflexivity.
Qed.

(** The unmatched opening braces are the excess of opening braces plus the
    closing braces that found nothing to close. *)
Lemma unmatched_opens_length (evs : list (brace_record * ascii)) :
  Z.of_nat (length (unmatched_opens evs))
  = (Z.of_nat (ev_count LBRACE evs) - Z.of_nat (ev_count RBRACE evs)
     + Z.of_nat (deficit evs))%Z.
Proof.
  unfold ev_count. induction evs as [|[p ch] evs IH]; [reflexivity|].
  cbn [unmatched_opens deficit filter snd].
  destruct (is_char LBRACE ch) eqn:EL.
  - assert (ER : is_char RBRACE ch = false).
    { apply is_char_eq in EL. subst ch. reflexivity. }
    rewrite ER, stays_open_deficit.
    destruct (deficit evs) as [|d]; cbn [Nat.leb andb pred length] in *; lia.
  - cbn [andb]. destruct (is_char RBRACE ch); cbn [length]; lia.
Qed.

(** X1. The number of hotspots is the rough imbalance plus the number of
    closing braces met with an empty stack; so there are at least as many
    hotspots as the imbalance says, and a positive imbalance always comes
    with a hotspot. *)
Theorem hotspots_cover_imbalance (t : text) :
  Z.of_nat (length (find_unmatched_open_braces t))
  = (rough_brace_imbalance t
     + Z.of_nat (deficit (text_events 1 (splitlines t))))%Z
  /\ (rough_brace_imbalance t
      <= Z.of_nat (length (find_unmatched_open_braces t)))%Z
  /\ ((0 <? rough_brace_imbalance t)%Z = true ->
      find_unmatched_open_braces t <> []).
Proof.
  assert (H : Z.of_nat (length (find_unmatched_open_braces t))
              = (rough_brace_imbalance t
                 + Z.of_nat (deficit (text_events 1 (splitlines t))))%Z).
  { unfold find_unmatched_open_braces.
    rewrite scan_brace_lines_events, scan_events_spec, firstn_nil. cbn [app].
    rewrite unmatched_opens_length, !ev_count_text_events.
    rewrite rough_brace_imbalance_excess. reflexivity. }
  split; [exact H|]. split; [lia|].
  intros Hpos Hnil. apply Z.ltb_lt in Hpos. rewrite Hnil in H. simpl in H. lia.
Qed.

Lemma hotspots_cover_imbalance_witness :
  (0 <? rough_brace_imbalance (str "}a{b{c}{"))%Z = true
  /\ find_unmatched_open_braces (str "}a{b{c}{") <> [].
Proof.
  split; [reflexivity|].
  apply (hotspots_cover_imbalance (str "}a{b{c}{")). reflexivity.
Defined.

Lemma line_events_in (p : brace_record) (ch : ascii) (line_no : nat)
    (raw line : text) (col : nat) :
  In (p, ch) (line_events line_no raw col line) ->
  exists k, p = (line_no, col + k + 1, raw) /\ nth_error line k = Some ch.
Proof.
  revert col. induction line as [|x line IH]; intros col H; simpl in H;
    [contradiction|].
  destruct H as [H|H].
  - injection H as <- <-. exists 0. split; [f_equal; f_equal; lia|].
    reflexivity.
  - destruct (IH _ H) as [k [-> Hk]]. exists (S k).
    split; [f_equal; f_equal; lia | exact Hk].
Qed.

Lemma text_events_in (p : brace_record) (ch : ascii) (lines : list text)
    (line_no : nat) :
  In (p, ch) (text_events line_no lines) ->
  exists i k raw,
    p = (line_no + i, k + 1, raw)
    /\ nth_error lines i = Some raw
    /\ nth_error (strip_comment raw) k = Some ch.
Proof.
  revert line_no. induction lines as [|raw lines IH]; intros n H; simpl in H;
    [contradiction|].
  apply in_app_or in H. destruct H as [H|H].
  - apply line_events_in in H. destruct H as [k [-> Hk]].
    exists 0, k, raw. rewrite Nat.add_0_r. auto.
  - destruct (IH _ H) as [i [k [raw' [-> [Hi Hk]]]]].
    exists (S i), k, raw'. split; [f_equal; f_equal; lia|]. auto.
Qed.

Lemma unmatched_opens_in (p : brace_record)
    (evs : list (brace_record * ascii)) :
  In p (unmatched_opens evs) -> In (p, LBRACE) evs.
Proof.
  induction evs as [|[q ch] evs IH]; simpl; [auto|].
  destruct (is_char LBRACE ch) eqn:E; cbn [andb].
  - apply is_char_eq in E. subst ch.
    destruct (stays_open 0 evs); [|auto].
    intros [->|H]; [left; reflexivity | right; auto].
  - auto.
Qed.

Lemma count_absent (ch : ascii) (l : text) :
  forallb (fun c => negb (is_char ch c)) l = true -> count ch l = 0.
Proof.
  unfold count. induction l as [|x l IH]; [reflexivity|].
  simpl. intros H. apply andb_true_iff in H. destruct H as [Hx Hl].
  apply negb_true_iff in Hx. rewrite Hx. apply IH. assumption.
Qed.

Lemma strip_comment_prefix (raw : text) (k : nat) (ch : ascii) :
  nth_error (strip_comment raw) k = Some ch ->
  nth_error raw k = Some ch /\ count PERCENT (firstn (S k) raw) = 0.
Proof.
  unfold strip_comment.
  destruct (span (fun c => negb (is_char PERCENT c)) raw) as [a b] eqn:E.
  apply span_spec in E. destruct E as [-> [Ha _]]. cbn [fst]. intros H.
  assert (Hk : k < length a) by (apply nth_error_Some; congruence).
  split; [rewrite nth_error_app1 by assumption; exact H|].
  rewrite firstn_app. replace (S k - length a) with 0 by lia.
  cbn [firstn]. rewrite app_nil_r. unfold count.
  assert (Hf : forallb (fun c => negb (is_char PERCENT c)) (firstn (S k) a)
               = true).
  { rewrite <- (firstn_skipn (S k) a), forallb_app in Ha.
    apply andb_true_iff in Ha. apply Ha. }
  apply count_absent. assumption.
Qed.

(** X2. Every hotspot points into the text: its line number is that of a
    line of the text, which it carries; its column is that of an opening
    brace of this line; and no percent sign stands on the line up to that
    column. *)
Theorem hotspots_point_at_braces (t : text) (line col : nat) (raw : text) :
  In (line, col, raw) (find_unmatched_open_braces t) ->
  1 <= line /\ 1 <= col
  /\ nth_error (splitlines t) (line - 1) = Some raw
  /\ nth_error raw (col - 1) = Some LBRACE
  /\ count PERCENT (firstn col raw) = 0.
Proof.
  intros H. unfold find_unmatched_open_braces in H.
  rewrite scan_brace_lines_events, scan_events_spec, firstn_nil in H.
  cbn [app] in H. apply unmatched_opens_in, text_events_in in H.
  destruct H as [i [k [raw' [E [Hi Hk]]]]]. injection E as -> -> ->.
  apply strip_comment_prefix in Hk. destruct Hk as [Hk Hp].
  assert (E1 : S i - 1 = i) by lia. assert (E2 : k + 1 - 1 = k) by lia.
  assert (E3 : k + 1 = S k) by lia. rewrite E1, E2, E3.
  repeat split; try lia; assumption.
Qed.

Lemma hotspots_point_at_braces_witness :
  In (2, 3, str "b {% }") (find_unmatched_open_braces
                             (str "a" ++ [LF] ++ str "b {% }"))
  /\ nth_error (str "b {% }") (3 - 1) = Some LBRACE.
Proof.
  split; [left; reflexivity|].
  apply (hotspots_point_at_braces (str "a" ++ [LF] ++ str "b {% }") 2 3
           (str "b {% }") (or_introl eq_refl)).
Defined.

(** ** List-item guarantor: what the output satisfies *)

Lemma window_guarantee (rest : list text) :
  window_has_item rest = true -> window_has_item (guarantee rest) = true.
Proof.
  induction rest as [|l rest IH]; [discriminate|].
  cbn [window_has_item guarantee].
  destruct (has_list_end l) eqn:Ee; [discriminate|].
  destruct (is_item_line l) eqn:Ei.
  - intros _. destruct (has_list_begin l && negb (window_has_item rest));
      cbn [window_has_item]; rewrite Ee, Ei; reflexivity.
  - intros H. rewrite H, andb_false_r. cbn [window_has_item].
    rewrite Ee, Ei. apply IH. assumption.
Qed.

Lemma lists_ok_guarantee (lines : list text) : lists_ok (guarantee lines) = true.
Proof.
  induction lines as [|ln lines IH]; [reflexivity|].
  cbn [guarantee]. destruct (has_list_begin ln) eqn:Eb; cbn [andb].
  - destruct (window_has_item lines) eqn:Ew; cbn [negb lists_ok].
    + rewrite Eb, (window_guarantee _ Ew), IH. reflexivity.
    + rewrite Eb, IH. reflexivity.
  - cbn [lists_ok]. rewrite Eb, IH. reflexivity.
Qed.

Lemma guarantee_fixed (lines : list text) :
  lists_ok lines = true -> guarantee lines = lines.
Proof.
  induction lines as [|ln lines IH]; [reflexivity|].
  cbn [lists_ok guarantee]. intros H.
  apply andb_true_iff in H. destruct H as [H1 H2].
  rewrite (IH H2).
  destruct (has_list_begin ln); [|reflexivity].
  cbn [negb orb] in H1. rewrite H1. reflexivity.
Qed.

Lemma guarantee_no_break (lines : list text) :
  Forall (fun l => no_break l = true) lines ->
  Forall (fun l => no_break l = true) (guarantee lines).
Proof.
  induction 1 as [|ln lines Hl Hr IH]; [constructor|].
  cbn [guarantee].
  destruct (has_list_begin ln && negb (window_has_item lines));
    repeat (constructor; try assumption).
Qed.

Lemma guarantee_nil (lines : list text) : guarantee lines = [] -> lines = [].
Proof.
  destruct lines as [|ln lines]; [reflexivity|]. cbn [guarantee].
  destruct (has_list_begin ln && negb (window_has_item lines)); discriminate.
Qed.

(** The lines of the output of the guarantor. *)
Lemma ensure_list_items_lines (t out : text) :
  ensure_list_items t = Some out ->
  out = join_lines (guarantee (splitlines t))
  /\ (splitlines out = guarantee (splitlines t)
      \/ splitlines t = [] /\ splitlines out = [[]]).
Proof.
  rewrite ensure_list_items_total. intros H. injection H as <-.
  split; [reflexivity|].
  destruct (guarantee (splitlines t)) as [|l ls] eqn:E.
  - right. apply guarantee_nil in E. split; [assumption | reflexivity].
  - left. rewrite <- E. apply splitlines_join; [rewrite E; discriminate|].
    apply guarantee_no_break, splitlines_no_break.
Qed.

(** X3. In the output of the list-item guarantor every line that begins an
    itemize or enumerate list has an item line in its window: an item line
    comes before the next line that ends such a list. *)
Theorem ensure_list_items_postcondition (t out : text) :
  ensure_list_items t = Some out -> lists_ok (splitlines out) = true.
Proof.
  intros H. apply ensure_list_items_lines in H.
  destruct H as [_ [H|[_ H]]]; rewrite H;
    [apply lists_ok_guarantee | reflexivity].
Qed.

Lemma ensure_list_items_postcondition_witness :
  ensure_list_items
    (str "\begin{itemize}" ++ [LF] ++ str "\begin{enumerate}" ++ [LF]
     ++ str "\end{enumerate}" ++ [LF] ++ str "\item a" ++ [LF]
     ++ str "\end{itemize}")
  = Some (str "\begin{itemize}" ++ [LF] ++ str "\item" ++ [LF]
          ++ str "\begin{enumerate}" ++ [LF] ++ str "\item" ++ [LF]
          ++ str "\end{enumerate}" ++ [LF] ++ str "\item a" ++ [LF]
          ++ str "\end{itemize}" ++ [LF])
  /\ lists_ok
       (splitlines
          (str "\begin{itemize}" ++ [LF] ++ str "\item" ++ [LF]
           ++ str "\begin{enumerate}" ++ [LF] ++ str "\item" ++ [LF]
           ++ str "\end{enumerate}" ++ [LF] ++ str "\item a" ++ [LF]
           ++ str "\end{itemize}" ++ [LF])) = true.
Proof.
  split; [reflexivity|].
  apply (ensure_list_items_postcondition
           (str "\begin{itemize}" ++ [LF] ++ str "\begin{enumerate}" ++ [LF]
            ++ str "\end{enumerate}" ++ [LF] ++ str "\item a" ++ [LF]
            ++ str "\end{itemize}")).
  reflexivity.
Defined.

(** X4. The list-item guarantor is idempotent, and a text whose lists all
    have an item line in their window only gets its line ends rewritten. *)
Theorem ensure_list_items_idempotent (t out : text) :
  ensure_list_items t = Some out ->
  ensure_list_items out = Some out
  /\ (lists_ok (splitlines t) = true -> out = join_lines (splitlines t)).
Proof.
  intros H. pose proof (ensure_list_items_lines t out H) as [Hout Hl].
  split.
  - rewrite ensure_list_items_total. f_equal.
    destruct Hl as [Hl|[Ht Hl]]; rewrite Hl.
    + rewrite guarantee_fixed by apply lists_ok_guarantee.
      symmetry. assumption.
    + rewrite Hout, Ht. reflexivity.
  - intros Hok. rewrite Hout, guarantee_fixed by assumption. reflexivity.
Qed.

Lemma ensure_list_items_idempotent_witness :
  ensure_list_items (str "\begin{enumerate}" ++ [CR; LF] ++ str "\end{enumerate}")
  = Some (str "\begin{enumerate}" ++ [LF] ++ str "\item" ++ [LF]
          ++ str "\end{enumerate}" ++ [LF])
  /\ ensure_list_items
       (str "\begin{enumerate}" ++ [LF] ++ str "\item" ++ [LF]
        ++ str "\end{enumerate}" ++ [LF])
     = Some (str "\begin{enumerate}" ++ [LF] ++ str "\item" ++ [LF]
             ++ str "\end{enumerate}" ++ [LF]).
Proof.
  split; [reflexivity|].
  apply (ensure_list_items_idempotent
           (str "\begin{enumerate}" ++ [CR; LF] ++ str "\end{enumerate}")).
  reflexivity.
Defined.

(** ** The balancer and the guarantor leave the brace imbalance alone *)

Lemma rough_join_lines (lines : list text) :
  Forall (fun l => no_break l = true) lines ->
  rough_brace_imbalance (join_lines lines) = excess_of_lines lines.
Proof.
  intros H. destruct lines as [|l ls]; [reflexivity|].
  unfold rough_brace_imbalance.
  rewrite splitlines_join by (assumption || discriminate).
  rewrite rough_fold. lia.
Qed.

Lemma excess_of_insert_at (idx : nat) (ins lines : list text) :
  excess_of_lines (insert_at idx ins lines)
  = (excess_of_lines lines + excess_of_lines ins)%Z.
Proof.
  unfold insert_at. rewrite !excess_of_lines_app.
  pose proof (excess_of_lines_app (firstn idx lines) (skipn idx lines)) as H.
  rewrite firstn_skipn in H. lia.
Qed.

Lemma closer_excess (e : text * nat) :
  in_balance_envs (fst e) = true -> excess_of_lines [closer e] = 0%Z.
Proof.
  destruct e as [env k]. cbn [fst]. unfold in_balance_envs. intros H.
  apply existsb_exists in H. destruct H as [x [Hin Hx]].
  apply text_eqb_eq in Hx. subst x. unfold closer. cbn [fst].
  unfold BALANCE_ENVS in Hin. cbn [In] in Hin.
  repeat (destruct Hin as [<-|Hin]; [reflexivity|]).
  contradiction.
Qed.

Lemma closers_excess (stk : list (text * nat)) :
  tracked stk -> excess_of_lines (map closer stk) = 0%Z.
Proof.
  induction 1 as [|e stk He Hs IH]; [reflexivity|].
  cbn [map]. change (closer e :: map closer stk)
    with ([closer e] ++ map closer stk).
  rewrite excess_of_lines_app, closer_excess, IH by assumption. reflexivity.
Qed.

Lemma guarantee_excess (lines : list text) :
  excess_of_lines (guarantee lines) = excess_of_lines lines.
Proof.
  induction lines as [|ln lines IH]; [reflexivity|].
  cbn [guarantee].
  destruct (has_list_begin ln && negb (window_has_item lines)).
  - rewrite !excess_of_lines_cons, IH.
    change (strip_comment ITEM) with ITEM.
    change (count LBRACE ITEM) with 0. change (count RBRACE ITEM) with 0. lia.
  - rewrite !excess_of_lines_cons, IH. reflexivity.
Qed.

(** X5. Neither the environment balancer nor the list-item guarantor changes
    the rough brace imbalance of a text: the closers and the empty items they
    insert are balanced, and rejoining the lines moves no brace into or out
    of a comment. *)
Theorem balancer_and_guarantor_keep_imbalance (t : text) :
  rough_brace_imbalance (fst (balance_envs t)) = rough_brace_imbalance t
  /\ exists out,
       ensure_list_items t = Some out
       /\ rough_brace_imbalance out = rough_brace_imbalance t.
Proof.
  split.
  - rewrite balance_envs_text, rough_join_lines.
    + rewrite excess_of_insert_at, closers_excess.
      * rewrite rough_brace_imbalance_excess. unfold brace_excess, visible.
        unfold excess_of_lines. lia.
      * apply Forall_rev. apply scan_lines_tracked. constructor.
    + apply insert_at_no_break; [|apply splitlines_no_break].
      apply closers_no_break. apply scan_lines_tracked. constructor.
  - exists (join_lines (guarantee (splitlines t))).
    split; [apply ensure_list_items_total|].
    rewrite rough_join_lines
      by (apply guarantee_no_break, splitlines_no_break).
    rewrite guarantee_excess, rough_brace_imbalance_excess. reflexivity.
Qed.

(** ** Definition stripper: [_skip_balanced] *)

Lemma skipn_exact {A : Type} (a b : list A) : skipn (length a) (a ++ b) = b.
Proof. induction a as [|x a IH]; [reflexivity | exact IH]. Qed.

Lemma nth_error_exact {A : Type} (a b : list A) (x : A) :
  nth_error (a ++ x :: b) (length a) = Some x.
Proof. induction a as [|y a IH]; [reflexivity | exact IH]. Qed.

Lemma skip_balanced_from_le (o c : ascii) (s : text) (depth : Z) (j : nat) :
  skip_balanced_from o c depth j s <= j + length s.
Proof.
  revert depth j. induction s as [|x s IH]; intros depth j; simpl; [lia|].
  destruct (is_char o x).
  - specialize (IH (depth + 1)%Z (j + 1)). lia.
  - destruct (is_char c x).
    + destruct (depth - 1 =? 0)%Z; [lia|].
      specialize (IH (depth - 1)%Z (j + 1)). lia.
    + specialize (IH depth (j + 1)). lia.
Qed.

(** X6. [_skip_balanced] never moves backwards and never leaves the text; it
    moves forward exactly when it starts on the opening character, and
    returns its index unchanged otherwise. *)
Theorem _skip_balanced_bounds (src : text) (idx : nat) (o c : ascii) :
  idx <= length src ->
  idx <= _skip_balanced src idx o c <= length src
  /\ (nth_error src idx = Some o -> idx < _skip_balanced src idx o c)
  /\ (nth_error src idx <> Some o -> _skip_balanced src idx o c = idx).
Proof.
  intros Hidx. split; [split; [apply _skip_balanced_ge|]|split].
  - unfold _skip_balanced. destruct (nth_error src idx) as [x|]; [|lia].
    destruct (is_char o x); [|lia].
    pose proof (skip_balanced_from_le o c (skipn idx src) 0 idx) as H.
    rewrite length_skipn in H. lia.
  - intros H. unfold _skip_balanced. rewrite H, is_char_refl.
    destruct (nth_error_skipn_cons _ _ _ H) as [r ->]. cbn [skip_balanced_from].
    rewrite is_char_refl.
    pose proof (skip_balanced_from_ge o c r (0 + 1)%Z (idx + 1)). lia.
  - intros H. unfold _skip_balanced. destruct (nth_error src idx) as [x|];
      [|reflexivity].
    destruct (is_char o x) eqn:E; [|reflexivity].
    apply is_char_eq in E. subst x. congruence.
Qed.

Lemma _skip_balanced_bounds_witness :
  3 <= length (str "ab {c}")
  /\ nth_error (str "ab {c}") 3 = Some LBRACE
  /\ 3 < _skip_balanced (str "ab {c}") 3 LBRACE RBRACE <= length (str "ab {c}").
Proof.
  split; [simpl; lia|]. split; [reflexivity|].
  pose proof (_skip_balanced_bounds (str "ab {c}") 3 LBRACE RBRACE
                ltac:(simpl; lia)) as [[_ H1] [H2 _]].
  split; [apply H2; reflexivity | exact H1].
Defined.

Lemma skip_balanced_from_balanced (o c : ascii) (body post : text) (d j : nat) :
  o <> c ->
  balanced o c d body = true ->
  skip_balanced_from o c (Z.of_nat d + 1) j (body ++ c :: post)
  = j + length body + 1.
Proof.
  intros Hoc. apply is_char_neq in Hoc.
  revert d j. induction body as [|x body IH]; intros d j H; simpl in *.
  - apply Nat.eqb_eq in H. subst d. rewrite Hoc, is_char_refl. simpl. lia.
  - destruct (is_char o x).
    + replace (Z.of_nat d + 1 + 1)%Z with (Z.of_nat (S d) + 1)%Z by lia.
      rewrite (IH _ _ H). lia.
    + destruct (is_char c x).
      * destruct d as [|d]; [discriminate|].
        replace (Z.of_nat (S d) + 1 - 1 =? 0)%Z with false
          by (symmetry; apply Z.eqb_neq; lia).
        replace (Z.of_nat (S d) + 1 - 1)%Z with (Z.of_nat d + 1)%Z by lia.
        rewrite (IH _ _ H). lia.
      * rewrite (IH _ _ H). lia.
Qed.

(** X7. Started on the opening character of a group whose body is balanced,
    [_skip_balanced] returns the index just behind the closing character of
    that group: groups nested in the body do not end the scan early. *)
Theorem _skip_balanced_group (pre body post : text) (o c : ascii) :
  o <> c ->
  balanced o c 0 body = true ->
  _skip_balanced (pre ++ o :: body ++ c :: post) (length pre) o c
  = length pre + length body + 2.
Proof.
  intros Hoc Hb. unfold _skip_balanced.
  rewrite nth_error_exact, is_char_refl, skipn_exact.
  cbn [skip_balanced_from]. rewrite is_char_refl.
  rewrite (skip_balanced_from_balanced o c body post 0 _ Hoc Hb). lia.
Qed.

Lemma _skip_balanced_group_witness :
  LBRACE <> RBRACE
  /\ balanced LBRACE RBRACE 0 (str "a{b{c}}d{}") = true
  /\ _skip_balanced (str "x{a{b{c}}d{}}y}") 1 LBRACE RBRACE = 13.
Proof.
  split; [discriminate|]. split; [reflexivity|].
  apply (_skip_balanced_group (str "x") (str "a{b{c}}d{}") (str "y}")
           LBRACE RBRACE); [discriminate | reflexivity].
Defined.

Lemma skip_balanced_from_unclosed (o c : ascii) (s : text) (d j : nat) :
  unclosed o c d s = true ->
  skip_balanced_from o c (Z.of_nat d + 1) j s = j + length s.
Proof.
  revert d j. induction s as [|x s IH]; intros d j H; simpl in *; [lia|].
  destruct (is_char o x).
  - replace (Z.of_nat d + 1 + 1)%Z with (Z.of_nat (S d) + 1)%Z by lia.
    rewrite (IH _ _ H). lia.
  - destruct (is_char c x).
    + destruct d as [|d]; [discriminate|].
      replace (Z.of_nat (S d) + 1 - 1 =? 0)%Z with false
        by (symmetry; apply Z.eqb_neq; lia).
      replace (Z.of_nat (S d) + 1 - 1)%Z with (Z.of_nat d + 1)%Z by lia.
      rewrite (IH _ _ H). lia.
    + rewrite (IH _ _ H). lia.
Qed.

(** X8. Started on an opening character that is never closed,
    [_skip_balanced] returns the length of the text. *)
Theorem _skip_balanced_unclosed (pre rest : text) (o c : ascii) :
  unclosed o c 0 rest = true ->
  _skip_balanced (pre ++ o :: rest) (length pre) o c
  = length (pre ++ o :: rest).
Proof.
  intros H. unfold _skip_balanced.
  rewrite nth_error_exact, is_char_refl, skipn_exact.
  cbn [skip_balanced_from]. rewrite is_char_refl.
  rewrite (skip_balanced_from_unclosed o c rest 0 _ H).
  rewrite length_app. cbn [length]. lia.
Qed.

Lemma _skip_balanced_unclosed_witness :
  unclosed LBRACE RBRACE 0 (str "a{b}c") = true
  /\ _skip_balanced (str "x{a{b}c") 1 LBRACE RBRACE = 7.
Proof.
  split; [reflexivity|].
  apply (_skip_balanced_unclosed (str "x") (str "a{b}c") LBRACE RBRACE).
  reflexivity.
Defined.

(** ** Definition stripper: texts without structural names *)

Lemma found_cons {G : Type} (m : text -> option (G * nat)) (c : ascii)
    (s : text) :
  found m s = true -> found m (c :: s) = true.
Proof.
  unfold found. cbn [search]. destruct (m (c :: s)) as [[g n]|]; [reflexivity|].
  destruct (search m s) as [[[p n] g]|]; [reflexivity | discriminate].
Qed.

Lemma found_skipn {G : Type} (m : text -> option (G * nat)) (k : nat)
    (s : text) :
  found m (skipn k s) = true -> found m s = true.
Proof.
  revert s. induction k as [|k IH]; intros s H; [exact H|].
  destruct s as [|c s]; [exact H|]. apply found_cons, IH. exact H.
Qed.

Lemma found_firstn {G : Type} (m : text -> option (G * nat)) (n : nat)
    (s : text) :
  prefix_stable m -> found m (firstn n s) = true -> found m s = true.
Proof.
  intros Hm. revert n. induction s as [|c s IH]; intros n H.
  - rewrite firstn_nil in H. discriminate.
  - destruct n as [|n]; [discriminate|].
    unfold found in *. cbn [firstn search] in *.
    destruct (m (c :: firstn n s)) as [[g k]|] eqn:E.
    + pose proof (Hm (S n) (c :: s)) as H1. cbn [firstn] in H1.
      rewrite E in H1. destruct (m (c :: s)) as [[g' k']|]; [reflexivity|].
      exfalso. apply H1; [discriminate | reflexivity].
    + destruct (m (c :: s)) as [[g' k']|]; [reflexivity|].
      specialize (IH n). destruct (search m (firstn n s)) as [[[p k] g]|];
        [|discriminate].
      specialize (IH eq_refl).
      destruct (search m s) as [[[p' k'] g']|]; [reflexivity | discriminate].
Qed.

Lemma strip_prefix_firstn (lit s r : text) (n : nat) :
  strip_prefix lit (firstn n s) = Some r ->
  strip_prefix lit s = Some (r ++ skipn n s).
Proof.
  intros H. apply strip_prefix_spec in H. apply strip_prefix_spec.
  rewrite <- (firstn_skipn n s) at 1. rewrite H, app_assoc. reflexivity.
Qed.

Lemma m_lit_prefix_stable (lit : text) : prefix_stable (m_lit lit).
Proof.
  intros n s H. unfold m_lit in *.
  destruct (strip_prefix lit (firstn n s)) as [r|] eqn:E; [|congruence].
  rewrite (strip_prefix_firstn _ _ _ _ E). discriminate.
Qed.

Lemma m_resume_name_prefix_stable : prefix_stable m_resume_name.
Proof.
  intros n s H. unfold m_resume_name in *.
  destruct (strip_prefix (str "\resume") (firstn n s)) as [r|] eqn:E;
    [|congruence].
  rewrite (strip_prefix_firstn _ _ _ _ E).
  destruct r as [|x r]; [simpl in H; congruence|].
  cbn [app span] in *. destruct (is_ascii_letter x); [|congruence].
  destruct (span is_ascii_letter (r ++ skipn n s)). discriminate.
Qed.

(** A structural name seen in a header window is in the text. *)
Lemma _should_strip_definition_slice (a b : nat) (src : text) :
  _should_strip_definition (slice a b src) = true ->
  _should_strip_definition src = true.
Proof.
  unfold _should_strip_definition, slice. intros H.
  repeat (apply orb_true_iff in H; destruct H as [H|H]).
  - apply found_firstn, found_skipn in H;
      [|apply m_resume_name_prefix_stable]. rewrite H. reflexivity.
  - apply found_firstn, found_skipn in H; [|apply m_lit_prefix_stable].
    rewrite H, !orb_true_r. reflexivity.
  - apply found_firstn, found_skipn in H; [|apply m_lit_prefix_stable].
    rewrite H, !orb_true_r. reflexivity.
  - apply found_firstn, found_skipn in H; [|apply m_lit_prefix_stable].
    rewrite H, !orb_true_r. reflexivity.
Qed.

Lemma strip_loop_unchanged (fuel : nat) (src : text) (i : nat) (out : text) :
  _should_strip_definition src = false ->
  strip_loop fuel src i = Some out -> out = src.
Proof.
  intros Hs. revert i. induction fuel as [|fuel IH]; intros i; [discriminate|].
  cbn [strip_loop].
  destruct (search RE_CMD_START (skipn i src)) as [[[p n] g]|];
    [|congruence].
  match goal with
  | |- context [_should_strip_definition (slice ?a ?b src)] =>
      destruct (_should_strip_definition (slice a b src)) eqn:E
  end.
  - apply _should_strip_definition_slice in E. congruence.
  - apply IH.
Qed.

(** X9. A text in which none of the structural names occurs ([\resume]
    followed by a letter, [\begin{itemize}], [\end{itemize}],
    [\labelitemi]) is returned unchanged by the definition stripper, whatever
    macro definitions it holds. *)
Theorem strip_macro_definitions_unchanged (t : text) :
  _should_strip_definition t = false -> strip_macro_definitions t = Some t.
Proof.
  intros H. destruct (strip_macro_definitions_total t) as [out Hout].
  rewrite Hout. f_equal. eapply strip_loop_unchanged; eassumption.
Qed.

Lemma strip_macro_definitions_unchanged_witness :
  _should_strip_definition
    (str "\newcommand{\foo}[1]{\textbf{#1}} \def\bar{x} \resume") = false
  /\ strip_macro_definitions
       (str "\newcommand{\foo}[1]{\textbf{#1}} \def\bar{x} \resume")
     = Some (str "\newcommand{\foo}[1]{\textbf{#1}} \def\bar{x} \resume").
Proof.
  split; [reflexivity|].
  apply strip_macro_definitions_unchanged. reflexivity.
Defined.

(** ** Definition stripper: a definition with its balanced body *)

Lemma skip_while_stop (p : ascii -> bool) (src : text) (i : nat) (c : ascii) :
  nth_error src i = Some c -> p c = false -> skip_while p src i = i.
Proof.
  intros H Hp. unfold skip_while.
  destruct (nth_error_skipn_cons _ _ _ H) as [r ->].
  cbn [span]. rewrite Hp. cbn [fst length]. lia.
Qed.

Lemma nth_error_at {A : Type} (a b : list A) (x : A) (i : nat) :
  i = length a -> nth_error (a ++ x :: b) i = Some x.
Proof. intros ->. apply nth_error_exact. Qed.

Lemma letter_not_brace (x : ascii) :
  is_ascii_letter x = true ->
  is_char LBRACE x = false /\ is_char RBRACE x = false.
Proof.
  intros H. split.
  - destruct (is_char LBRACE x) eqn:E; [|reflexivity].
    apply is_char_eq in E. subst x. discriminate.
  - destruct (is_char RBRACE x) eqn:E; [|reflexivity].
    apply is_char_eq in E. subst x. discriminate.
Qed.

Lemma balanced_letters (name : text) (d : nat) :
  forallb is_ascii_letter name = true ->
  balanced LBRACE RBRACE d name = (d =? 0).
Proof.
  induction name as [|x name IH]; intros H; [reflexivity|].
  simpl in H. apply andb_true_iff in H. destruct H as [Hx Hn].
  destruct (letter_not_brace x Hx) as [H1 H2].
  cbn [balanced]. rewrite H1, H2. apply IH. assumption.
Qed.

Lemma balanced_resume_name (name : text) :
  forallb is_ascii_letter name = true ->
  balanced LBRACE RBRACE 0 (str "\resume" ++ name) = true.
Proof.
  intros H.
  change (balanced LBRACE RBRACE 0 (str "\resume" ++ name))
    with (balanced LBRACE RBRACE 0 name).
  rewrite balanced_letters by assumption. reflexivity.
Qed.

(** The header of such a definition is skipped up to the brace of the body. *)
Lemma skip_header_resume (a nm opt rest : text) :
  balanced LBRACE RBRACE 0 nm = true ->
  arg_count_group opt ->
  skip_header (a ++ LBRACE :: nm ++ RBRACE :: opt ++ LBRACE :: rest) (length a)
  = length a + length nm + 2 + length opt.
Proof.
  intros Hnm Hopt.
  set (src := a ++ LBRACE :: nm ++ RBRACE :: opt ++ LBRACE :: rest).
  assert (H0 : nth_error src (length a) = Some LBRACE)
    by apply nth_error_exact.
  assert (H1 : _skip_balanced src (length a) LBRACE RBRACE
               = length a + length nm + 2)
    by (apply _skip_balanced_group; [discriminate | assumption]).
  unfold skip_header.
  rewrite (skip_while_stop isspace src (length a) LBRACE H0 eq_refl).
  rewrite H0, is_char_refl, H1.
  set (i1 := length a + length nm + 2).
  assert (Hsrc1 : src = (a ++ LBRACE :: nm ++ [RBRACE]) ++ opt ++ LBRACE :: rest).
  { unfold src. rewrite <- !app_assoc. cbn [app]. rewrite <- !app_assoc.
    reflexivity. }
  assert (Hi1 : i1 = length (a ++ LBRACE :: nm ++ [RBRACE])).
  { unfold i1. rewrite !length_app. cbn [length]. rewrite length_app.
    cbn [length]. lia. }
  destruct Hopt as [->|[args [-> Hargs]]].
  - assert (H2 : nth_error src i1 = Some LBRACE).
    { rewrite Hsrc1. cbn [app]. apply nth_error_at. assumption. }
    rewrite (skip_while_stop isspace src i1 LBRACE H2 eq_refl).
    rewrite H2. change (is_char LBRACK LBRACE) with false. cbv iota.
    rewrite (skip_while_stop isspace src i1 LBRACE H2 eq_refl).
    cbn [length]. lia.
  - assert (H2 : nth_error src i1 = Some LBRACK).
    { rewrite Hsrc1. cbn [app]. apply nth_error_at. assumption. }
    rewrite (skip_while_stop isspace src i1 LBRACK H2 eq_refl).
    rewrite H2, is_char_refl.
    assert (Hsrc2 : src = (a ++ LBRACE :: nm ++ [RBRACE])
                          ++ LBRACK :: args ++ RBRACK :: LBRACE :: rest).
    { rewrite Hsrc1. f_equal. cbn [app]. f_equal.
      rewrite <- app_assoc. reflexivity. }
    assert (H3 : _skip_balanced src i1 LBRACK RBRACK = i1 + length args + 2).
    { rewrite Hsrc2, Hi1.
      apply _skip_balanced_group; [discriminate | assumption]. }
    rewrite H3.
    assert (H4 : nth_error src (i1 + length args + 2) = Some LBRACE).
    { rewrite Hsrc1, app_assoc. apply nth_error_at.
      rewrite length_app, <- Hi1. cbn [length]. rewrite length_app.
      cbn [length]. lia. }
    rewrite (skip_while_stop isspace src _ LBRACE H4 eq_refl).
    cbn [length]. rewrite length_app. cbn [length]. lia.
Qed.

Lemma firstn_exact {A : Type} (a b : list A) : firstn (length a) (a ++ b) = a.
Proof. induction a as [|x a IH]; [reflexivity | simpl; f_equal; exact IH]. Qed.

Lemma m_resume_name_hit (x : ascii) (r : text) :
  is_ascii_letter x = true -> found m_resume_name (str "\resume" ++ x :: r) = true.
Proof.
  intros Hx. unfold found.
  assert (H : m_resume_name (str "\resume" ++ x :: r) <> None).
  { unfold m_resume_name. rewrite strip_prefix_app. cbn [span]. rewrite Hx.
    destruct (span is_ascii_letter r). discriminate. }
  destruct (str "\resume" ++ x :: r) as [|c s] eqn:E; [discriminate|].
  cbn [search]. destruct (m_resume_name (c :: s)) as [[g n]|];
    [reflexivity | congruence].
Qed.

(** The window of a definition of a [\resume] name holds that name. *)
Lemma resume_window (x : ascii) (name rest : text) (n : nat) :
  is_ascii_letter x = true ->
  _should_strip_definition
    (firstn (20 + n)
       (str "\newcommand" ++ LBRACE :: (str "\resume" ++ x :: name) ++ rest))
  = true.
Proof.
  intros Hx. unfold _should_strip_definition.
  rewrite (found_skipn m_resume_name 12); [reflexivity|].
  change (skipn 12
            (firstn (20 + n)
               (str "\newcommand" ++ LBRACE :: (str "\resume" ++ x :: name)
                ++ rest)))
    with (str "\resume" ++ x :: firstn n (name ++ rest)).
  apply m_resume_name_hit. assumption.
Qed.

Lemma resume_definition_shape (pre name opt body post : text) :
  pre ++ resume_definition name opt body ++ post
  = (pre ++ str "\newcommand")
    ++ LBRACE :: (str "\resume" ++ name) ++ RBRACE :: opt
    ++ LBRACE :: body ++ RBRACE :: post.
Proof.
  unfold resume_definition.
  repeat first [rewrite <- app_assoc | progress cbn [app]]. reflexivity.
Qed.

(** X10. A definition [\newcommand{\resume<name>}<opt>{<body>}] whose body is
    balanced is stripped exactly: the span from the backslash of the keyword
    through the closing brace of the body is replaced by the marker line,
    and the text before and behind it is kept; braces nested in the body do
    not cut the span short. *)
Theorem _strip_one_definition_resume (pre name opt body post : text) :
  name <> [] ->
  forallb is_ascii_letter name = true ->
  arg_count_group opt ->
  balanced LBRACE RBRACE 0 body = true ->
  _strip_one_definition (pre ++ resume_definition name opt body ++ post)
    (length pre)
  = (pre ++ MARKER ++ post, length pre + 1).
Proof.
  intros Hne Hname Hopt Hbody.
  destruct name as [|x name]; [congruence|].
  pose proof Hname as Hx. cbn [forallb] in Hx.
  apply andb_true_iff in Hx. destruct Hx as [Hx _].
  set (src := pre ++ resume_definition (x :: name) opt body ++ post).
  assert (Hshape := resume_definition_shape pre (x :: name) opt body post).
  fold src in Hshape.
  assert (Hlen : length src
                 = length pre + 11 + 1 + (7 + length (x :: name)) + 1
                   + length opt + 1 + length body + 1 + length post).
  { rewrite Hshape. repeat first [rewrite length_app | progress cbn [length]].
    change (length (str "\newcommand")) with 11.
    change (length (str "\resume")) with 7. lia. }
  unfold _strip_one_definition.
  unfold src at 1. rewrite skipn_exact.
  change (RE_CMD_START (resume_definition (x :: name) opt body ++ post))
    with (Some (tt, 11)).
  cbv beta iota zeta.
  assert (Hw : _should_strip_definition
                 (slice (length pre)
                    (Nat.min (length src) (length pre + 11 + 400)) src) = true).
  { unfold slice. unfold src at 2. rewrite skipn_exact.
    cbn [length] in Hlen.
    replace (Nat.min (length src) (length pre + 11 + 400) - length pre)
      with (20 + (Nat.min (length src) (length pre + 11 + 400)
                  - length pre - 20)) by lia.
    pose proof (resume_window x name
                  (RBRACE :: opt ++ LBRACE :: body ++ [RBRACE] ++ post)
                  (Nat.min (length src) (length pre + 11 + 400)
                   - length pre - 20) Hx) as Hwin.
    revert Hwin. unfold resume_definition.
    repeat first [rewrite <- app_assoc | progress cbn [app]].
    intros Hwin. apply Hwin. }
  rewrite Hw. cbn [negb].
  assert (Hh : skip_header src (length pre + 11)
               = length pre + 11 + (7 + length (x :: name)) + 2 + length opt).
  { rewrite Hshape.
    replace (length pre + 11) with (length (pre ++ str "\newcommand"))
      by (rewrite length_app; reflexivity).
    rewrite skip_header_resume;
      [|apply balanced_resume_name; assumption | assumption].
    rewrite !length_app. change (length (str "\resume")) with 7. lia. }
  rewrite Hh.
  assert (Hshape2 : src
                    = ((pre ++ str "\newcommand")
                       ++ LBRACE :: (str "\resume" ++ x :: name)
                       ++ RBRACE :: opt)
                      ++ LBRACE :: body ++ RBRACE :: post).
  { rewrite Hshape. repeat first [rewrite <- app_assoc | progress cbn [app]].
    reflexivity. }
  assert (Hi : length pre + 11 + (7 + length (x :: name)) + 2 + length opt
               = length ((pre ++ str "\newcommand")
                         ++ LBRACE :: (str "\resume" ++ x :: name)
                         ++ RBRACE :: opt)).
  { repeat first [rewrite length_app | progress cbn [length]].
    change (length (str "\newcommand")) with 11.
    change (length (str "\resume")) with 7. lia. }
  rewrite Hi.
  rewrite Hshape2 at 1. rewrite nth_error_exact, is_char_refl. cbn [negb].
  rewrite Hshape2 at 2.
  rewrite _skip_balanced_group by first [discriminate | assumption].
  f_equal. unfold strip_span.
  unfold src at 1. rewrite firstn_exact. do 2 f_equal.
  rewrite <- Hi.
  replace (length pre + 11 + (7 + length (x :: name)) + 2 + length opt
           + length body + 2)
    with (length (pre ++ resume_definition (x :: name) opt body)).
  - unfold src. rewrite app_assoc. apply skipn_exact.
  - unfold resume_definition. repeat first [rewrite length_app | progress cbn [length]].
    change (length (str "\newcommand")) with 11.
    change (length (str "\resume")) with 7. lia.
Qed.

Lemma _strip_one_definition_resume_witness :
  str "Item" <> []
  /\ forallb is_ascii_letter (str "Item") = true
  /\ arg_count_group (str "[1]")
  /\ balanced LBRACE RBRACE 0 (str " \item{#1 {x}} ") = true
  /\ _strip_one_definition
       (str "a\newcommand{\resumeItem}[1]{ \item{#1 {x}} }b") 1
     = (str "a% (stripped macro definition)" ++ [LF] ++ str "b", 2).
Proof.
  assert (Hg : arg_count_group (str "[1]"))
    by (right; exists (str "1"); split; reflexivity).
  split; [discriminate|]. split; [reflexivity|]. split; [exact Hg|].
  split; [reflexivity|].
  apply (_strip_one_definition_resume (str "a") (str "Item") (str "[1]")
           (str " \item{#1 {x}} ") (str "b"));
    [discriminate | reflexivity | exact Hg | reflexivity].
Defined.

Lemma search_plain {G : Type} (m : text -> option (G * nat)) (s : text) :
  starts_with_backslash m -> no_backslash s = true -> search m s = None.
Proof.
  intros Hm. induction s as [|c s IH]; intros H; [reflexivity|].
  simpl in H. apply andb_true_iff in H. destruct H as [Hc Hs].
  apply negb_true_iff, is_char_neq in Hc.
  cbn [search]. rewrite Hm by congruence. rewrite IH by assumption.
  reflexivity.
Qed.

Lemma search_plain_prefix {G : Type} (m : text -> option (G * nat))
    (a b : text) (g : G) (n : nat) :
  starts_with_backslash m -> no_backslash a = true -> b <> [] ->
  m b = Some (g, n) -> search m (a ++ b) = Some (length a, n, g).
Proof.
  intros Hm Ha Hb Hmb. induction a as [|c a IH].
  - destruct b as [|c b]; [congruence|]. cbn [app search]. rewrite Hmb.
    reflexivity.
  - simpl in Ha. apply andb_true_iff in Ha. destruct Ha as [Hc Ha].
    apply negb_true_iff, is_char_neq in Hc.
    cbn [app search length]. rewrite Hm by congruence.
    rewrite IH by assumption. reflexivity.
Qed.

Lemma strip_loop_step (fuel : nat) (src : text) (i : nat) :
  strip_loop (S fuel) src i
  = match search RE_CMD_START (skipn i src) with
    | None => Some src
    | Some (p, n, _) =>
        if _should_strip_definition
             (slice (i + p) (Nat.min (length src) (i + p + 500)) src)
        then let (src', i') := _strip_one_definition src (i + p) in
             strip_loop fuel src' i'
        else strip_loop fuel src (i + p + n)
    end.
Proof. reflexivity. Qed.

(** X11. In a text that holds no other backslash, the definition stripper
    replaces a definition [\newcommand{\resume<name>}<opt>{<body>}] with
    balanced body by the marker line and returns everything else as it
    was. *)
Theorem strip_macro_definitions_resume (pre name opt body post : text) :
  no_backslash pre = true ->
  no_backslash post = true ->
  name <> [] ->
  forallb is_ascii_letter name = true ->
  arg_count_group opt ->
  balanced LBRACE RBRACE 0 body = true ->
  strip_macro_definitions (pre ++ resume_definition name opt body ++ post)
  = Some (pre ++ MARKER ++ post).
Proof.
  intros Hpre Hpost Hne Hname Hopt Hbody.
  pose proof (_strip_one_definition_resume pre name opt body post Hne Hname
                Hopt Hbody) as Hone.
  destruct name as [|x name]; [congruence|].
  pose proof Hname as Hx. cbn [forallb] in Hx.
  apply andb_true_iff in Hx. destruct Hx as [Hx _].
  set (src := pre ++ resume_definition (x :: name) opt body ++ post) in *.
  assert (Hlen : 20 <= length src - length pre).
  { unfold src, resume_definition.
    repeat first [rewrite length_app | progress cbn [length]].
    change (length (str "\newcommand")) with 11.
    change (length (str "\resume")) with 7. lia. }
  assert (Hfuel : exists f, length src = S f)
    by (exists (pred (length src)); lia).
  destruct Hfuel as [f Hf].
  unfold strip_macro_definitions, strip_macro_definitions_fuel. rewrite Hf.
  rewrite strip_loop_step. cbn [skipn].
  assert (Hs : search RE_CMD_START src = Some (length pre, 11, tt)).
  { unfold src. apply search_plain_prefix;
      [apply RE_CMD_START_backslash | assumption | | reflexivity].
    unfold resume_definition. discriminate. }
  rewrite Hs. cbv beta iota zeta. cbn [Nat.add].
  assert (Hw : _should_strip_definition
                 (slice (length pre)
                    (Nat.min (length src) (length pre + 500)) src) = true).
  { unfold slice. unfold src at 2. rewrite skipn_exact.
    replace (Nat.min (length src) (length pre + 500) - length pre)
      with (20 + (Nat.min (length src) (length pre + 500) - length pre - 20))
      by lia.
    pose proof (resume_window x name
                  (RBRACE :: opt ++ LBRACE :: body ++ [RBRACE] ++ post)
                  (Nat.min (length src) (length pre + 500) - length pre - 20)
                  Hx) as Hwin.
    revert Hwin. unfold resume_definition.
    repeat first [rewrite <- app_assoc | progress cbn [app]].
    intros Hwin. apply Hwin. }
  rewrite Hw, Hone, strip_loop_step.
  replace (length pre + 1) with (1 + length pre) by lia.
  rewrite <- skipn_skipn, skipn_exact.
  change (skipn 1 (MARKER ++ post))
    with (str " (stripped macro definition)" ++ [LF] ++ post).
  rewrite search_plain; [reflexivity | apply RE_CMD_START_backslash|].
  unfold no_backslash in *. rewrite !forallb_app, Hpost. reflexivity.
Qed.

Lemma strip_macro_definitions_resume_witness :
  no_backslash (str "% helpers" ++ [LF]) = true
  /\ no_backslash ([LF] ++ str "text") = true
  /\ balanced LBRACE RBRACE 0 (str "{#1}{#2 {x}}") = true
  /\ strip_macro_definitions
       (str "% helpers" ++ [LF] ++ str "\newcommand{\resumeItem}{{#1}{#2 {x}}}"
        ++ [LF] ++ str "text")
     = Some (str "% helpers" ++ [LF] ++ str "% (stripped macro definition)"
             ++ [LF] ++ [LF] ++ str "text").
Proof.
  split; [reflexivity|]. split; [reflexivity|]. split; [reflexivity|].
  apply (strip_macro_definitions_resume (str "% helpers" ++ [LF]) (str "Item")
           [] (str "{#1}{#2 {x}}") ([LF] ++ str "text"));
    [reflexivity | reflexivity | discriminate | reflexivity
    | left; reflexivity | reflexivity].
Defined.

(** ** Guard rewriter *)

Lemma found_head {G : Type} (m : text -> option (G * nat)) (s : text) :
  s <> [] -> m s <> None -> found m s = true.
Proof.
  intros Hs Hm. unfold found. destruct s as [|c s]; [congruence|].
  cbn [search]. destruct (m (c :: s)) as [[g n]|]; [reflexivity | congruence].
Qed.

Lemma found_dropwhile {G : Type} (m : text -> option (G * nat))
    (p : ascii -> bool) (s : text) :
  found m (dropwhile p s) = true -> found m s = true.
Proof.
  induction s as [|c s IH]; [auto|]. cbn [dropwhile].
  destruct (p c); [|auto]. intros H. apply found_cons, IH. exact H.
Qed.

Lemma m_guard_found (s : text) (n : nat) :
  m_guard s = Some n -> found (m_lit INPUT_GLYPH) s = true.
Proof.
  unfold m_guard. fold INPUT_GLYPH.
  destruct (strip_prefix INPUT_GLYPH (dropwhile isspace s)) as [r|] eqn:E;
    [|discriminate].
  intros _. apply (found_dropwhile _ isspace). apply found_head.
  - intros Hnil. rewrite Hnil in E. discriminate.
  - unfold m_lit. rewrite E. discriminate.
Qed.

Lemma guard_from_unchanged (s : text) (bol : bool) :
  found (m_lit INPUT_GLYPH) s = false -> guard_from 0 bol s = s.
Proof.
  revert bol. induction s as [|c s IH]; intros bol H; [reflexivity|].
  assert (Hs : found (m_lit INPUT_GLYPH) s = false).
  { destruct (found (m_lit INPUT_GLYPH) s) eqn:E; [|reflexivity].
    apply (found_cons _ c) in E. congruence. }
  assert (Hg : m_guard (c :: s) = None).
  { destruct (m_guard (c :: s)) as [n|] eqn:E; [|reflexivity].
    apply m_guard_found in E. congruence. }
  cbn [guard_from]. rewrite Hg. destruct bol; rewrite IH by assumption;
    reflexivity.
Qed.

(** X12. A text in which [\input{glyphtounicode] does not occur is returned
    unchanged by the guard rewriter. *)
Theorem guard_glyphtounicode_unchanged (t : text) :
  found (m_lit INPUT_GLYPH) t = false -> guard_glyphtounicode t = t.
Proof. apply guard_from_unchanged. Qed.

Lemma guard_glyphtounicode_unchanged_witness :
  found (m_lit INPUT_GLYPH) (str "\input{other}" ++ [LF] ++ str "\input {glyphtounicode}") = false
  /\ guard_glyphtounicode (str "\input{other}" ++ [LF] ++ str "\input {glyphtounicode}")
     = str "\input{other}" ++ [LF] ++ str "\input {glyphtounicode}".
Proof.
  split; [reflexivity|].
  apply guard_glyphtounicode_unchanged. reflexivity.
Defined.

Lemma dropwhile_app (p : ascii -> bool) (a : text) (c : ascii) (b : text) :
  forallb p a = true -> p c = false -> dropwhile p (a ++ c :: b) = c :: b.
Proof.
  intros Ha Hc. induction a as [|x a IH]; cbn [app dropwhile].
  - rewrite Hc. reflexivity.
  - simpl in Ha. apply andb_true_iff in Ha. destruct Ha as [Hx Ha].
    rewrite Hx. apply IH. assumption.
Qed.

Lemma guard_from_skip_all (s : text) (k : nat) (bol : bool) :
  length s <= k -> guard_from k bol s = [].
Proof.
  revert k bol. induction s as [|c s IH]; intros k bol H; [reflexivity|].
  destruct k as [|k]; [simpl in H; lia|]. cbn [guard_from].
  apply IH. simpl in H. lia.
Qed.

Lemma span_whole (p : ascii -> bool) (s : text) :
  forallb p s = true -> span p s = (s, []).
Proof.
  intros H. rewrite <- (app_nil_r s) at 1. apply span_all; [assumption|].
  exact I.
Qed.

(** X13. A text made of the directive alone, with or without [.tex], between
    any white space including line ends, is rewritten to the guarded
    directive alone: the white space around it, a final line feed included,
    goes with it. *)
Theorem guard_glyphtounicode_sole_directive (ws1 ws2 : text) (tex : bool) :
  forallb isspace ws1 = true ->
  forallb isspace ws2 = true ->
  guard_glyphtounicode (ws1 ++ glyph_directive tex ++ ws2) = GUARDED.
Proof.
  intros H1 H2. unfold guard_glyphtounicode.
  set (s := ws1 ++ glyph_directive tex ++ ws2).
  assert (Hm : m_guard s = Some (length s)).
  { unfold m_guard, s. fold INPUT_GLYPH.
    assert (Hd : dropwhile isspace (ws1 ++ glyph_directive tex ++ ws2)
                 = INPUT_GLYPH
                   ++ (if tex then str ".tex" else []) ++ RBRACE :: ws2).
    { unfold glyph_directive. rewrite <- !app_assoc.
      change (INPUT_GLYPH ++ (if tex then str ".tex" else [])
              ++ [RBRACE] ++ ws2)
        with (BACKSLASH
              :: str "input{glyphtounicode"
                 ++ (if tex then str ".tex" else []) ++ RBRACE :: ws2).
      apply dropwhile_app; [assumption | reflexivity]. }
    rewrite Hd, strip_prefix_app.
    destruct tex.
    - rewrite strip_prefix_app.
      change (strip_prefix [RBRACE] (RBRACE :: ws2)) with (Some ws2).
      cbv beta iota. rewrite span_whole by assumption. reflexivity.
    - change (strip_prefix (str ".tex") ([] ++ RBRACE :: ws2)) with (@None text).
      cbv beta iota.
      change (strip_prefix [RBRACE] ([] ++ RBRACE :: ws2)) with (Some ws2).
      cbv beta iota. rewrite span_whole by assumption. reflexivity. }
  destruct s as [|c s'] eqn:Es.
  - unfold s in Es. apply app_eq_nil in Es. destruct Es as [_ Es].
    unfold glyph_directive in Es. discriminate.
  - cbn [guard_from]. rewrite Hm.
    rewrite guard_from_skip_all by (simpl; lia). apply app_nil_r.
Qed.

Lemma guard_glyphtounicode_sole_directive_witness :
  forallb isspace ([LF] ++ str "  ") = true
  /\ forallb isspace (str " " ++ [CR; LF; LF]) = true
  /\ guard_glyphtounicode
       ([LF] ++ str "  \input{glyphtounicode.tex} " ++ [CR; LF; LF])
     = str "\InputIfFileExists{glyphtounicode.tex}{}{} % guarded for Pandoc".
Proof.
  split; [reflexivity|]. split; [reflexivity|].
  apply (guard_glyphtounicode_sole_directive ([LF] ++ str "  ")
           (str " " ++ [CR; LF; LF]) true); reflexivity.
Defined.

(** ** Texts without backslash *)

Lemma splitlines_from_forallb (p : ascii -> bool) (b : bool) (s : text) :
  forallb p s = true ->
  Forall (fun l => forallb p l = true) (splitlines_from b s).
Proof.
  revert b. induction s as [|c s IH]; intros b H; simpl; [constructor|].
  simpl in H. apply andb_true_iff in H. destruct H as [Hc Hs].
  destruct (is_char LF c && b); [apply IH; assumption|].
  destruct (is_linebreak c).
  - constructor; [reflexivity | apply IH; assumption].
  - specialize (IH false Hs). destruct (splitlines_from false s) as [|l ls].
    + constructor; [|constructor]. simpl. rewrite Hc. reflexivity.
    + inversion IH as [|? ? Hh Ht]; subst. constructor; [|exact Ht].
      cbn [forallb]. rewrite Hc. exact Hh.
Qed.

Lemma splitlines_no_backslash (t : text) :
  no_backslash t = true ->
  Forall (fun l => no_backslash l = true) (splitlines t).
Proof. apply splitlines_from_forallb. Qed.

Lemma join_lines_no_backslash (lines : list text) :
  Forall (fun l => no_backslash l = true) lines ->
  no_backslash (join_lines lines) = true.
Proof.
  intros H. unfold join_lines, no_backslash. rewrite forallb_app.
  apply andb_true_iff. split; [|reflexivity].
  induction H as [|l ls Hl Hls IH]; [reflexivity|].
  destruct ls as [|l2 ls]; [exact Hl|].
  change (join_nl (l :: l2 :: ls)) with (l ++ LF :: join_nl (l2 :: ls)).
  rewrite forallb_app. cbn [forallb].
  unfold no_backslash in Hl. rewrite Hl, IH. reflexivity.
Qed.

Lemma no_match_plain_all {G : Type} (m : text -> option (G * nat)) (s : text) :
  starts_with_backslash m -> no_backslash s = true -> no_match_prefix m s [].
Proof. intros Hm Hs. apply no_match_prefix_plain; assumption. Qed.

Lemma rewrite_line_plain (st : depth_state) (raw : text) :
  no_backslash raw = true -> rewrite_line st raw = (st, raw).
Proof.
  intros H. unfold rewrite_line, replace_list_macros, replace.
  do 4 rewrite (sub_all _ _ raw)
    by (apply no_match_plain_all; [apply m_lit_backslash | assumption]).
  rewrite (finditer_all RE_ENV_BEGIN)
    by (apply no_match_plain_all; [apply m_env_backslash | assumption]).
  rewrite (finditer_all RE_ENV_END)
    by (apply no_match_plain_all; [apply m_env_backslash | assumption]).
  cbn [fold_left].
  rewrite (sub_st_all RE_RESUME_ITEM)
    by (apply no_match_plain_all; [apply m_item_backslash | assumption]).
  apply sub_st_all.
  apply no_match_plain_all; [apply m_item_backslash | assumption].
Qed.

Lemma rewrite_lines_plain (st : depth_state) (lines : list text) :
  Forall (fun l => no_backslash l = true) lines ->
  rewrite_lines st lines = (st, lines).
Proof.
  induction 1 as [|l ls Hl Hls IH]; [reflexivity|].
  cbn [rewrite_lines]. rewrite rewrite_line_plain by assumption. rewrite IH.
  reflexivity.
Qed.

(** X14. A text without backslash goes through the invocation rewriter with
    nothing but its line ends rewritten: the output is its lines, each
    followed by a line feed, and the list-depth counter stays at zero. *)
Theorem replace_invocations_plain (t : text) :
  no_backslash t = true ->
  replace_invocations t = join_lines (splitlines t)
  /\ fst (rewrite_text t) = depth_init.
Proof.
  intros H. pose proof (splitlines_no_backslash t H) as Hl.
  unfold replace_invocations, rewrite_text.
  rewrite rewrite_lines_plain by assumption. cbn [fst snd].
  split; [|reflexivity].
  apply sub_all. apply no_match_plain_all; [apply m_subheading_backslash|].
  apply join_lines_no_backslash. assumption.
Qed.

Lemma replace_invocations_plain_witness :
  no_backslash (str "Skills" ++ [CR; LF] ++ str "{C, Rocq} % 100") = true
  /\ replace_invocations (str "Skills" ++ [CR; LF] ++ str "{C, Rocq} % 100")
     = str "Skills" ++ [LF] ++ str "{C, Rocq} % 100" ++ [LF].
Proof.
  split; [reflexivity|].
  apply (replace_invocations_plain
           (str "Skills" ++ [CR; LF] ++ str "{C, Rocq} % 100")).
  reflexivity.
Defined.

(** ** The normalisation run *)

Lemma normalize_stages (flag : bool) (raw : text) :
  exists s0 s st,
    strip_macro_definitions (guard_glyphtounicode raw) = Some s0
    /\ balance_envs (replace_invocations s0) = (join_lines s, st)
    /\ normalize flag raw
       = let s1 := join_lines (guarantee (splitlines (join_lines s))) in
         let delta := rough_brace_imbalance s1 in
         let hs := if (0 <? delta)%Z then find_unmatched_open_braces s1
                   else [] in
         if flag && (0 <? delta)%Z
         then Some {| norm_text := auto_fix_braces s1 delta; norm_stats := st;
                      brace_delta :=
                        rough_brace_imbalance (auto_fix_braces s1 delta);
                      hotspots := hs |}
         else Some {| norm_text := s1; norm_stats := st;
                      brace_delta := delta; hotspots := hs |}.
Proof.
  destruct (strip_macro_definitions_total (guard_glyphtounicode raw))
    as [s0 H0].
  pose proof (balance_envs_text (replace_invocations s0)) as Hb.
  destruct (balance_envs (replace_invocations s0)) as [s1 st] eqn:E.
  cbn [fst] in Hb.
  exists s0, (insert_at (end_doc_idx (splitlines (replace_invocations s0)))
                (map closer (rev (open_env_stack (replace_invocations s0))))
                (splitlines (replace_invocations s0))), st.
  split; [exact H0|]. split; [rewrite E, Hb; reflexivity|].
  unfold normalize. rewrite H0. cbv beta iota zeta. rewrite E.
  rewrite ensure_list_items_total, Hb. reflexivity.
Qed.

(** X15. The normalisation run always returns.  The text it returns ends
    with a line feed, and the imbalance it reports is the rough imbalance of
    that text.  With the auto-fix requested the reported imbalance is never
    positive.  Hotspots are listed exactly when the imbalance before any
    auto-fix is positive, and then there is at least one. *)
Theorem normalize_report (raw : text) :
  exists fixed plain,
    normalize true raw = Some fixed
    /\ normalize false raw = Some plain
    /\ ends_with_newline (norm_text fixed)
    /\ ends_with_newline (norm_text plain)
    /\ brace_delta fixed = rough_brace_imbalance (norm_text fixed)
    /\ brace_delta plain = rough_brace_imbalance (norm_text plain)
    /\ (brace_delta fixed <= 0)%Z
    /\ hotspots fixed = hotspots plain
    /\ norm_stats fixed = norm_stats plain
    /\ match hotspots plain with
       | [] => (brace_delta plain <= 0)%Z
       | _ :: _ => (0 < brace_delta plain)%Z
       end.
Proof.
  destruct (normalize_stages true raw) as [s0 [s [st [H0 [Hb Ht]]]]].
  destruct (normalize_stages false raw) as [s0' [s' [st' [H0' [Hb' Hf]]]]].
  assert (s0' = s0) by congruence. subst s0'.
  assert (Hs : join_lines s' = join_lines s /\ st' = st)
    by (split; congruence).
  destruct Hs as [Hs ->]. rewrite Hs in Hf. clear Hs Hb' H0'.
  set (s1 := join_lines (guarantee (splitlines (join_lines s)))) in *.
  cbv zeta in Ht, Hf. cbn [andb] in Ht, Hf.
  set (delta := rough_brace_imbalance s1) in *.
  pose proof (hotspots_cover_imbalance s1) as [_ [_ Hhot]]. fold delta in Hhot.
  assert (Hplain : match (if (0 <? delta)%Z
                          then find_unmatched_open_braces s1 else [])
                   with
                   | [] => (delta <= 0)%Z
                   | _ :: _ => (0 < delta)%Z
                   end).
  { destruct (0 <? delta)%Z eqn:E.
    - apply Z.ltb_lt in E.
      destruct (find_unmatched_open_braces s1); [|assumption].
      exfalso. apply Hhot; reflexivity.
    - apply Z.ltb_ge in E. assumption. }
  destruct (0 <? delta)%Z eqn:E.
  - apply Z.ltb_lt in E.
    eexists. eexists. split; [exact Ht|]. split; [exact Hf|].
    cbn [norm_text brace_delta hotspots norm_stats].
    split.
    { unfold auto_fix_braces.
      destruct (delta <=? 0)%Z eqn:E2; [apply Z.leb_le in E2; lia|].
      apply join_lines_ends. }
    split; [apply join_lines_ends|].
    split; [reflexivity|]. split; [reflexivity|].
    split; [rewrite auto_fix_braces_imbalance by assumption; fold delta; lia|].
    split; [reflexivity|]. split; [reflexivity|]. exact Hplain.
  - apply Z.ltb_ge in E.
    eexists. eexists. split; [exact Ht|]. split; [exact Hf|].
    cbn [norm_text brace_delta hotspots norm_stats].
    split; [apply join_lines_ends|]. split; [apply join_lines_ends|].
    split; [reflexivity|]. split; [reflexivity|].
    split; [assumption|]. split; [reflexivity|]. split; [reflexivity|].
    exact Hplain.
Qed.

Lemma found_plain {G : Type} (m : text -> option (G * nat)) (s : text) :
  starts_with_backslash m -> no_backslash s = true -> found m s = false.
Proof.
  intros Hm Hs. unfold found. rewrite search_plain by assumption. reflexivity.
Qed.

Lemma m_resume_name_backslash : starts_with_backslash m_resume_name.
Proof.
  intros c s H. unfold m_resume_name.
  change (str "\resume") with (BACKSLASH :: str "resume").
  rewrite strip_prefix_backslash by assumption. reflexivity.
Qed.

Lemma m_list_env_backslash (kw : text) :
  starts_with_backslash (m_list_env (BACKSLASH :: kw)).
Proof.
  intros c s H. unfold m_list_env.
  rewrite strip_prefix_backslash by assumption. reflexivity.
Qed.

Lemma _should_strip_definition_plain (s : text) :
  no_backslash s = true -> _should_strip_definition s = false.
Proof.
  intros H. unfold _should_strip_definition.
  rewrite (found_plain m_resume_name) by (exact m_resume_name_backslash || assumption).
  rewrite !found_plain by (apply m_lit_backslash || assumption).
  reflexivity.
Qed.

Lemma inert_plain (ln : text) : no_backslash ln = true -> inert ln = true.
Proof.
  intros H. unfold inert.
  rewrite (finditer_all RE_ENV_BEGIN)
    by (apply no_match_plain_all; [apply m_env_backslash | assumption]).
  rewrite (finditer_all RE_ENV_END)
    by (apply no_match_plain_all; [apply m_env_backslash | assumption]).
  apply orb_true_r.
Qed.

Lemma lists_ok_plain (lines : list text) :
  Forall (fun l => no_backslash l = true) lines -> lists_ok lines = true.
Proof.
  induction 1 as [|l ls Hl Hls IH]; [reflexivity|].
  cbn [lists_ok]. rewrite IH.
  unfold has_list_begin.
  rewrite search_plain by (apply m_list_env_backslash || assumption).
  reflexivity.
Qed.

Lemma forallb_Forall {A : Type} (p : A -> bool) (l : list A) :
  Forall (fun x => p x = true) l -> forallb p l = true.
Proof. intros H. apply forallb_forall. apply Forall_forall. exact H. Qed.

Lemma balance_envs_inert (t : text) :
  forallb inert (splitlines t) = true ->
  balance_envs t
  = (join_lines (splitlines t),
     {| inserted_missing_ends := 0; unmatched_end_count := 0 |}).
Proof.
  intros H. unfold balance_envs. rewrite scan_lines_inert by assumption.
  reflexivity.
Qed.

Lemma join_split_join (lines : list text) :
  Forall (fun l => no_break l = true) lines ->
  join_lines (splitlines (join_lines lines)) = join_lines lines.
Proof.
  intros H. destruct lines as [|l ls]; [reflexivity|].
  rewrite splitlines_join by (assumption || discriminate). reflexivity.
Qed.

Lemma find_unmatched_join (t : text) :
  find_unmatched_open_braces (join_lines (splitlines t))
  = find_unmatched_open_braces t.
Proof.
  unfold find_unmatched_open_braces.
  destruct (splitlines t) as [|l ls] eqn:E; [reflexivity|].
  rewrite splitlines_join; [reflexivity | discriminate|].
  rewrite <- E. apply splitlines_no_break.
Qed.

(** X16. A text without backslash goes through the whole run with nothing
    but its line ends rewritten: nothing is guarded, stripped, rewritten or
    inserted, both counts of the report are zero, and the imbalance and the
    hotspots reported are those of the text as it came. *)
Theorem normalize_plain (raw : text) :
  no_backslash raw = true ->
  normalize false raw
  = Some {| norm_text := join_lines (splitlines raw);
            norm_stats := {| inserted_missing_ends := 0;
                             unmatched_end_count := 0 |};
            brace_delta := rough_brace_imbalance raw;
            hotspots := if (0 <? rough_brace_imbalance raw)%Z
                        then find_unmatched_open_braces raw else [] |}.
Proof.
  intros H.
  pose proof (splitlines_no_backslash raw H) as Hl.
  set (T := join_lines (splitlines raw)).
  assert (HT : no_backslash T = true)
    by (apply join_lines_no_backslash; assumption).
  assert (HTl : Forall (fun l => no_backslash l = true) (splitlines T))
    by (apply splitlines_no_backslash; assumption).
  assert (HTT : join_lines (splitlines T) = T)
    by (apply join_split_join, splitlines_no_break).
  unfold normalize.
  rewrite guard_glyphtounicode_unchanged
    by (apply found_plain; [apply m_lit_backslash | assumption]).
  rewrite strip_macro_definitions_unchanged
    by (apply _should_strip_definition_plain; assumption).
  destruct (replace_invocations_plain raw H) as [-> _]. fold T.
  rewrite balance_envs_inert.
  2:{ apply forallb_Forall. eapply Forall_impl; [|exact HTl].
      intros l. apply inert_plain. }
  rewrite HTT.
  assert (He : ensure_list_items T = Some T).
  { rewrite ensure_list_items_total.
    rewrite guarantee_fixed by (apply lists_ok_plain; assumption).
    rewrite HTT. reflexivity. }
  rewrite He. cbv zeta. cbn [andb].
  assert (Hr : rough_brace_imbalance T = rough_brace_imbalance raw).
  { unfold T. rewrite rough_join_lines by apply splitlines_no_break.
    rewrite rough_brace_imbalance_excess. reflexivity. }
  rewrite Hr. unfold T. rewrite find_unmatched_join. reflexivity.
Qed.

Lemma normalize_plain_witness :
  no_backslash (str "Skills: {C" ++ [CR] ++ str "50% done}") = true
  /\ normalize false (str "Skills: {C" ++ [CR] ++ str "50% done}")
     = Some {| norm_text := str "Skills: {C" ++ [LF] ++ str "50% done}" ++ [LF];
               norm_stats := {| inserted_missing_ends := 0;
                                unmatched_end_count := 0 |};
               brace_delta := 1;
               hotspots := [(1, 9, str "Skills: {C")] |}.
Proof.
  split; [reflexivity|].
  apply (normalize_plain (str "Skills: {C" ++ [CR] ++ str "50% done}")).
  reflexivity.
Defined.

(** ** Definition stripper: what comes before the first keyword *)

Lemma firstn_strip_span (src : text) (start e : nat) :
  start <= length src ->
  firstn start (strip_span src start e) = firstn start src.
Proof.
  intros H. unfold strip_span.
  rewrite firstn_app, length_firstn, Nat.min_l by assumption.
  rewrite Nat.sub_diag. cbn [firstn]. rewrite app_nil_r.
  apply firstn_all2. rewrite length_firstn. lia.
Qed.

Lemma _strip_one_definition_prefix (src : text) (start : nat)
    (x : unit * nat) :
  RE_CMD_START (skipn start src) = Some x ->
  start < snd (_strip_one_definition src start)
  /\ firstn start (fst (_strip_one_definition src start)) = firstn start src.
Proof.
  intros Hm. destruct (cmd_starts_at_match _ _ _ Hm) as [_ Hlt].
  destruct x as [[] n]. pose proof (RE_CMD_START_length _ _ Hm) as Hn.
  assert (Hspan : forall e,
            start < start + 1
            /\ firstn start (strip_span src start e) = firstn start src)
    by (intros e; split; [lia | apply firstn_strip_span; lia]).
  unfold _strip_one_definition. rewrite Hm. cbv zeta.
  destruct (negb _); [cbn [fst snd]; split; [lia | reflexivity]|].
  destruct (nth_error src (skip_header src (start + n))) as [c|];
    [|apply Hspan].
  destruct (negb (is_char LBRACE c)); [|apply Hspan].
  destruct (find_char LBRACE src (skip_header src (start + n)));
    apply Hspan.
Qed.

Lemma firstn_firstn_le {A : Type} (j k : nat) (l l' : list A) :
  j <= k -> firstn k l = firstn k l' -> firstn j l = firstn j l'.
Proof.
  intros Hjk H. apply (f_equal (firstn j)) in H.
  rewrite !firstn_firstn, Nat.min_l in H by assumption. exact H.
Qed.

(** The loop never touches the text before its scan index. *)
Lemma strip_loop_prefix (fuel : nat) (src : text) (i : nat) (out : text) :
  strip_loop fuel src i = Some out -> firstn i out = firstn i src.
Proof.
  revert src i. induction fuel as [|fuel IH]; intros src i; [discriminate|].
  rewrite strip_loop_step.
  destruct (search RE_CMD_START (skipn i src)) as [[[p n] g]|] eqn:E;
    [|congruence].
  apply search_spec in E. destruct E as [Hm _].
  rewrite skipn_skipn in Hm. replace (p + i) with (i + p) in Hm by lia.
  destruct (_should_strip_definition _).
  - destruct (_strip_one_definition_prefix src (i + p) _ Hm) as [H1 H2].
    destruct (_strip_one_definition src (i + p)) as [src' i'].
    cbn [fst snd] in *. intros H. apply IH in H.
    apply (firstn_firstn_le i (i + p)) in H2; [|lia].
    apply (firstn_firstn_le i i') in H; [|lia]. congruence.
  - intros H. apply IH in H.
    apply (firstn_firstn_le i (i + p + n)) in H; [exact H | lia].
Qed.

(** X17. The definition stripper returns the text before the first defining
    keyword as it was. *)
Theorem strip_macro_definitions_keeps_prefix (t out : text) (p n : nat) :
  strip_macro_definitions t = Some out ->
  search RE_CMD_START t = Some (p, n, tt) ->
  firstn p out = firstn p t.
Proof.
  unfold strip_macro_definitions, strip_macro_definitions_fuel.
  rewrite strip_loop_step. cbn [skipn]. intros H Hs. rewrite Hs in H.
  cbn [Nat.add] in H.
  pose proof Hs as Hm. apply search_spec in Hm. destruct Hm as [Hm _].
  destruct (_should_strip_definition _).
  - destruct (_strip_one_definition_prefix t p _ Hm) as [H1 H2].
    destruct (_strip_one_definition t p) as [src' i'].
    cbn [fst snd] in *. apply strip_loop_prefix in H.
    apply (firstn_firstn_le p i') in H; [|lia]. congruence.
  - apply strip_loop_prefix in H.
    apply (firstn_firstn_le p (p + n)) in H; [exact H | lia].
Qed.

Lemma strip_macro_definitions_keeps_prefix_witness :
  strip_macro_definitions (str "% a {" ++ [LF] ++ str "\def\resumeX{1}b")
  = Some (str "% a {" ++ [LF] ++ str "% (stripped macro definition)" ++ [LF]
          ++ str "b")
  /\ search RE_CMD_START (str "% a {" ++ [LF] ++ str "\def\resumeX{1}b")
     = Some (6, 4, tt)
  /\ firstn 6 (str "% a {" ++ [LF] ++ str "% (stripped macro definition)"
               ++ [LF] ++ str "b")
     = firstn 6 (str "% a {" ++ [LF] ++ str "\def\resumeX{1}b").
Proof.
  split; [reflexivity|]. split; [reflexivity|].
  apply (strip_macro_definitions_keeps_prefix
           (str "% a {" ++ [LF] ++ str "\def\resumeX{1}b") _ 6 4);
    reflexivity.
Defined.

(** ** Invocation rewriter: the sub-heading macro *)

Lemma lazy_until_plain {R : Type} (k : text -> option R) (a s : text) (r : R) :
  needs_rbrace k -> no_rbrace a = true -> k s = Some r ->
  lazy_until k (a ++ s) = Some (a, r).
Proof.
  intros Hk Ha Hs. induction a as [|x a IH].
  - cbn [app]. destruct s; cbn [lazy_until]; rewrite Hs; reflexivity.
  - simpl in Ha. apply andb_true_iff in Ha. destruct Ha as [Hx Ha].
    apply negb_true_iff in Hx.
    cbn [app lazy_until]. rewrite (Hk x _ Hx), (IH Ha). reflexivity.
Qed.

Lemma after_sep_needs_rbrace {R : Type} (k : text -> option R) :
  needs_rbrace (fun s1 => match strip_prefix SEP s1 with
                          | Some r1 => k r1
                          | None => None
                          end).
Proof.
  intros c s H. change SEP with (RBRACE :: str "{"). cbn [strip_prefix].
  rewrite H. reflexivity.
Qed.

Lemma rbrace_needs_rbrace : needs_rbrace (strip_prefix [RBRACE]).
Proof. intros c s H. cbn [strip_prefix]. rewrite H. reflexivity. Qed.

Lemma m_subheading_match (a b c d rest : text) :
  no_rbrace a = true -> no_rbrace b = true -> no_rbrace c = true ->
  no_rbrace d = true ->
  m_subheading (resume_subheading a b c d ++ rest)
  = Some ((a, b, c, d), length (resume_subheading a b c d)).
Proof.
  intros Ha Hb Hc Hd. unfold m_subheading, resume_subheading.
  rewrite <- !app_assoc, strip_prefix_app. cbv zeta.
  assert (H4 : lazy_until (strip_prefix [RBRACE]) (d ++ [RBRACE] ++ rest)
               = Some (d, rest)).
  { apply lazy_until_plain; [apply rbrace_needs_rbrace | assumption|].
    reflexivity. }
  rewrite (lazy_until_plain _ a (SEP ++ b ++ SEP ++ c ++ SEP ++ d
                                 ++ [RBRACE] ++ rest)
             (b, (c, (d, rest))));
    [|apply after_sep_needs_rbrace | assumption|].
  - f_equal. f_equal. rewrite !length_app. cbn [length]. lia.
  - rewrite strip_prefix_app.
    rewrite (lazy_until_plain _ b (SEP ++ c ++ SEP ++ d ++ [RBRACE] ++ rest)
               (c, (d, rest)));
      [reflexivity | apply after_sep_needs_rbrace | assumption|].
    rewrite strip_prefix_app.
    rewrite (lazy_until_plain _ c (SEP ++ d ++ [RBRACE] ++ rest) (d, rest));
      [reflexivity | apply after_sep_needs_rbrace | assumption|].
    rewrite strip_prefix_app. exact H4.
Qed.

Lemma sub_match_head {G : Type} (m : text -> option (G * nat))
    (repl : G -> text) (x rest : text) (g : G) :
  x <> [] -> m (x ++ rest) = Some (g, length x) ->
  sub m repl (x ++ rest) = repl g ++ sub m repl rest.
Proof.
  intros Hx Hm. unfold sub, sub_st. destruct x as [|c x]; [congruence|].
  cbn [app] in *. cbn [sub_from]. rewrite Hm. cbn [length pred].
  rewrite sub_from_skip.
  destruct (sub_from m (fun g0 (_ : unit) => (tt, repl g0)) 0 tt rest).
  reflexivity.
Qed.

Lemma rewrite_line_subheading (l : text) (st : depth_state) :
  no_backslash l = true ->
  rewrite_line st (str "\resumeSubheading{" ++ l)
  = (st, str "\resumeSubheading{" ++ l).
Proof.
  intros Hl. unfold rewrite_line, replace_list_macros, replace.
  do 4 rewrite (sub_all _ _ (str "\resumeSubheading{" ++ l)) by no_match.
  rewrite (finditer_all RE_ENV_BEGIN) by no_match.
  rewrite (finditer_all RE_ENV_END) by no_match.
  cbn [fold_left].
  rewrite (sub_st_all RE_RESUME_ITEM) by no_match.
  apply sub_st_all. no_match.
Qed.

Lemma splitlines_header (h s : text) :
  no_break h = true -> h <> [] ->
  splitlines (h ++ s)
  = match splitlines s with
    | [] => [h]
    | l :: ls => (h ++ l) :: ls
    end.
Proof.
  unfold splitlines. induction h as [|c h IH]; intros H Hne; [congruence|].
  simpl in H. apply andb_true_iff in H. destruct H as [Hc Hh].
  apply negb_true_iff in Hc.
  cbn [app splitlines_from]. rewrite andb_false_r, Hc.
  destruct h as [|c' h].
  - cbn [app]. destruct (splitlines_from false s); reflexivity.
  - rewrite (IH Hh) by discriminate.
    destruct (splitlines_from false s); reflexivity.
Qed.

Lemma rewrite_lines_subheading (body : text) (st : depth_state) :
  no_backslash body = true ->
  rewrite_lines st (splitlines (str "\resumeSubheading{" ++ body))
  = (st, splitlines (str "\resumeSubheading{" ++ body)).
Proof.
  intros Hb. rewrite splitlines_header by (reflexivity || discriminate).
  pose proof (splitlines_no_backslash body Hb) as Hl.
  destruct (splitlines body) as [|l ls].
  - cbn [rewrite_lines].
    rewrite <- (app_nil_r (str "\resumeSubheading{")).
    rewrite rewrite_line_subheading by reflexivity. reflexivity.
  - inversion Hl as [|? ? Hh Ht]; subst.
    cbn [rewrite_lines]. rewrite rewrite_line_subheading by assumption.
    rewrite rewrite_lines_plain by assumption. reflexivity.
Qed.

Lemma splitlines_from_nonempty (c : ascii) (s : text) :
  splitlines_from false (c :: s) <> [].
Proof.
  cbn [splitlines_from]. rewrite andb_false_r.
  destruct (is_linebreak c); [discriminate|].
  destruct (splitlines_from false s); discriminate.
Qed.

(** Splitting a text whose boundaries are line feeds and whose last character
    is no boundary, and joining the lines again, adds the final line feed. *)
Lemma join_split_only_lf (u : text) (x : ascii) :
  only_lf u = true -> is_linebreak x = false ->
  join_lines (splitlines (u ++ [x])) = u ++ [x; LF].
Proof.
  intros Hu Hx. unfold splitlines. induction u as [|c u IH].
  - cbn [app splitlines_from]. rewrite andb_false_r, Hx. reflexivity.
  - simpl in Hu. apply andb_true_iff in Hu. destruct Hu as [Hc Hu].
    specialize (IH Hu).
    assert (Hne : splitlines_from false (u ++ [x]) <> []).
    { destruct u; apply splitlines_from_nonempty. }
    cbn [app splitlines_from]. rewrite andb_false_r.
    destruct (is_linebreak c) eqn:Eb.
    + cbn [negb orb] in Hc. apply is_char_eq in Hc. subst c.
      change (is_char CR LF) with false.
      destruct (splitlines_from false (u ++ [x])) as [|l ls]; [congruence|].
      rewrite join_lines_cons by discriminate. rewrite IH. reflexivity.
    + destruct (splitlines_from false (u ++ [x])) as [|l ls]; [congruence|].
      destruct ls as [|l2 ls].
      * unfold join_lines in *. cbn [join_nl app] in *. rewrite IH.
        reflexivity.
      * rewrite join_lines_cons by discriminate.
        rewrite join_lines_cons in IH by discriminate.
        cbn [app]. rewrite IH. reflexivity.
Qed.

Lemma multiline_arg_no_backslash (x : text) :
  multiline_arg x = true -> no_backslash x = true.
Proof.
  apply forallb_weaken. intros c H.
  apply andb_true_iff in H. destruct H as [H _].
  apply andb_true_iff in H. apply H.
Qed.

Lemma multiline_arg_no_rbrace (x : text) :
  multiline_arg x = true -> no_rbrace x = true.
Proof.
  apply forallb_weaken. intros c H.
  apply andb_true_iff in H. destruct H as [H _].
  apply andb_true_iff in H. apply H.
Qed.

Lemma multiline_arg_only_lf (x : text) :
  multiline_arg x = true -> only_lf x = true.
Proof.
  apply forallb_weaken. intros c H.
  apply andb_true_iff in H. apply H.
Qed.

(** X18. An invocation [\resumeSubheading{a}{b}{c}{d}] whose arguments hold
    no backslash and no closing brace, and may span several lines separated
    by line feeds, is rewritten to the two-row item: a in bold and b in
    italics, a LaTeX line break, then c and d in italics; the arguments are
    copied as they are, line feeds included. *)
Theorem replace_invocations_subheading (a b c d : text) :
  multiline_arg a = true -> multiline_arg b = true ->
  multiline_arg c = true -> multiline_arg d = true ->
  replace_invocations (resume_subheading a b c d)
  = str "\item \textbf{" ++ a ++ str "}\hfill\textit{" ++ b ++ str "}\\"
    ++ str "\textit{" ++ c ++ str "}\hfill\textit{" ++ d ++ str "}" ++ [LF].
Proof.
  intros Ha Hb Hc Hd.
  pose proof (multiline_arg_no_backslash _ Ha) as Ba.
  pose proof (multiline_arg_no_backslash _ Hb) as Bb.
  pose proof (multiline_arg_no_backslash _ Hc) as Bc.
  pose proof (multiline_arg_no_backslash _ Hd) as Bd.
  pose proof (multiline_arg_only_lf _ Ha) as La.
  pose proof (multiline_arg_only_lf _ Hb) as Lb.
  pose proof (multiline_arg_only_lf _ Hc) as Lc.
  pose proof (multiline_arg_only_lf _ Hd) as Ld.
  unfold replace_invocations, rewrite_text.
  assert (Hr : snd (rewrite_lines depth_init
                      (splitlines (resume_subheading a b c d)))
               = splitlines (resume_subheading a b c d)).
  { unfold resume_subheading. rewrite rewrite_lines_subheading; [reflexivity|].
    unfold no_backslash in *. rewrite !forallb_app.
    rewrite Ba, Bb, Bc, Bd. reflexivity. }
  rewrite Hr.
  assert (Hj : join_lines (splitlines (resume_subheading a b c d))
               = resume_subheading a b c d ++ [LF]).
  { unfold resume_subheading.
    pose proof (join_split_only_lf
                  (str "\resumeSubheading{" ++ a ++ SEP ++ b ++ SEP ++ c
                   ++ SEP ++ d) RBRACE) as H.
    rewrite <- !app_assoc in H.
    rewrite H; [rewrite <- !app_assoc; reflexivity| |reflexivity].
    unfold only_lf in *. rewrite !forallb_app.
    rewrite La, Lb, Lc, Ld. reflexivity. }
  rewrite Hj.
  rewrite (sub_match_head m_subheading subheading_repl _ [LF] (a, b, c, d)).
  - unfold subheading_repl. rewrite <- !app_assoc. reflexivity.
  - unfold resume_subheading. discriminate.
  - apply m_subheading_match; apply multiline_arg_no_rbrace; assumption.
Qed.

Lemma replace_invocations_subheading_witness :
  multiline_arg (str "ACME {Inc.") = true
  /\ multiline_arg (str "2020 --" ++ LF :: str "  2024") = true
  /\ multiline_arg (str "Engineer") = true
  /\ multiline_arg (str "Paris") = true
  /\ replace_invocations
       (str "\resumeSubheading{ACME {Inc.}{2020 --" ++ LF
        :: str "  2024}{Engineer}{Paris}")
     = str "\item \textbf{ACME {Inc.}\hfill\textit{2020 --" ++ LF
       :: str "  2024}\\\textit{Engineer}\hfill\textit{Paris}" ++ [LF].
Proof.
  repeat (split; [reflexivity|]).
  apply (replace_invocations_subheading (str "ACME {Inc.")
           (str "2020 --" ++ LF :: str "  2024")
           (str "Engineer") (str "Paris")); reflexivity.
Defined.
